(** * Podcaster AI automation: web client, generated API bindings, setup script

    A shallow embedding of the TypeScript front end (data hooks, project
    list, project editor), of the generated [DefaultService] bindings and
    of [setup_linux.sh], together with the properties the specification
    states about them. *)

From Stdlib Require Import ZArith Ascii.
From stdpp Require Import gmap strings list pretty.

Open Scope string_scope.

(* ===================================================================== *)
(** * HTTP vocabulary shared by the client bindings and the hooks          *)
(* ===================================================================== *)

Module Http.

Inductive method := GET | POST | PUT | DELETE.

#[global] Instance method_eq_dec : EqDecision method.
Proof. solve_decision. Defined.

(** A URL template is kept as the string the source writes.  Its shape
    is the list of its [/]-separated pieces, where a piece written
    [{name}] is a path parameter: the name of a parameter is not part of
    the route ([{id}] and [{project_id}] denote the same route). *)
Inductive piece := Lit (s : string) | Param.

#[global] Instance piece_eq_dec : EqDecision piece.
Proof. solve_decision. Defined.

Fixpoint split_path (s : string) : list string :=
  match s with
  | EmptyString => [EmptyString]
  | String c rest =>
      if Ascii.eqb c "/"%char then EmptyString :: split_path rest
      else match split_path rest with
           | [] => [String c EmptyString]
           | w :: ws => String c w :: ws
           end
  end.

Fixpoint last_char (s : string) : option ascii :=
  match s with
  | EmptyString => None
  | String c EmptyString => Some c
  | String _ rest => last_char rest
  end.

Definition is_param (s : string) : bool :=
  match s with
  | String c _ =>
      Ascii.eqb c "{"%char &&
      match last_char s with
      | Some d => Ascii.eqb d "}"%char
      | None => false
      end
  | EmptyString => false
  end.

Definition to_piece (s : string) : piece :=
  if is_param s then Param else Lit s.

Definition shape (url : string) : list piece := to_piece <$> split_path url.

Record route := Route { r_method : method; r_path : string }.

Definition same_route (a b : route) : bool :=
  bool_decide (r_method a = r_method b) &&
  bool_decide (shape (r_path a) = shape (r_path b)).

End Http.

(* ===================================================================== *)
(** * The generated API client: [DefaultService.ts]                        *)
(* ===================================================================== *)

Module ApiClient.
Import Http.

(** The options object each static method hands to [__request]. *)
Record request_options := {
  method : Http.method;
  url : string;
  path : list (string * string);   (* template variable, argument bound to it *)
  formData : bool;                 (* a [formData] entry is passed *)
  mediaType : option string;
  errors : list (nat * string)
}.

Record callable := { c_name : string; c_request : request_options }.

Definition validation_error : list (nat * string) := [(422, "Validation Error")].
Definition urlencoded : option string := Some "application/x-www-form-urlencoded".

Definition rootGet : callable :=
  {| c_name := "rootGet";
     c_request := {| method := GET; url := "/"; path := []; formData := false;
                     mediaType := None; errors := [] |} |}.

Definition shutdownShutdownPost : callable :=
  {| c_name := "shutdownShutdownPost";
     c_request := {| method := POST; url := "/shutdown"; path := []; formData := false;
                     mediaType := None; errors := [] |} |}.

Definition healthHealthGet : callable :=
  {| c_name := "healthHealthGet";
     c_request := {| method := GET; url := "/health"; path := []; formData := false;
                     mediaType := None; errors := [] |} |}.

Definition getServerModeServerModeGet : callable :=
  {| c_name := "getServerModeServerModeGet";
     c_request := {| method := GET; url := "/server/mode"; path := []; formData := false;
                     mediaType := None; errors := [] |} |}.

Definition listPodcastProjectsPodcastProjectsGet : callable :=
  {| c_name := "listPodcastProjectsPodcastProjectsGet";
     c_request := {| method := GET; url := "/podcast/projects"; path := [];
                     formData := false; mediaType := None; errors := [] |} |}.

Definition createPodcastProjectPodcastProjectsPost : callable :=
  {| c_name := "createPodcastProjectPodcastProjectsPost";
     c_request := {| method := POST; url := "/podcast/projects"; path := [];
                     formData := true; mediaType := urlencoded;
                     errors := validation_error |} |}.

Definition getPodcastProjectPodcastProjectsProjectIdGet : callable :=
  {| c_name := "getPodcastProjectPodcastProjectsProjectIdGet";
     c_request := {| method := GET; url := "/podcast/projects/{project_id}";
                     path := [("project_id", "projectId")];
                     formData := false; mediaType := None;
                     errors := validation_error |} |}.

Definition updatePodcastProjectPodcastProjectsProjectIdPut : callable :=
  {| c_name := "updatePodcastProjectPodcastProjectsProjectIdPut";
     c_request := {| method := PUT; url := "/podcast/projects/{project_id}";
                     path := [("project_id", "projectId")];
                     formData := true; mediaType := urlencoded;
                     errors := validation_error |} |}.

Definition deletePodcastProjectPodcastProjectsProjectIdDelete : callable :=
  {| c_name := "deletePodcastProjectPodcastProjectsProjectIdDelete";
     c_request := {| method := DELETE; url := "/podcast/projects/{project_id}";
                     path := [("project_id", "projectId")];
                     formData := false; mediaType := None;
                     errors := validation_error |} |}.

Definition updatePodcastSegmentPodcastProjectsProjectIdSegmentsSegmentIdPut : callable :=
  {| c_name := "updatePodcastSegmentPodcastProjectsProjectIdSegmentsSegmentIdPut";
     c_request := {| method := PUT;
                     url := "/podcast/projects/{project_id}/segments/{segment_id}";
                     path := [("project_id", "projectId"); ("segment_id", "segmentId")];
                     formData := true; mediaType := urlencoded;
                     errors := validation_error |} |}.

Definition startPodcastPipelinePodcastProjectsProjectIdStartPost : callable :=
  {| c_name := "startPodcastPipelinePodcastProjectsProjectIdStartPost";
     c_request := {| method := POST; url := "/podcast/projects/{project_id}/start";
                     path := [("project_id", "projectId")];
                     formData := false; mediaType := None;
                     errors := validation_error |} |}.

Definition pausePodcastPipelinePodcastProjectsProjectIdPausePost : callable :=
  {| c_name := "pausePodcastPipelinePodcastProjectsProjectIdPausePost";
     c_request := {| method := POST; url := "/podcast/projects/{project_id}/pause";
                     path := [("project_id", "projectId")];
                     formData := false; mediaType := None;
                     errors := validation_error |} |}.

Definition getPodcastProgressPodcastProjectsProjectIdProgressGet : callable :=
  {| c_name := "getPodcastProgressPodcastProjectsProjectIdProgressGet";
     c_request := {| method := GET; url := "/podcast/projects/{project_id}/progress";
                     path := [("project_id", "projectId")];
                     formData := false; mediaType := None;
                     errors := validation_error |} |}.

Definition exportPodcastAudioPodcastProjectsProjectIdExportPost : callable :=
  {| c_name := "exportPodcastAudioPodcastProjectsProjectIdExportPost";
     c_request := {| method := POST; url := "/podcast/projects/{project_id}/export";
                     path := [("project_id", "projectId")];
                     formData := false; mediaType := None;
                     errors := validation_error |} |}.

(** The static methods of [class DefaultService], in source order. *)
Definition DefaultService : list callable :=
  [ rootGet; shutdownShutdownPost; healthHealthGet; getServerModeServerModeGet;
    listPodcastProjectsPodcastProjectsGet; createPodcastProjectPodcastProjectsPost;
    getPodcastProjectPodcastProjectsProjectIdGet;
    updatePodcastProjectPodcastProjectsProjectIdPut;
    deletePodcastProjectPodcastProjectsProjectIdDelete;
    updatePodcastSegmentPodcastProjectsProjectIdSegmentsSegmentIdPut;
    startPodcastPipelinePodcastProjectsProjectIdStartPost;
    pausePodcastPipelinePodcastProjectsProjectIdPausePost;
    getPodcastProgressPodcastProjectsProjectIdProgressGet;
    exportPodcastAudioPodcastProjectsProjectIdExportPost ].

Definition route_of (c : callable) : route :=
  Route (method (c_request c)) (url (c_request c)).

(** Modelled from the spec: the HTTP service itself (the route table of
    the backend) is not among the sources; this is the table of the
    specification's section on external interfaces, row by row. *)
Definition http_surface : list route :=
  [ Route GET "/";
    Route POST "/shutdown";
    Route GET "/health";
    Route GET "/server/mode";
    Route GET "/profiles";
    Route POST "/profiles";
    Route POST "/profiles/{id}/samples";
    Route POST "/profiles/{id}/generate";
    Route GET "/podcast/projects";
    Route POST "/podcast/projects";
    Route GET "/podcast/projects/{id}";
    Route PUT "/podcast/projects/{id}";
    Route DELETE "/podcast/projects/{id}";
    Route PUT "/podcast/projects/{id}/segments/{sid}";
    Route POST "/podcast/projects/{id}/start";
    Route POST "/podcast/projects/{id}/pause";
    Route GET "/podcast/projects/{id}/progress";
    Route POST "/podcast/projects/{id}/export" ].

(** Number of client callables bound to a route, and of routes a
    callable is bound to. *)
Definition callables_for (r : route) : nat :=
  length (filter (fun c => same_route (route_of c) r = true) DefaultService).

Definition routes_for (c : callable) : nat :=
  length (filter (fun r => same_route (route_of c) r = true) http_surface).

(** The voice-profile routes: those whose first path piece is [profiles]. *)
Definition profile_route (r : route) : bool :=
  match shape (r_path r) with
  | _ :: Lit "profiles" :: _ => true
  | _ => false
  end.

(** The client mirrors the surface: one callable per route, and every
    callable on a route. *)
Definition mirrors_one_to_one : Prop :=
  (∀ r, r ∈ http_surface → callables_for r = 1) ∧
  (∀ c, c ∈ DefaultService → routes_for c = 1).

End ApiClient.


(* ===================================================================== *)
(** * JavaScript values                                                    *)
(* ===================================================================== *)

(** What [JSON.parse] can return, plus [undefined].  Objects are finite
    maps from property names; numbers are the integers the counters of
    the progress payload take. *)
Module Js.

#[warnings="-register-all"]
Inductive value :=
| Undefined
| Null
| Bool (b : bool)
| Num (n : Z)
| Str (s : string)
| Arr (items : list value)
| Obj (fields : gmap string value).

Abbreviation object := (gmap string value).

(** [o.k] on an object: [undefined] when the property is absent. *)
Definition field (o : object) (k : string) : value :=
  default Undefined (o !! k).

(** [v.k] on any value.  [None] is the [TypeError] raised on [null] and
    [undefined]; the property names read by the hooks ([type], [data],
    [error] and the five progress fields) do not exist on booleans,
    numbers, strings and arrays, where the access gives [undefined]. *)
Definition get_prop (v : value) (k : string) : option value :=
  match v with
  | Undefined | Null => None
  | Obj o => Some (field o k)
  | Bool _ | Num _ | Str _ | Arr _ => Some Undefined
  end.

(** [v?.k] *)
Definition get_prop_opt (v : value) (k : string) : value :=
  default Undefined (get_prop v k).

(** ToBoolean *)
Definition truthy (v : value) : bool :=
  match v with
  | Undefined | Null => false
  | Bool b => b
  | Num n => negb (n =? 0)%Z
  | Str s => negb (String.eqb s "")
  | Arr _ | Obj _ => true
  end.

(** [a || b] *)
Definition or_else (a b : value) : value := if truthy a then a else b.

(** [v === 'lit'] against a string literal *)
Definition is_str (v : value) (lit : string) : bool :=
  match v with
  | Str s => String.eqb s lit
  | _ => false
  end.

End Js.

(* ===================================================================== *)
(** * [usePodcastProject]: the single-project hook with the progress stream *)
(* ===================================================================== *)

Module PodcastProjectHook.
Import Js Http.

(** The four [useState] cells of the hook.  The project is the object
    the server sent: the stream handler spreads it and overwrites five
    of its properties with properties of an untyped payload. *)
Record hook_state := {
  project : option object;
  loading : bool;
  error : option value;
  isGenerating : bool
}.

(** What a callback of the hook does, call by call. *)
Inductive action :=
| SetProject (p : object)
| SetLoading (b : bool)
| SetError (e : option value)
| SetIsGenerating (b : bool)
| Request (r : route)
| ConsoleError (label : string).

Record world := {
  hook : hook_state;
  sent : list route;          (* requests issued, oldest first *)
  console : list string
}.

Definition update_hook (f : hook_state → hook_state) (w : world) : world :=
  {| hook := f (hook w); sent := sent w; console := console w |}.

Definition perform (w : world) (a : action) : world :=
  match a with
  | SetProject p =>
      update_hook (fun s => {| project := Some p; loading := loading s;
                               error := error s; isGenerating := isGenerating s |}) w
  | SetLoading b =>
      update_hook (fun s => {| project := project s; loading := b;
                               error := error s; isGenerating := isGenerating s |}) w
  | SetError e =>
      update_hook (fun s => {| project := project s; loading := loading s;
                               error := e; isGenerating := isGenerating s |}) w
  | SetIsGenerating b =>
      update_hook (fun s => {| project := project s; loading := loading s;
                               error := error s; isGenerating := b |}) w
  | Request r => {| hook := hook w; sent := sent w ++ [r]; console := console w |}
  | ConsoleError l => {| hook := hook w; sent := sent w; console := console w ++ [l] |}
  end.

Definition run (acts : list action) (w : world) : world := fold_left perform acts w.

Definition project_url (projectId : string) : string :=
  "/podcast/projects/" ++ projectId.

(** [fetchProject()] up to its first [await]: the caller does not wait
    for the rest. *)
Definition fetchProject (projectId : string) : list action :=
  [SetLoading true; SetError None; Request (Route GET (project_url projectId))].

(** The rest of [fetchProject], once the GET has settled. *)
Definition fetchProject_settled (response : object + value) : list action :=
  match response with
  | inl data => [SetProject data; SetLoading false]
  | inr err => [SetError (Some err); SetLoading false]
  end.

(** The object literal of the [progress] branch:
    [{...project, pipeline_state: d.pipeline_state, ...}], for a truthy [d]. *)
Definition merge_progress (project : object) (d : value) : object :=
  <["total_segments" := get_prop_opt d "total_segments"]>
  (<["failed_count" := get_prop_opt d "failed_count"]>
  (<["completed_count" := get_prop_opt d "completed_count"]>
  (<["current_segment_index" := get_prop_opt d "current_segment_index"]>
  (<["pipeline_state" := get_prop_opt d "pipeline_state"]> project)))).

Definition progress_fields : list string :=
  ["pipeline_state"; "current_segment_index"; "completed_count";
   "failed_count"; "total_segments"].

Record MessageEvent := { data : string }.

Definition parse_failure : list action := [ConsoleError "Error parsing SSE event:"].

Section Handlers.
(** [JSON.parse]: [None] when it throws. *)
Variable JSON_parse : string → option value.

(** [eventSource.onmessage], with the [projectId] and [project] its
    closure captured. *)
Definition onmessage (projectId : string) (project : option object)
    (event : MessageEvent) : list action :=
  match JSON_parse (data event) with
  | None => parse_failure
  | Some msg =>
      match get_prop msg "type" with
      | None => parse_failure
      | Some ty =>
          if is_str ty "progress" then
            match project with
            | Some p =>
                if truthy (get_prop_opt msg "data")
                then [SetProject (merge_progress p (get_prop_opt msg "data"))]
                else []
            | None => []
            end
          else if is_str ty "segment_complete" || is_str ty "segment_failed" then
            fetchProject projectId
          else if is_str ty "complete" then
            SetIsGenerating false :: fetchProject projectId
          else if is_str ty "error" then
            SetIsGenerating false
            :: SetError (Some (or_else (get_prop_opt (get_prop_opt msg "data") "error")
                                       (Str "Pipeline error")))
            :: fetchProject projectId
          else []
      end
  end.

(** The hook receiving a message.  The handler that runs is the one the
    subscription effect installed: its closure holds the [project] of the
    render that effect belongs to ([captured]), which the state cell may
    have left behind since; what the handler sets goes to the state as it
    is now. *)
Definition receive (projectId : string) (captured : option object)
    (event : MessageEvent) (w : world) : world :=
  run (onmessage projectId captured event) w.

(** The type tag of a message, when it has one. *)
Definition kind_of (event : MessageEvent) : option string :=
  match JSON_parse (data event) with
  | Some msg =>
      match get_prop msg "type" with
      | Some (Str k) => Some k
      | _ => None
      end
  | None => None
  end.

Definition payload_of (event : MessageEvent) : value :=
  match JSON_parse (data event) with
  | Some msg => get_prop_opt msg "data"
  | None => Undefined
  end.
End Handlers.

(** The effect on [[project]]: [isGenerating] follows the pipeline state
    of the loaded project. *)
Definition follow_pipeline_state (st : hook_state) : hook_state :=
  match project st with
  | Some p =>
      {| project := project st; loading := loading st; error := error st;
         isGenerating := is_str (field p "pipeline_state") "generating" |}
  | None => st
  end.

Definition is_request (a : action) : bool :=
  match a with Request _ => true | _ => false end.

Definition refetches (projectId : string) (acts : list action) : Prop :=
  Request (Route GET (project_url projectId)) ∈ acts.

(** ** [exportAudio] *)

Record Blob := { blob_type : string; blob_bytes : list Z }.

Record anchor := { href : string; download : string }.

Inductive browser_call :=
| Post (url : string)
| CreateObjectURL (b : Blob) (url : string)
| Click (link : anchor)
| RevokeObjectURL (url : string).

Definition export_url (projectId : string) : string :=
  "/podcast/projects/" ++ projectId ++ "/export".

Definition download_name (projectId : string) : string :=
  "podcast-" ++ projectId ++ ".wav".

Section ExportAudio.
(** [window.URL.createObjectURL]: the address the browser hands out. *)
Variable createObjectURL : Blob → string.

(** [exportAudio] for a settled POST: [inl] is the blob of the
    response, [inr] the rejection, which the function lets escape.
    It returns the browser calls made and the value returned. *)
Definition exportAudio (projectId : string) (response : Blob + value)
    : list browser_call * (Blob + value) :=
  match response with
  | inr err => ([Post (export_url projectId)], inr err)
  | inl blob =>
      let url := createObjectURL blob in
      let link := {| href := url; download := download_name projectId |} in
      ([Post (export_url projectId); CreateObjectURL blob url; Click link;
        RevokeObjectURL url], inl blob)
  end.
End ExportAudio.

(** The browser's side: object URLs alive, files written.  Clicking an
    anchor that carries a [download] attribute and points at a live
    object URL writes that blob under the attribute's name. *)
Record browser := { urls : list (string * Blob); files : list (string * Blob) }.

Definition find_url (u : string) (l : list (string * Blob)) : option Blob :=
  snd <$> find (fun e => String.eqb (fst e) u) l.

Definition browse (b : browser) (c : browser_call) : browser :=
  match c with
  | Post _ => b
  | CreateObjectURL blob u => {| urls := (u, blob) :: urls b; files := files b |}
  | Click link =>
      match find_url (href link) (urls b) with
      | Some blob => {| urls := urls b; files := files b ++ [(download link, blob)] |}
      | None => b
      end
  | RevokeObjectURL u =>
      {| urls := filter (fun e => fst e ≠ u) (urls b); files := files b |}
  end.

Definition browse_all (cs : list browser_call) (b : browser) : browser :=
  fold_left browse cs b.

(** ** The progress-stream subscription *)

Record EventSource := { es_url : string; es_open : bool }.

Definition progress_url (projectId : string) : string :=
  "/podcast/projects/" ++ projectId ++ "/progress".

(** One mounted instance of the hook, as far as the subscription effect
    is concerned.  [sources] holds every [EventSource] constructed so
    far, addressed by position; [cleanup] is the clean-up function the
    last run of the effect returned, which captured that run's
    [eventSource]. *)
Record component := {
  mounted : bool;
  projectId : string;
  eventSourceRef : option nat;
  cleanup : option nat;
  sources : list EventSource
}.

Definition close (h : nat) (l : list EventSource) : list EventSource :=
  alter (fun s => {| es_url := es_url s; es_open := false |}) h l.

(** The body of the subscription effect. *)
Definition subscribe (pid : string) (c : component) : component :=
  if String.eqb pid "" then
    {| mounted := mounted c; projectId := pid; eventSourceRef := eventSourceRef c;
       cleanup := None; sources := sources c |}
  else
    let srcs := match eventSourceRef c with
                | Some h => close h (sources c)
                | None => sources c
                end in
    let h := length srcs in
    {| mounted := mounted c; projectId := pid; eventSourceRef := Some h;
       cleanup := Some h;
       sources := srcs ++ [{| es_url := progress_url pid; es_open := true |}] |}.

(** The clean-up function of the effect, when the last run returned one. *)
Definition run_cleanup (c : component) : component :=
  match cleanup c with
  | Some h =>
      {| mounted := mounted c; projectId := projectId c; eventSourceRef := None;
         cleanup := None; sources := close h (sources c) |}
  | None => c
  end.

Inductive lifecycle :=
| Mount (pid : string)
| Render (pid : string) (project_changed : bool)
| StreamError (h : nat)
| Unmount.

Definition unmounted : component :=
  {| mounted := false; projectId := ""; eventSourceRef := None; cleanup := None;
     sources := [] |}.

(** React runs the effect after the first render, and again (after the
    previous clean-up) after every render in which one of
    [projectId, project, fetchProject] changed; [fetchProject] changes
    exactly when [projectId] does.  On unmount it runs the clean-up.
    [onerror] closes the source it belongs to. *)
Definition step (c : component) (e : lifecycle) : component :=
  match e with
  | Mount pid =>
      if mounted c then c
      else subscribe pid {| mounted := true; projectId := pid;
                            eventSourceRef := eventSourceRef c;
                            cleanup := cleanup c; sources := sources c |}
  | Render pid project_changed =>
      if mounted c then
        if negb (String.eqb pid (projectId c)) || project_changed
        then subscribe pid (run_cleanup c)
        else c
      else c
  | StreamError h =>
      {| mounted := mounted c; projectId := projectId c;
         eventSourceRef := eventSourceRef c; cleanup := cleanup c;
         sources := close h (sources c) |}
  | Unmount =>
      if mounted c then
        let c' := run_cleanup c in
        {| mounted := false; projectId := projectId c';
           eventSourceRef := eventSourceRef c'; cleanup := cleanup c';
           sources := sources c' |}
      else c
  end.

Definition lifetime (es : list lifecycle) : component := fold_left step es unmounted.

(** Streams currently open, by handle. *)
Definition open_handles (c : component) : list nat :=
  filter (fun h => es_open <$> sources c !! h = Some true) (seq 0 (length (sources c))).

Definition open_count (c : component) : nat := length (open_handles c).

End PodcastProjectHook.

(* ===================================================================== *)
(** * [usePodcasts], [PodcastList] and [PodcastEditor]                     *)
(* ===================================================================== *)

Module PodcastsUi.
Import Http.

(** Modelled from the spec: the [PodcastProject] interface of
    [lib/api/types] is not among the sources.  The record has the
    properties the list and the editor read, typed as the data model of
    the specification gives them. *)
Record PodcastProject := {
  id : string;
  name : string;
  description : option string;
  script_content : string;
  pipeline_state : string;
  total_segments : Z;
  completed_count : Z;
  updated_at : string
}.

Definition project_url (projectId : string) : string :=
  "/podcast/projects/" ++ projectId.

(** State of [usePodcasts] and of the [PodcastList] that calls it, the
    requests sent so far, and whether the click event was stopped. *)
Record world := {
  projects : list PodcastProject;
  loading : bool;
  error : option Js.value;
  deletingId : option string;
  sent : list route;
  propagation_stopped : bool
}.

Definition setProjects (f : list PodcastProject → list PodcastProject) (w : world) : world :=
  {| projects := f (projects w); loading := loading w; error := error w;
     deletingId := deletingId w; sent := sent w;
     propagation_stopped := propagation_stopped w |}.

Definition setLoading (b : bool) (w : world) : world :=
  {| projects := projects w; loading := b; error := error w;
     deletingId := deletingId w; sent := sent w;
     propagation_stopped := propagation_stopped w |}.

Definition setError (e : option Js.value) (w : world) : world :=
  {| projects := projects w; loading := loading w; error := e;
     deletingId := deletingId w; sent := sent w;
     propagation_stopped := propagation_stopped w |}.

Definition setDeletingId (d : option string) (w : world) : world :=
  {| projects := projects w; loading := loading w; error := error w;
     deletingId := d; sent := sent w;
     propagation_stopped := propagation_stopped w |}.

Definition send (r : route) (w : world) : world :=
  {| projects := projects w; loading := loading w; error := error w;
     deletingId := deletingId w; sent := sent w ++ [r];
     propagation_stopped := propagation_stopped w |}.

Definition stopPropagation (w : world) : world :=
  {| projects := projects w; loading := loading w; error := error w;
     deletingId := deletingId w; sent := sent w;
     propagation_stopped := true |}.

(** A callback returns the new world and the error it throws, if any. *)
Definition callback := world → world * option Js.value.

(** [deleteProject] of [lib/hooks/usePodcasts.ts]; [delete_response] is
    the rejection of the DELETE, [None] when it resolves. *)
Definition deleteProject (delete_response : option Js.value) (projectId : string)
    : callback := fun w =>
  let w1 := send (Route DELETE (project_url projectId)) w in
  match delete_response with
  | Some err => (w1, Some err)
  | None => (setProjects (filter (fun p => id p ≠ projectId)) w1, None)
  end.

(** [fetchProjects]: it catches the rejection of its GET. *)
Definition fetchProjects (get_response : list PodcastProject + Js.value) (w : world)
    : world :=
  let w1 := send (Route GET "/podcast/projects") (setError None (setLoading true w)) in
  let w2 := match get_response with
            | inl ps => setProjects (fun _ => ps) w1
            | inr err => setError (Some err) w1
            end in
  setLoading false w2.

(** [deleteProject] of the hooks file with the progress stream: it
    reloads the list instead of filtering it. *)
Definition deleteProject_refetch (delete_response : option Js.value)
    (get_response : list PodcastProject + Js.value) (projectId : string)
    : callback := fun w =>
  let w1 := send (Route DELETE (project_url projectId)) w in
  match delete_response with
  | Some err => (w1, Some err)
  | None => (fetchProjects get_response w1, None)
  end.

Section List.
(** The [deleteProject] the hook hands to the component. *)
Variable hook_deleteProject : string → callback.

(** [handleDelete]; [confirmed] is what [confirm(..)] returns. *)
Definition handleDelete (confirmed : bool) (projectId : string) : callback := fun w =>
  let w0 := stopPropagation w in
  if negb confirmed then (w0, None)
  else
    let w1 := setDeletingId (Some projectId) w0 in
    let '(w2, thrown) := hook_deleteProject projectId w1 in
    (setDeletingId None w2, thrown).
End List.

Definition getStatusColor (status : string) : string :=
  if String.eqb status "idle" then "text-muted-foreground"
  else if String.eqb status "generating" then "text-blue-500"
  else if String.eqb status "paused" then "text-yellow-500"
  else if String.eqb status "completed" then "text-green-500"
  else if String.eqb status "error" then "text-red-500"
  else "text-muted-foreground".

Definition getStatusBadge (status : string) : string :=
  if String.eqb status "idle" then "bg-muted text-muted-foreground"
  else if String.eqb status "generating" then
    "bg-blue-500/10 text-blue-500 border-blue-500/20"
  else if String.eqb status "paused" then
    "bg-yellow-500/10 text-yellow-500 border-yellow-500/20"
  else if String.eqb status "completed" then
    "bg-green-500/10 text-green-500 border-green-500/20"
  else if String.eqb status "error" then
    "bg-red-500/10 text-red-500 border-red-500/20"
  else "bg-muted text-muted-foreground".

(** What one entry of the list shows. *)
Record row := {
  row_key : string;
  row_dimmed : bool;
  row_name : string;
  row_description : option string;
  row_delete_disabled : bool;
  row_badge_class : string;
  row_badge_text : string;
  row_counter : option (Z * Z);       (* completed / total *)
  row_timestamp : string
}.

Inductive body := Spinner | NoPodcasts | Rows (rows : list row).

Inductive view :=
| FailedToLoad
| ListView (header_count : nat) (content : body).

Section Render.
(** [formatDistanceToNow(new Date(s), { addSuffix: true })] of date-fns. *)
Variable formatDistanceToNow : string → string.

Definition is_deleting (deleting : option string) (p : PodcastProject) : bool :=
  match deleting with
  | Some d => String.eqb d (id p)
  | None => false
  end.

Definition render_row (deleting : option string) (p : PodcastProject) : row :=
  {| row_key := id p;
     row_dimmed := is_deleting deleting p;
     row_name := name p;
     row_description :=
       match description p with
       | Some d => if String.eqb d "" then None else Some d
       | None => None
       end;
     row_delete_disabled := is_deleting deleting p;
     row_badge_class := getStatusBadge (pipeline_state p);
     row_badge_text := pipeline_state p;
     row_counter :=
       if negb (String.eqb (pipeline_state p) "idle") && (0 <? total_segments p)%Z
       then Some (completed_count p, total_segments p)
       else None;
     row_timestamp := formatDistanceToNow (updated_at p) |}.

(** The JSX [PodcastList] returns. *)
Definition PodcastList (w : world) : view :=
  match error w with
  | Some _ => FailedToLoad
  | None =>
      ListView (length (projects w))
        (if loading w then Spinner
         else match projects w with
              | [] => NoPodcasts
              | ps => Rows (render_row (deletingId w) <$> ps)
              end)
  end.

Definition rendered_rows (w : world) : list row :=
  match PodcastList w with
  | ListView _ (Rows rs) => rs
  | _ => []
  end.
End Render.

(** ** [PodcastEditor] *)

(** A request with the script it carries, if any. *)
Record request := { rq_method : method; rq_url : string; rq_script : option string }.

Record editor := {
  selectedProjectId : option string;
  project : option PodcastProject;       (* from [usePodcastProject] *)
  scriptContent : string;
  isEditing : bool;
  saving : bool;
  outbox : list request                 (* requests sent, oldest first *)
}.

Definition setScriptContent (s : string) (e : editor) : editor :=
  {| selectedProjectId := selectedProjectId e; project := project e;
     scriptContent := s; isEditing := isEditing e; saving := saving e;
     outbox := outbox e |}.

Definition setIsEditing (b : bool) (e : editor) : editor :=
  {| selectedProjectId := selectedProjectId e; project := project e;
     scriptContent := scriptContent e; isEditing := b; saving := saving e;
     outbox := outbox e |}.

Definition setSaving (b : bool) (e : editor) : editor :=
  {| selectedProjectId := selectedProjectId e; project := project e;
     scriptContent := scriptContent e; isEditing := isEditing e; saving := b;
     outbox := outbox e |}.

(** [!selectedProjectId]: [null] and the empty string are falsy. *)
Definition selected (e : editor) : bool :=
  match selectedProjectId e with
  | Some s => negb (String.eqb s "")
  | None => false
  end.

(** The text area's [onChange]. *)
Definition onChange (text : string) (e : editor) : editor :=
  setIsEditing true (setScriptContent text e).

(** [handleSaveScript]: the body of its [try] holds a TODO and
    [setIsEditing(false)]. *)
Definition handleSaveScript (e : editor) : editor :=
  if negb (selected e) || negb (bool_decide (is_Some (project e))) then e
  else setSaving false (setIsEditing false (setSaving true e)).

(** The effect that loads the script of the selected project. *)
Definition load_script_effect (e : editor) : editor :=
  match project e with
  | Some p => if isEditing e then e else setScriptContent (script_content p) e
  | None => e
  end.

(** Modelled from the spec: the update endpoint of the HTTP service is
    not among the sources.  [PUT /podcast/projects/{id}] with a script
    replaces the stored script of that project; nothing else changes a
    stored script. *)
Definition deliver (store : gmap string string) (r : request) : gmap string string :=
  match rq_method r, rq_script r with
  | PUT, Some s =>
      match shape (rq_url r) with
      | [Lit ""; Lit "podcast"; Lit "projects"; Lit pid] =>
          if bool_decide (is_Some (store !! pid)) then <[pid := s]> store else store
      | _ => store
      end
  | _, _ => store
  end.

Definition deliver_all (rs : list request) (store : gmap string string)
    : gmap string string := fold_left deliver rs store.

End PodcastsUi.

(* ===================================================================== *)
(** * [setup_linux.sh]                                                     *)
(* ===================================================================== *)

Module Setup.

(** ** A shell with [set -e] *)

Record shell := {
  out : list string;      (* lines written to standard output *)
  last_status : nat;            (* [$?] *)
  errexit : bool;         (* [set -e] in force *)
  SKIP_VENV : string
}.

Inductive result (A : Type) :=
| Continue (a : A) (s : shell)
| Exit (code : nat) (written : list string).
Arguments Continue {A} a s.
Arguments Exit {A} code written.

Definition sh (A : Type) : Type := shell → result A.

#[global] Instance sh_ret : MRet sh := fun A a s => Continue a s.

#[global] Instance sh_bind : MBind sh := fun A B f m s =>
  match m s with
  | Continue a s' => f a s'
  | Exit code written => Exit code written
  end.

(** A simple command that writes [lines] and returns [code]: with
    [set -e] a non-zero status ends the script there, with that status. *)
Definition command (lines : list string) (code : nat) : sh unit := fun s =>
  let s' := {| out := out s ++ lines; last_status := code; errexit := errexit s;
               SKIP_VENV := SKIP_VENV s |} in
  if errexit s && negb (Nat.eqb code 0) then Exit code (out s') else Continue () s'.

Definition echo (line : string) : sh unit := command [line] 0.

Definition exit (code : nat) : sh unit := fun s => Exit code (out s).

Definition set_e : sh unit := fun s =>
  Continue () {| out := out s; last_status := 0; errexit := true; SKIP_VENV := SKIP_VENV s |}.

Definition assign_SKIP_VENV (v : string) : sh unit := fun s =>
  Continue () {| out := out s; last_status := 0; errexit := errexit s; SKIP_VENV := v |}.

(** [if [ $? -ne 0 ]; then body; fi]: a test in the condition of an
    [if] never triggers [set -e]. *)
Definition if_failed (body : sh unit) : sh unit := fun s =>
  if negb (Nat.eqb (last_status s) 0) then body s
  else Continue () {| out := out s; last_status := 0; errexit := errexit s;
                      SKIP_VENV := SKIP_VENV s |}.

Definition when (b : bool) (body : sh unit) : sh unit :=
  if b then body else mret ().

Definition echo_all (lines : list string) : sh unit := command lines 0.

(** ** The inline Python programs *)

(** Python's [repr] of a list of plain strings. *)
Fixpoint py_items (l : list string) : string :=
  match l with
  | [] => ""
  | [x] => "'" ++ x ++ "'"
  | x :: rest => "'" ++ x ++ "', " ++ py_items rest
  end.

Definition py_list (l : list string) : string := "[" ++ py_items l ++ "]".

Fixpoint contains (needle hay : string) : bool :=
  String.prefix needle hay ||
  match hay with
  | String _ rest => contains needle rest
  | EmptyString => false
  end.

Inductive cuda_outcome :=
| CudaCrash                                        (* the program raises *)
| CudaAbsent
| CudaPresent (device total allocated : string).   (* as the f-strings print them *)

Definition cuda_program (c : cuda_outcome) : list string * nat :=
  match c with
  | CudaCrash => ([], 1)
  | CudaAbsent => (["⚠ CUDA not available - will use CPU"], 0)
  | CudaPresent device total allocated =>
      (["✓ CUDA available: " ++ device;
        "  Total GPU memory: " ++ total ++ " GB";
        "  Current allocated: " ++ allocated ++ " GB"], 0)
  end.

(** One [try: import ..; except ImportError] block: the lines printed and
    the name appended to [failed_imports]. *)
Definition try_import (import_error : string → option string)
    (module : string) (ok_lines : list string) (label : string)
    : list string * list string :=
  match import_error module with
  | None => (ok_lines, [])
  | Some e => (["❌ " ++ label ++ ": " ++ e], [label])
  end.

Definition import_blocks : list (string * list string * string) :=
  [ ("fastapi", ["✓ FastAPI"], "FastAPI");
    ("sqlalchemy", ["✓ SQLAlchemy"], "SQLAlchemy");
    ("yaml", ["✓ PyYAML"], "PyYAML");
    ("torch", ["✓ PyTorch"], "PyTorch");
    ("librosa", ["✓ Librosa"], "Librosa");
    ("soundfile", ["✓ SoundFile"], "SoundFile");
    ("backend",
     ["✓ database module"; "✓ models module"; "✓ podcast module"; "✓ config module"],
     "Backend modules") ].

Definition imports_program (import_error : string → option string) : list string * nat :=
  let results := (fun b => try_import import_error b.1.1 b.1.2 b.2) <$> import_blocks in
  let printed := concat (fst <$> results) in
  let failed_imports := concat (snd <$> results) in
  match failed_imports with
  | [] => ((printed ++ [""; "✓ All imports verified"; ""])%list, 0)
  | _ => ((printed ++ [""; ("❌ " ++ pretty (length failed_imports) ++ " import(s) failed")%string])%list, 1)
  end.

Inductive db_outcome :=
| DbImportError                      (* [from backend import database] raises *)
| DbException (e : string)           (* raised by [init_db], [get_db] or the inspection *)
| DbTables (tables : list string) (close_error : option string).

Definition required_tables : list string := ["podcast_projects"; "podcast_segments"].

Definition missing_tables (tables : list string) : list string :=
  filter (fun t => t ∉ tables) required_tables.

Definition database_program (d : db_outcome) : list string * nat :=
  match d with
  | DbImportError => ([], 1)
  | DbException e => (["❌ Database check failed: " ++ e], 1)
  | DbTables tables close_error =>
      match missing_tables tables with
      | [] =>
          let verified :=
            ["✓ Database tables verified";
             "  Podcast tables: " ++
               py_list (filter (fun t => contains "podcast" t = true) tables)] in
          match close_error with
          | None => (verified, 0)
          | Some e => ((verified ++ [("❌ Database check failed: " ++ e)%string])%list, 1)
          end
      | missing => (["❌ Missing database tables: " ++ py_list missing], 1)
      end
  end.

Record directory := {
  dir_path : string;
  dir_exists : bool;
  mkdir_error : option string      (* what [path.mkdir] raises, if anything *)
}.

Inductive dirs_outcome :=
| DirsCrash                                        (* import or accessor raises *)
| Dirs (profiles generations cache sfx music : directory).

Definition check_directory (name : string) (d : directory) : list string :=
  if dir_exists d then ["✓ " ++ name ++ ": " ++ dir_path d]
  else
    ("❌ " ++ name ++ ": " ++ dir_path d ++ " (will be created on first use)")
    :: match mkdir_error d with
       | None => ["  Created: " ++ dir_path d]
       | Some e => ["Failed to create " ++ dir_path d ++ ": " ++ e]
       end.

Definition directories_program (d : dirs_outcome) : list string * nat :=
  match d with
  | DirsCrash => ([], 1)
  | Dirs profiles generations cache sfx music =>
      ((check_directory "Profiles" profiles ++ check_directory "Generations" generations
        ++ check_directory "Cache" cache ++ check_directory "SFX" sfx
        ++ check_directory "Music" music)%list, 0)
  end.

(** ** The machine the script runs on *)

Record env := {
  python3_version : nat;             (* status of [python3 --version] *)
  SKIP_VENV_inherited : string;
  venv_dir_exists : bool;
  read_status : nat;
  REPLY : string;
  rm_status : nat;
  source_status : nat;               (* [source voicebox_env/bin/activate] *)
  venv_status : nat;                 (* [python3 -m venv] *)
  pip_upgrade : nat;
  pip_install : nat;                 (* [pip install -r requirements.txt] *)
  cuda : cuda_outcome;
  import_error : string → option string;
  database : db_outcome;
  directories : dirs_outcome
}.

Definition python3 (program : list string * nat) : sh unit :=
  command program.1 program.2.

Definition banner (title : string) : sh unit :=
  echo_all ["==========================================="; title;
            "==========================================="; ""].

Definition next_steps : list string :=
  ["Next steps:"; "  1. Activate virtual environment:";
   "     source voicebox_env/bin/activate"; "";
   "  2. Start server:"; "     python3 main.py"; "";
   "  3. Test endpoints:"; "     curl http://localhost:17493/health";
   "     curl http://localhost:17493/podcast/projects"; "";
   "  To deactivate virtual environment:"; "     deactivate"; ""].

(** The script, command by command.  Only what the script itself and its
    inline programs print is recorded, not the output of [pip] and the
    like. *)
Definition script (e : env) : sh unit :=
  set_e ;;
  banner "  Voicebox Backend Setup" ;;
  echo "Checking Python version..." ;;
  command [] (python3_version e) ;;
  if_failed (echo "❌ Python 3 not found. Please install Python 3.11+" ;; exit 1) ;;
  echo "✓ Python 3 installed" ;; echo "" ;;
  when (venv_dir_exists e)
    (echo "ℹ  Virtual environment already exists at voicebox_env" ;;
     command [] (read_status e) ;;
     if String.eqb (REPLY e) "y" || String.eqb (REPLY e) "Y"
     then echo "Removing old venv..." ;; command [] (rm_status e)
     else echo "Using existing venv" ;; command [] (source_status e) ;;
          assign_SKIP_VENV "1") ;;
  (fun s =>
     when (String.eqb (SKIP_VENV s) "")
       (echo "Creating virtual environment at voicebox_env..." ;;
        command [] (venv_status e) ;;
        if_failed (echo "❌ Failed to create virtual environment" ;; exit 1) ;;
        echo "✓ Virtual environment created" ;; echo "" ;;
        echo "Activating virtual environment..." ;;
        command [] (source_status e) ;;
        if_failed (echo "❌ Failed to activate virtual environment" ;; exit 1) ;;
        echo "✓ Virtual environment activated" ;; echo "") s) ;;
  echo "Upgrading pip..." ;;
  command [] (pip_upgrade e) ;;
  echo "✓ pip upgraded" ;; echo "" ;;
  echo "Installing Python dependencies..." ;;
  command [] (pip_install e) ;;
  if_failed (echo "❌ Failed to install dependencies" ;;
             echo "Please check requirements.txt and try again" ;; exit 1) ;;
  echo "✓ All dependencies installed" ;; echo "" ;;
  echo "Checking CUDA (Nvidia GPU) availability..." ;;
  python3 (cuda_program (cuda e)) ;;
  if_failed (echo "❌ CUDA check failed") ;;
  echo "" ;;
  echo "Verifying core imports..." ;;
  python3 (imports_program (import_error e)) ;;
  if_failed (echo "❌ Import verification failed" ;; exit 1) ;;
  echo "" ;; echo "Checking database initialization..." ;;
  python3 (database_program (database e)) ;;
  if_failed (echo "❌ Database check failed" ;; exit 1) ;;
  echo "" ;; echo "Checking data directories..." ;;
  python3 (directories_program (directories e)) ;;
  echo "" ;;
  banner "  Setup Complete!" ;;
  echo_all next_steps.

Definition initial (e : env) : shell :=
  {| out := []; last_status := 0; errexit := false; SKIP_VENV := SKIP_VENV_inherited e |}.

(** Running the script: what it wrote and its exit status. *)
Definition setup_linux (e : env) : list string * nat :=
  match script e (initial e) with
  | Continue _ s => (out s, last_status s)
  | Exit code written => (written, code)
  end.

Definition output (e : env) : list string := (setup_linux e).1.
Definition exit_status (e : env) : nat := (setup_linux e).2.

End Setup.

(* ===================================================================== *)
(** * Script parsing, the pipeline run and story retrieval                 *)
(* ===================================================================== *)

(** Modelled from the spec: the script parser, the pipeline orchestrator
    and the story retrieval ([backend/podcast.py],
    [backend/utils/podcast_audio.py]) are not among the sources.  The
    definitions follow the sections of the specification on the script
    parser, the orchestrator and the data model. *)
Module Backend.

Inductive marker_type := text | sound_effect | music_cue.

#[global] Instance marker_type_eq_dec : EqDecision marker_type.
Proof. solve_decision. Defined.

Inductive segment_status := pending | generating | completed | failed.

#[global] Instance segment_status_eq_dec : EqDecision segment_status.
Proof. solve_decision. Defined.

Record PodcastSegment := {
  segment_order : nat;
  speaker : string;
  seg_text : string;               (* empty for markers *)
  seg_marker_type : marker_type;
  marker_value : option string;
  status : segment_status;
  seg_generation : option nat
}.

(** ** Body lines *)

Definition is_space (c : ascii) : bool :=
  Ascii.eqb c " "%char || Ascii.eqb c "009"%char || Ascii.eqb c "013"%char.

Fixpoint ltrim (s : string) : string :=
  match s with
  | String c rest => if is_space c then ltrim rest else s
  | EmptyString => EmptyString
  end.

Fixpoint rtrim (s : string) : string :=
  match s with
  | String c rest =>
      match rtrim rest with
      | EmptyString => if is_space c then EmptyString else String c EmptyString
      | r => String c r
      end
  | EmptyString => EmptyString
  end.

Definition trim (s : string) : string := rtrim (ltrim s).

(** Characters of a speaker id: letters, digits, [_] and [-]. *)
Definition is_id_char (c : ascii) : bool :=
  let n := nat_of_ascii c in
  (Nat.leb 48 n && Nat.leb n 57) || (Nat.leb 65 n && Nat.leb n 90)
  || (Nat.leb 97 n && Nat.leb n 122) || Nat.eqb n 95 || Nat.eqb n 45.

(** Splits [id: rest] at the first colon, when a non-empty id precedes it. *)
Fixpoint split_speaker (s : string) : option (string * string) :=
  match s with
  | String c rest =>
      if Ascii.eqb c ":"%char then None
      else if is_id_char c then
        match rest with
        | String d rest' =>
            if Ascii.eqb d ":"%char then Some (String c EmptyString, rest')
            else match split_speaker rest with
                 | Some (i, t) => Some (String c i, t)
                 | None => None
                 end
        | EmptyString => None
        end
      else None
  | EmptyString => None
  end.

Fixpoint strip_prefix (p s : string) : option string :=
  match p, s with
  | EmptyString, _ => Some s
  | String a p', String b s' => if Ascii.eqb a b then strip_prefix p' s' else None
  | String _ _, EmptyString => None
  end.

(** The inside of [[tag: name]], when the line has that form. *)
Definition bracketed (tag : string) (line : string) : option string :=
  match strip_prefix ("[" ++ tag ++ ":") line with
  | Some rest =>
      match Http.last_char rest with
      | Some c =>
          if Ascii.eqb c "]"%char
          then Some (trim (String.substring 0 (String.length rest - 1) rest))
          else None
      | None => None
      end
  | None => None
  end.

Inductive line_kind :=
| Ignored                                         (* blank, header, anything else *)
| TextLine (speaker text : string)
| MarkerLine (kind : marker_type) (name : string).

(** Modelled from the spec: the body rules of the script parser, which is
    not among the sources.  Blank lines and [##] headers produce nothing,
    a [[sound_effect: name]] or [[music_cue: name]] line is a marker, a
    [speaker_id: text] line is a text segment; the specification names no
    other kind of line, and any other line produces nothing here. *)
Definition classify (raw : string) : line_kind :=
  let line := trim raw in
  if String.eqb line "" then Ignored
  else if String.prefix "##" line then Ignored
  else match bracketed "sound_effect" line with
       | Some name => MarkerLine sound_effect name
       | None =>
           match bracketed "music_cue" line with
           | Some name => MarkerLine music_cue name
           | None =>
               match split_speaker line with
               | Some (who, what) => TextLine who (trim what)
               | None => Ignored
               end
           end
       end.

(** The lines after the frontmatter block, which [---] lines delimit. *)
Fixpoint after_delimiter (lines : list string) : list string :=
  match lines with
  | [] => []
  | l :: rest => if String.eqb (trim l) "---" then rest else after_delimiter rest
  end.

Definition body_of (lines : list string) : list string :=
  match lines with
  | l :: rest => if String.eqb (trim l) "---" then after_delimiter rest else lines
  | [] => []
  end.

Definition segment_of (order : nat) (k : line_kind) : option PodcastSegment :=
  match k with
  | Ignored => None
  | TextLine who what =>
      Some {| segment_order := order; speaker := who; seg_text := what;
              seg_marker_type := text; marker_value := None;
              status := pending; seg_generation := None |}
  | MarkerLine kind name =>
      Some {| segment_order := order; speaker := ""; seg_text := "";
              seg_marker_type := kind; marker_value := Some name;
              status := pending; seg_generation := None |}
  end.

(** Segments of the body lines, numbered from [next] in document order. *)
Fixpoint parse_body (next : nat) (lines : list string) : list PodcastSegment :=
  match lines with
  | [] => []
  | l :: rest =>
      match segment_of next (classify l) with
      | Some seg => seg :: parse_body (S next) rest
      | None => parse_body next rest
      end
  end.

(** Modelled from the spec: the parser's ordered segment list for a script
    (frontmatter block, then body). *)
Definition parse_script (lines : list string) : list PodcastSegment :=
  parse_body 0 (body_of lines).

(** ** Scripts as they are written *)

(** Modelled from the spec: the script file format.  The body of a script
    is made of lines [speaker_id: text], [[sound_effect: name]] and
    [[music_cue: name]], of [##] headers and of blank lines. *)
Inductive body_line :=
| Dialogue (speaker_id text : string)
| SoundEffect (name : string)
| MusicCue (name : string)
| Header (title : string)
| Blank.

Definition write_line (l : body_line) : string :=
  match l with
  | Dialogue who what => who ++ ": " ++ what
  | SoundEffect name => "[sound_effect: " ++ name ++ "]"
  | MusicCue name => "[music_cue: " ++ name ++ "]"
  | Header title => "## " ++ title
  | Blank => ""
  end.

(** Modelled from the spec: a script file, the frontmatter block between
    its two [---] lines and then the body. *)
Definition write_script (frontmatter : list string) (body : list body_line) : list string :=
  ("---" :: frontmatter ++ "---" :: (write_line <$> body))%list.

Definition is_dialogue (l : body_line) : bool :=
  match l with Dialogue _ _ => true | _ => false end.

Definition is_cue (l : body_line) : bool :=
  match l with SoundEffect _ | MusicCue _ => true | _ => false end.

(** The N and M of a script: its dialogue lines and its marker lines, as
    written, whatever a parser makes of them. *)
Definition text_count (body : list body_line) : nat :=
  length (filter (fun l => is_dialogue l = true) body).

Definition marker_count (body : list body_line) : nat :=
  length (filter (fun l => is_cue l = true) body).

Fixpoint all_id_chars (s : string) : bool :=
  match s with
  | EmptyString => true
  | String c rest => is_id_char c && all_id_chars rest
  end.

Definition valid_speaker_id (s : string) : bool :=
  negb (String.eqb s "") && all_id_chars s.

Definition valid_line (l : body_line) : Prop :=
  match l with
  | Dialogue who _ => valid_speaker_id who = true
  | _ => True
  end.

(** The segment a line of the script stands for: the text and the marker
    name without the blanks around them. *)
Definition segment_for (order : nat) (l : body_line) : option PodcastSegment :=
  match l with
  | Dialogue who what =>
      Some {| segment_order := order; speaker := who; seg_text := trim what;
              seg_marker_type := text; marker_value := None;
              status := pending; seg_generation := None |}
  | SoundEffect name =>
      Some {| segment_order := order; speaker := ""; seg_text := "";
              seg_marker_type := sound_effect; marker_value := Some (trim name);
              status := pending; seg_generation := None |}
  | MusicCue name =>
      Some {| segment_order := order; speaker := ""; seg_text := "";
              seg_marker_type := music_cue; marker_value := Some (trim name);
              status := pending; seg_generation := None |}
  | Header _ | Blank => None
  end.

(** The segments of a body, in document order, numbered from [next]. *)
Fixpoint expected_segments (next : nat) (body : list body_line) : list PodcastSegment :=
  match body with
  | [] => []
  | l :: rest =>
      match segment_for next l with
      | Some seg => seg :: expected_segments (S next) rest
      | None => expected_segments next rest
      end
  end.

Definition cue_of (l : body_line) : option (marker_type * string) :=
  match l with
  | SoundEffect name => Some (sound_effect, trim name)
  | MusicCue name => Some (music_cue, trim name)
  | _ => None
  end.

(** The markers of a body, in document order. *)
Definition cues (body : list body_line) : list (marker_type * string) := omap cue_of body.

(** ** The run *)

Record Generation := { gen_id : nat; gen_text : string; audio_path : string }.

Record StoryItem := {
  item_position : nat;
  item_generation : option nat;                  (* null for markers *)
  item_marker : option (marker_type * string)
}.

Inductive pipeline_state :=
| pipeline_idle | pipeline_generating | pipeline_paused | pipeline_completed
| pipeline_error.

#[global] Instance pipeline_state_eq_dec : EqDecision pipeline_state.
Proof. solve_decision. Defined.

Record project := {
  state : pipeline_state;
  segments : list PodcastSegment;
  generations : list Generation;
  story : list StoryItem;
  completed_count : nat;
  failed_count : nat;
  current_segment_index : nat
}.

Definition max_attempts : nat := 3.

Section Run.
(** The synthesis backend: the audio file written for a segment on a
    given attempt, [None] when the attempt fails. *)
Variable synthesize : PodcastSegment → nat → option string.

(** Attempts [from], [from+1], ... until one succeeds, [fuel] at most. *)
Fixpoint attempts (seg : PodcastSegment) (from fuel : nat) : option string :=
  match fuel with
  | 0 => None
  | S fuel' =>
      match synthesize seg from with
      | Some audio => Some audio
      | None => attempts seg (S from) fuel'
      end
  end.

Definition with_status (seg : PodcastSegment) (st : segment_status)
    (g : option nat) : PodcastSegment :=
  {| segment_order := segment_order seg; speaker := speaker seg;
     seg_text := seg_text seg; seg_marker_type := seg_marker_type seg;
     marker_value := marker_value seg; status := st; seg_generation := g |}.

(** Modelled from the spec: the orchestrator's run, which is not among the
    sources.  Segments are processed in order; completed ones are passed
    over; a text segment is synthesized with up to [max_attempts]
    attempts and, on success, gets a generation and a story item; a
    marker gets a story item without synthesis; a segment that exhausts
    its attempts is marked failed and stops the run in state [error].
    [p] holds the segments already passed, in order. *)
Fixpoint process (todo : list PodcastSegment) (p : project) : project :=
  match todo with
  | [] =>
      {| state := pipeline_completed; segments := segments p; generations := generations p;
         story := story p; completed_count := completed_count p;
         failed_count := failed_count p;
         current_segment_index := current_segment_index p |}
  | seg :: rest =>
      if bool_decide (status seg = completed) then
        process rest
          {| state := state p; segments := segments p ++ [seg];
             generations := generations p; story := story p;
             completed_count := completed_count p; failed_count := failed_count p;
             current_segment_index := S (current_segment_index p) |}
      else
        match seg_marker_type seg with
        | text =>
            match attempts seg 1 max_attempts with
            | Some audio =>
                let g := length (generations p) in
                process rest
                  {| state := state p;
                     segments := segments p ++ [with_status seg completed (Some g)];
                     generations := generations p ++
                       [{| gen_id := g; gen_text := seg_text seg; audio_path := audio |}];
                     story := story p ++
                       [{| item_position := length (story p);
                           item_generation := Some g; item_marker := None |}];
                     completed_count := S (completed_count p);
                     failed_count := failed_count p;
                     current_segment_index := S (current_segment_index p) |}
            | None =>
                {| state := pipeline_error;
                   segments := segments p ++ with_status seg failed None :: rest;
                   generations := generations p; story := story p;
                   completed_count := completed_count p;
                   failed_count := S (failed_count p);
                   current_segment_index := current_segment_index p |}
            end
        | kind =>
            process rest
              {| state := state p;
                 segments := segments p ++ [with_status seg completed None];
                 generations := generations p;
                 story := story p ++
                   [{| item_position := length (story p); item_generation := None;
                       item_marker := Some (kind, default "" (marker_value seg)) |}];
                 completed_count := S (completed_count p);
                 failed_count := failed_count p;
                 current_segment_index := S (current_segment_index p) |}
        end
  end.

(** Create: the project with its full ordered segment list, idle. *)
Definition create (lines : list string) : project :=
  {| state := pipeline_idle; segments := parse_script lines; generations := [];
     story := []; completed_count := 0; failed_count := 0;
     current_segment_index := 0 |}.

(** Start on an idle project. *)
Definition start (p : project) : project :=
  process (segments p)
    {| state := pipeline_generating; segments := []; generations := generations p;
       story := story p; completed_count := completed_count p;
       failed_count := failed_count p; current_segment_index := 0 |}.
End Run.

(** ** Retrieval for assembly and export *)

Definition find_generation (gens : list Generation) (g : nat) : option Generation :=
  find (fun x => Nat.eqb (gen_id x) g) gens.

(** Modelled from the spec: the retrieval of a story's items for assembly
    and export, which is not among the sources.  Outer join of the items
    with the generations: every item, with its generation when it has
    one. *)
Definition outer_join (items : list StoryItem) (gens : list Generation)
    : list (StoryItem * option Generation) :=
  (fun it => (it, item_generation it ≫= find_generation gens)) <$> items.

(** Modelled from the spec: the retrieval the specification warns against.
    Inner join: only the items that have a generation. *)
Definition inner_join (items : list StoryItem) (gens : list Generation)
    : list (StoryItem * Generation) :=
  omap (fun it => (fun g => (it, g)) <$> (item_generation it ≫= find_generation gens)) items.

Definition exported_timeline (p : project) : list (StoryItem * option Generation) :=
  outer_join (story p) (generations p).

Definition is_marker_item (it : StoryItem) : bool :=
  bool_decide (item_generation it = None).

End Backend.

(* ===================================================================== *)
(** * Statements, invariants and sample data used by the properties      *)
(* ===================================================================== *)

Module UiSpec.
Import PodcastsUi.

Definition generating_without_segments : PodcastProject :=
  {| id := "p1"; name := "Episode 1"; description := Some "pilot";
     script_content := ""; pipeline_state := "generating";
     total_segments := 0; completed_count := 0;
     updated_at := "2026-02-04T10:00:00" |}.

(** The counter of claim C6: shown for every project that is not idle. *)
Definition counter_whenever_not_idle : Prop :=
  ∀ (fmt : string → string) deleting p,
    pipeline_state p ≠ "idle" →
    row_counter (render_row fmt deleting p) = Some (completed_count p, total_segments p).

Definition paused_project : PodcastProject :=
  {| id := "p2"; name := "Episode 2"; description := Some "second";
     script_content := ""; pipeline_state := "paused";
     total_segments := 9; completed_count := 5;
     updated_at := "2026-02-04T11:00:00" |}.

Definition list_world : world :=
  {| projects := [generating_without_segments; paused_project]; loading := false;
     error := None; deletingId := None; sent := []; propagation_stopped := false |}.

End UiSpec.

Module StreamSamples.
Import Js Http PodcastProjectHook.

(** A sample stream and a sample project. *)
Definition sample_payload : object :=
  <["pipeline_state" := Str "generating"]>
  (<["current_segment_index" := Num 3]>
  (<["completed_count" := Num 3]>
  (<["failed_count" := Num 0]>
  (<["total_segments" := Num 9]> ∅)))).

Definition sample_parse (s : string) : option value :=
  if String.eqb s "P" then
    Some (Obj (<["type" := Str "progress"]> (<["data" := Obj sample_payload]> ∅)))
  else if String.eqb s "C" then Some (Obj (<["type" := Str "complete"]> ∅))
  else if String.eqb s "null" then Some Null
  else None.

Definition sample_project : object :=
  <["id" := Str "7"]>
  (<["pipeline_state" := Str "idle"]>
  (<["total_segments" := Num 9]>
  (<["segments" := Arr [Obj (<["id" := Str "s0"]> ∅)]]> ∅))).

Definition sample_world : world :=
  {| hook := {| project := Some sample_project; loading := false; error := None;
                isGenerating := true |};
     sent := []; console := [] |}.

(** The hook right after it was mounted: no project yet, the first GET
    under way, the stream already open. *)
Definition mounted_world : world :=
  {| hook := {| project := None; loading := true; error := None; isGenerating := false |};
     sent := [Route GET "/podcast/projects/7"]; console := [] |}.

(** The sample project as a later GET returns it: its first segment
    completed and a second segment listed. *)
Definition refetched_project : object :=
  <["segments" := Arr [Obj (<["id" := Str "s0"]> (<["status" := Str "completed"]> ∅));
                       Obj (<["id" := Str "s1"]> ∅)]]> sample_project.

(** The sample world once a [fetchProject] has brought that project: the
    state cell holds it, while a handler installed before still holds
    [sample_project]. *)
Definition refetched_world : world :=
  run (fetchProject "7" ++ fetchProject_settled (inl refetched_project))%list sample_world.

End StreamSamples.

Module StreamSpec.
Import Js PodcastProjectHook.

(** The [progress] part of claim C4 read literally: every [progress]
    message brings the progress properties of its payload into the
    project. *)
Definition progress_always_applied : Prop :=
  ∀ (JSON_parse : string → option value) (pid : string) (captured : option object)
    (event : MessageEvent) (w : world) (f : string),
    kind_of JSON_parse event = Some "progress" → f ∈ progress_fields →
    ∃ p', project (hook (receive JSON_parse pid captured event w)) = Some p' ∧
          p' !! f = Some (get_prop_opt (payload_of JSON_parse event) f).

(** Claim C9: a [progress] message with a payload leaves every property
    of the project state other than the five progress properties as it
    was in the state. *)
Definition progress_keeps_other_fields : Prop :=
  ∀ (JSON_parse : string → option value) (pid : string) (captured : option object)
    (event : MessageEvent) (w : world) (f : string),
    kind_of JSON_parse event = Some "progress" →
    truthy (payload_of JSON_parse event) = true →
    f ∉ progress_fields →
    (project (hook (receive JSON_parse pid captured event w)) ≫= (.!! f))
    = (project (hook w) ≫= (.!! f)).

End StreamSpec.

Module SubscriptionSpec.
Import PodcastProjectHook.

Definition all_closed (l : list EventSource) : Prop :=
  ∀ h s, l !! h = Some s → es_open s = false.

(** What holds of the hook between two events. *)
Record consistent (c : component) : Prop := {
  open_is_current : ∀ h s, sources c !! h = Some s → es_open s = true →
    mounted c = true ∧ cleanup c = Some h ∧
    es_url s = progress_url (projectId c) ∧ projectId c ≠ "";
  ref_is_cleanup : eventSourceRef c = cleanup c;
  unmounted_no_cleanup : mounted c = false → cleanup c = None
}.

(** The claim C3 makes: while the hook is mounted it holds exactly one
    open subscription. *)
Definition one_open_while_mounted : Prop :=
  ∀ es, mounted (lifetime es) = true → open_count (lifetime es) = 1.

End SubscriptionSpec.

Module BackendSpec.
Import Backend.

Definition is_marker_segment (s : PodcastSegment) : bool :=
  negb (bool_decide (seg_marker_type s = text)).

Definition marker_items (l : list StoryItem) : list StoryItem :=
  filter (fun it => item_generation it = None) l.

(** Generations are numbered by position and every voice item refers to
    one of them. *)
Record well_formed (p : project) : Prop := {
  ids_are_positions : ∀ i g, generations p !! i = Some g → gen_id g = i;
  items_have_audio : ∀ it g, it ∈ story p → item_generation it = Some g →
                             (g < length (generations p))%nat
}.

(** The project after a voice segment, and after a marker. *)
Definition after_voice (seg : PodcastSegment) (audio : string) (p : project) : project :=
  {| state := state p;
     segments := segments p ++ [with_status seg completed (Some (length (generations p)))];
     generations := generations p ++
       [{| gen_id := length (generations p); gen_text := seg_text seg;
           audio_path := audio |}];
     story := story p ++
       [{| item_position := length (story p);
           item_generation := Some (length (generations p)); item_marker := None |}];
     completed_count := S (completed_count p);
     failed_count := failed_count p;
     current_segment_index := S (current_segment_index p) |}.

Definition after_marker (seg : PodcastSegment) (p : project) : project :=
  {| state := state p;
     segments := segments p ++ [with_status seg completed None];
     generations := generations p;
     story := story p ++
       [{| item_position := length (story p); item_generation := None;
           item_marker := Some (seg_marker_type seg, default "" (marker_value seg)) |}];
     completed_count := S (completed_count p);
     failed_count := failed_count p;
     current_segment_index := S (current_segment_index p) |}.

(** The marker a segment puts on the timeline, if it is one. *)
Definition marker_of (seg : PodcastSegment) : option (marker_type * string) :=
  match seg_marker_type seg with
  | text => None
  | kind => Some (kind, default "" (marker_value seg))
  end.

Definition sample_frontmatter : list string :=
  ["title: My First Podcast"; "speakers:"; "  host1: Sarah"; "  guest1: John"].

Definition sample_body : list body_line :=
  [ Blank;
    Dialogue "host1" "Welcome to our podcast! Today we're discussing AI.";
    Blank;
    Header "Part one";
    Dialogue "guest1" "It's exciting to see how AI is changing our world.";
    SoundEffect "applause";
    MusicCue "outro";
    Dialogue "host1" "Thank you for tuning in! See you next time." ].

(** Fails twice, then succeeds: within the three attempts. *)
Definition third_time_lucky (seg : PodcastSegment) (attempt : nat) : option string :=
  if Nat.eqb attempt 3 then Some ("gen-" ++ pretty (segment_order seg) ++ ".wav") else None.

End BackendSpec.

Module SetupSpec.
Import Setup.

Definition imported_modules : list string := (fun b => b.1.1) <$> import_blocks.

(** The operator chose to keep the existing virtual environment. *)
Definition reuses_venv (e : env) : bool :=
  venv_dir_exists e && negb (String.eqb (REPLY e) "y" || String.eqb (REPLY e) "Y").

(** Every command of the virtual-environment part that the script gets to
    run succeeds. *)
Definition venv_phase_ok (e : env) : bool :=
  (if venv_dir_exists e
   then Nat.eqb (read_status e) 0 &&
        (if reuses_venv e then Nat.eqb (source_status e) 0 else Nat.eqb (rm_status e) 0)
   else true)
  && (if String.eqb (if reuses_venv e then "1" else SKIP_VENV_inherited e) ""
      then Nat.eqb (venv_status e) 0 && Nat.eqb (source_status e) 0
      else true).

Definition programs_ok (e : env) : bool :=
  Nat.eqb (cuda_program (cuda e)).2 0 &&
  Nat.eqb (imports_program (import_error e)).2 0 &&
  Nat.eqb (database_program (database e)).2 0 &&
  Nat.eqb (directories_program (directories e)).2 0.

Definition commands_ok (e : env) : bool :=
  Nat.eqb (python3_version e) 0 && venv_phase_ok e &&
  Nat.eqb (pip_upgrade e) 0 && Nat.eqb (pip_install e) 0 && programs_ok e.

(** Everything before the database check went through. *)
Definition reaches_database (e : env) : bool :=
  Nat.eqb (python3_version e) 0 && venv_phase_ok e &&
  Nat.eqb (pip_upgrade e) 0 && Nat.eqb (pip_install e) 0 &&
  Nat.eqb (cuda_program (cuda e)).2 0 && Nat.eqb (imports_program (import_error e)).2 0.

(** The steps whose failure ends the script. *)
Definition fatal_steps_ok (e : env) : Prop :=
  python3_version e = 0 ∧ venv_phase_ok e = true ∧ pip_upgrade e = 0 ∧ pip_install e = 0 ∧
  cuda e ≠ CudaCrash ∧
  (∀ m, m ∈ imported_modules → import_error e m = None) ∧
  (∃ tables, database e = DbTables tables None ∧ ∀ t, t ∈ required_tables → t ∈ tables) ∧
  directories e ≠ DirsCrash.

(** What the script prints once the dependencies are installed. *)
Definition lines_after_install : list string :=
  ["✓ All dependencies installed"; "Checking CUDA (Nvidia GPU) availability...";
   "Verifying core imports..."; "Checking database initialization...";
   "Checking data directories..."; "  Setup Complete!"].

Definition printed_after_install (e : env) : bool :=
  existsb (fun l => existsb (String.eqb l) lines_after_install) (output e).

(** A line that labels an error: the script and its inline programs
    start every such line with the cross mark. *)
Definition is_error_label (l : string) : bool := String.prefix "❌" l.

(** What claim C5 says of a run in which a step failed: it ends with a
    status other than 0 and an error label was written. *)
Definition exits_with_labelled_error (e : env) : Prop :=
  exit_status e ≠ 0 ∧ ∃ l, l ∈ output e ∧ is_error_label l = true.

Definition present (path : string) : directory :=
  {| dir_path := path; dir_exists := true; mkdir_error := None |}.

(** A machine on which everything works. *)
Definition healthy : env :=
  {| python3_version := 0; SKIP_VENV_inherited := ""; venv_dir_exists := false;
     read_status := 0; REPLY := "n"; rm_status := 0; source_status := 0;
     venv_status := 0; pip_upgrade := 0; pip_install := 0; cuda := CudaAbsent;
     import_error := fun _ => None;
     database := DbTables ["profiles"; "podcast_projects"; "podcast_segments"] None;
     directories := Dirs (present "data/profiles") (present "data/generations")
                         (present "data/cache") (present "data/sfx")
                         (present "data/music") |}.

(** The same machine with a failing [pip install]. *)
Definition broken_requirements : env :=
  {| python3_version := 0; SKIP_VENV_inherited := ""; venv_dir_exists := false;
     read_status := 0; REPLY := "n"; rm_status := 0; source_status := 0;
     venv_status := 0; pip_upgrade := 0; pip_install := 1; cuda := CudaAbsent;
     import_error := fun _ => None;
     database := DbTables ["profiles"; "podcast_projects"; "podcast_segments"] None;
     directories := Dirs (present "data/profiles") (present "data/generations")
                         (present "data/cache") (present "data/sfx")
                         (present "data/music") |}.

(** The same machine with a database that lacks the segment table. *)
Definition old_schema : env :=
  {| python3_version := 0; SKIP_VENV_inherited := ""; venv_dir_exists := false;
     read_status := 0; REPLY := "n"; rm_status := 0; source_status := 0;
     venv_status := 0; pip_upgrade := 0; pip_install := 0; cuda := CudaAbsent;
     import_error := fun _ => None;
     database := DbTables ["profiles"; "podcast_projects"] None;
     directories := Dirs (present "data/profiles") (present "data/generations")
                         (present "data/cache") (present "data/sfx")
                         (present "data/music") |}.
End SetupSpec.

(* ===================================================================== *)
(** * [usePodcastProject]: updating, starting, pausing, loading            *)
(* ===================================================================== *)

Module HookOperations.
Import Js Http PodcastProjectHook.

(** How an asynchronous callback of the hook ends. *)
Inductive completion := Returned (v : value) | Thrown (err : value).

(** What [apiClient.put] is given as its second argument. *)
Inductive body := FormData (entries : list (string * string)) | JsonBody (v : value).

(** A callback's calls in order: the calls [action] lists, and PUT
    requests with what they carry. *)
Inductive effect := Act (a : action) | Put (url : string) (b : body).

Definition as_action (e : effect) : action :=
  match e with
  | Act a => a
  | Put url _ => Request (Route PUT url)
  end.

Definition apply_effects (es : list effect) (w : world) : world :=
  run (as_action <$> es) w.

Definition segment_url (projectId segmentId : string) : string :=
  "/podcast/projects/" ++ projectId ++ "/segments/" ++ segmentId.

Definition start_url (projectId : string) : string :=
  "/podcast/projects/" ++ projectId ++ "/start".

Definition pause_url (projectId : string) : string :=
  "/podcast/projects/" ++ projectId ++ "/pause".

(** The error of calling a method on [null] or [undefined], or of calling
    what is not a function. *)
Definition TypeError : value := Str "TypeError".

(** [fetchProject()] from its start to its [finally], for a settled GET. *)
Definition fetchProject_complete (projectId : string) (response : object + value)
    : list action :=
  (fetchProject projectId ++ fetchProject_settled response)%list.

(** The effect on [[projectId, fetchProject]]: load the project of a
    non-empty id. *)
Definition load_effect (projectId : string) (response : object + value) : list action :=
  if String.eqb projectId "" then [] else fetchProject_complete projectId response.

(** [updateProject]; [script_content] is [None] when the property is
    [undefined]. *)
Definition updateProject (projectId : string) (project : option object)
    (script_content : option string) (response : object + value)
    : list effect * completion :=
  match project with
  | None => ([], Returned Undefined)
  | Some _ =>
      let formData :=
        FormData (match script_content with
                  | Some s => [("script_content", s)]
                  | None => []
                  end) in
      match response with
      | inl data =>
          ([Put (project_url projectId) formData; Act (SetProject data)],
           Returned (Obj data))
      | inr err => ([Put (project_url projectId) formData], Thrown err)
      end
  end.

(** [items.map(s => s.id === segmentId ? replacement : s)]; [None] when
    [s.id] raises on a [null] entry. *)
Fixpoint replace_segment (segmentId : string) (replacement : value)
    (items : list value) : option (list value) :=
  match items with
  | [] => Some []
  | s :: rest =>
      match get_prop s "id" with
      | None => None
      | Some i =>
          match replace_segment segmentId replacement rest with
          | Some rest' => Some ((if is_str i segmentId then replacement else s) :: rest')
          | None => None
          end
      end
  end.

(** [updateSegment]. *)
Definition updateSegment (projectId : string) (project : option object)
    (segmentId : string) (data : value) (response : value + value)
    : list effect * completion :=
  let put := Put (segment_url projectId segmentId) (JsonBody data) in
  match response with
  | inr err => ([put], Thrown err)
  | inl segment =>
      match project with
      | None => ([put], Returned segment)
      | Some p =>
          match field p "segments" with
          | Arr items =>
              match replace_segment segmentId segment items with
              | Some items' =>
                  ([put; Act (SetProject (<["segments" := Arr items']> p))],
                   Returned segment)
              | None => ([put], Thrown TypeError)
              end
          | _ => ([put], Thrown TypeError)
          end
      end
  end.

(** [startPipeline] of the hooks file with the progress stream. *)
Definition startPipeline (projectId : string) (post_response : value + value)
    (get_response : object + value) : list action * completion :=
  match post_response with
  | inl data =>
      (Request (Route POST (start_url projectId)) :: SetIsGenerating true
         :: fetchProject_complete projectId get_response,
       Returned data)
  | inr err =>
      ([Request (Route POST (start_url projectId)); SetError (Some err)], Thrown err)
  end.

(** [pausePipeline] of the same file. *)
Definition pausePipeline (projectId : string) (post_response : value + value)
    (get_response : object + value) : list action * completion :=
  match post_response with
  | inl _ =>
      (Request (Route POST (pause_url projectId)) :: SetIsGenerating false
         :: fetchProject_complete projectId get_response,
       Returned Undefined)
  | inr err =>
      ([Request (Route POST (pause_url projectId)); SetError (Some err)], Thrown err)
  end.

(** [startPipeline] and [pausePipeline] of [lib/hooks/usePodcasts.ts]:
    no [try], no generating indicator. *)
Definition startPipeline_plain (projectId : string) (post_response : value + value)
    (get_response : object + value) : list action * completion :=
  match post_response with
  | inl data =>
      (Request (Route POST (start_url projectId))
         :: fetchProject_complete projectId get_response,
       Returned data)
  | inr err => ([Request (Route POST (start_url projectId))], Thrown err)
  end.

Definition pausePipeline_plain (projectId : string) (post_response : value + value)
    (get_response : object + value) : list action * completion :=
  match post_response with
  | inl _ =>
      (Request (Route POST (pause_url projectId))
         :: fetchProject_complete projectId get_response,
       Returned Undefined)
  | inr err => ([Request (Route POST (pause_url projectId))], Thrown err)
  end.

(** The project a [progress] event and the effect on [[project]] leave
    in the hook. *)
Definition settle (st : world) : world :=
  {| hook := follow_pipeline_state (hook st); sent := sent st; console := console st |}.

(** Sample data. *)
Definition sample_segments : list value :=
  [ Obj (<["id" := Str "s0"]> (<["model_size" := Str "1.7B"]> ∅));
    Obj (<["id" := Str "s1"]> (<["model_size" := Str "1.7B"]> ∅));
    Obj (<["id" := Str "s2"]> (<["model_size" := Str "1.7B"]> ∅)) ].

Definition sample_loaded : object :=
  <["id" := Str "7"]> (<["name" := Str "Episode"]> (<["segments" := Arr sample_segments]> ∅)).

Definition sample_quiet : world :=
  {| hook := {| project := Some StreamSamples.sample_project; loading := false;
                error := None; isGenerating := false |};
     sent := []; console := [] |}.

Definition sample_updated : value :=
  Obj (<["id" := Str "s1"]> (<["model_size" := Str "0.6B"]> ∅)).

End HookOperations.

(* ===================================================================== *)
(** * [usePodcasts]: creating; the creation dialog; the editor's view      *)
(* ===================================================================== *)

Module ListOperations.
Import Http PodcastsUi.

(** What a creating callback gives back: the new world and the created
    project, or the error thrown. *)
Definition creating := string → world → world * (PodcastProject + Js.value).

(** The form [createProject] posts. *)
Definition create_form (script_content : string) : list (string * string) :=
  [("script_content", script_content)].

(** [createProject] of [lib/hooks/usePodcasts.ts]: the created project is
    appended to the list. *)
Definition createProject (post_response : PodcastProject + Js.value) : creating :=
  fun script_content w =>
    let w1 := send (Route POST "/podcast/projects") w in
    match post_response with
    | inl created => (setProjects (fun prev => (prev ++ [created])%list) w1, inl created)
    | inr err => (w1, inr err)
    end.

(** [createProject] of the hooks file with the progress stream: the list
    is loaded again. *)
Definition createProject_refetch (post_response : PodcastProject + Js.value)
    (get_response : list PodcastProject + Js.value) : creating :=
  fun script_content w =>
    let w1 := send (Route POST "/podcast/projects") w in
    match post_response with
    | inl created => (fetchProjects get_response w1, inl created)
    | inr err => (w1, inr err)
    end.

End ListOperations.

Module CreateDialog.
Import Http PodcastsUi ListOperations.

Definition quote : string := String "034"%char EmptyString.
Definition newline : string := String "010"%char EmptyString.

Definition quoted (s : string) : string := quote ++ s ++ quote.

Fixpoint unlines (lines : list string) : string :=
  match lines with
  | [] => ""
  | l :: rest => l ++ newline ++ unlines rest
  end.

(** The template literal [SAMPLE_SCRIPT]. *)
Definition SAMPLE_SCRIPT : string :=
  unlines
    [ "---";
      "title: My First Podcast";
      "episode: " ++ quoted "Episode 1";
      "speakers:";
      "  host1: " ++ quoted "Sarah";
      "  guest1: " ++ quoted "John";
      "description: " ++ quoted "A conversation about AI and technology";
      "---";
      "";
      "host1: Welcome to our podcast! Today we're discussing AI.";
      "";
      "guest1: It's exciting to see how AI is changing our world.";
      "";
      "host1: Absolutely, let's dive deeper into this topic.";
      "";
      "guest1: I think the key is understanding both the opportunities and challenges.";
      "";
      "[sound_effect: applause]";
      "";
      "host1: Thank you for tuning in! See you next time." ].

(** The dialog: its two state cells, the [open] flag its parent holds, the
    console, and the [usePodcasts] instance of its own. *)
Record dialog := {
  scriptContent : string;
  creating_now : bool;
  open : bool;
  console : list string;
  podcasts : world
}.

Section Dialog.
(** The [createProject] of the dialog's [usePodcasts]. *)
Variable hook_createProject : creating.

(** [handleCreate]: the rejection of [createProject] is caught and logged. *)
Definition handleCreate (d : dialog) : dialog :=
  let '(w', result) := hook_createProject (scriptContent d) (podcasts d) in
  match result with
  | inl _ =>
      {| scriptContent := SAMPLE_SCRIPT; creating_now := false; open := false;
         console := console d; podcasts := w' |}
  | inr _ =>
      {| scriptContent := scriptContent d; creating_now := false; open := open d;
         console := (console d ++ ["Failed to create project:"])%list; podcasts := w' |}
  end.
End Dialog.

Definition handleLoadTemplate (d : dialog) : dialog :=
  {| scriptContent := SAMPLE_SCRIPT; creating_now := creating_now d; open := open d;
     console := console d; podcasts := podcasts d |}.

(** The text area's [onChange]. *)
Definition edit (text : string) (d : dialog) : dialog :=
  {| scriptContent := text; creating_now := creating_now d; open := open d;
     console := console d; podcasts := podcasts d |}.

End CreateDialog.

Module EditorView.
Import Http PodcastsUi.

Record Profile := { profile_id : string; profile_name : string }.

(** The properties of a segment the editor reads. *)
Record Segment := {
  segment_id : string;
  status : string;
  speaker : string;
  segment_order : Z;
  text : string;
  segment_profile : option string;       (* [profile_id], [null] when unmapped *)
  model_size : string;
  error_message : option string
}.

Inductive icon := CheckCircle2 | XCircle | Loader2 | Clock.

Definition getSegmentStatusIcon (segment : Segment) : icon :=
  if String.eqb (status segment) "completed" then CheckCircle2
  else if String.eqb (status segment) "failed" then XCircle
  else if String.eqb (status segment) "generating" then Loader2
  else Clock.

(** [getProfileName] *)
Definition getProfileName (profiles : list Profile) (profileId : option string) : string :=
  match profileId with
  | None => "Unmapped"
  | Some pid =>
      if String.eqb pid "" then "Unmapped"
      else match find (fun p => String.eqb (profile_id p) pid) profiles with
           | Some p => if String.eqb (profile_name p) "" then "Unknown" else profile_name p
           | None => "Unknown"
           end
  end.

Definition setSelectedProjectId (s : option string) (e : editor) : editor :=
  {| selectedProjectId := s; project := project e; scriptContent := scriptContent e;
     isEditing := isEditing e; saving := saving e; outbox := outbox e |}.

(** The effect that selects the first project when none is selected. *)
Definition auto_select (projects : list PodcastProject) (e : editor) : editor :=
  match projects with
  | p :: _ => if selected e then e else setSelectedProjectId (Some (id p)) e
  | [] => e
  end.

(** The Cancel button. *)
Definition cancel (e : editor) : editor := setIsEditing false e.

(** The id the editor hands to [usePodcastProject]: [selectedProjectId || '']. *)
Definition hook_projectId (e : editor) : string :=
  match selectedProjectId e with
  | Some s => s
  | None => ""
  end.

Section EditorHandlers.
(** [startPipeline], [pausePipeline] and [exportAudio] of the hook, for
    the id the editor gave it. *)
Variable A : Type.
Variables hook_startPipeline hook_pausePipeline hook_exportAudio : string → list A.

Definition handleStartPipeline (e : editor) : list A :=
  if selected e then hook_startPipeline (hook_projectId e) else [].

Definition handlePausePipeline (e : editor) : list A :=
  if selected e then hook_pausePipeline (hook_projectId e) else [].

Definition handleExport (e : editor) : list A :=
  if selected e then hook_exportAudio (hook_projectId e) else [].
End EditorHandlers.

Record segment_row := {
  sr_key : string;
  sr_icon : icon;
  sr_speaker : string;
  sr_badge : Z;
  sr_text : string;
  sr_profile : string;
  sr_model : string;
  sr_error : option string
}.

Definition render_segment (profiles : list Profile) (s : Segment) : segment_row :=
  {| sr_key := segment_id s;
     sr_icon := getSegmentStatusIcon s;
     sr_speaker := speaker s;
     sr_badge := (segment_order s + 1)%Z;
     sr_text := text s;
     sr_profile := getProfileName profiles (segment_profile s);
     sr_model := model_size s;
     sr_error := match error_message s with
                 | Some m => if String.eqb m "" then None else Some m
                 | None => None
                 end |}.

(** The editor once a project is shown. *)
Record pane := {
  pane_title : string;
  pane_description : option string;
  export_button : bool;
  pause_button : bool;
  start_button : option string;            (* its label *)
  save_bar : option bool;                  (* shown; [Some true]: Save disabled *)
  textarea : string;
  segment_counter : Z * Z;
  segment_rows : option (list segment_row) (* [None]: "No segments yet" *)
}.

Inductive editor_view := SelectPrompt | LoadingView | FailedView | Pane (p : pane).

(** The JSX [PodcastEditor] returns, for what [usePodcastProject] and
    [useProfiles] gave it; [error] is the hook's error cell, [Null] when
    it is empty. *)
Definition PodcastEditor (e : editor) (loading : bool) (error : Js.value)
    (segments : list Segment) (profiles : list Profile) : editor_view :=
  if negb (selected e) then SelectPrompt
  else if loading then LoadingView
  else if Js.truthy error then FailedView
  else match project e with
       | None => FailedView
       | Some p =>
           Pane
             {| pane_title := name p;
                pane_description :=
                  match description p with
                  | Some d => if String.eqb d "" then None else Some d
                  | None => None
                  end;
                export_button := String.eqb (pipeline_state p) "completed";
                pause_button := String.eqb (pipeline_state p) "generating";
                start_button :=
                  if String.eqb (pipeline_state p) "generating" then None
                  else if negb (String.eqb (pipeline_state p) "completed")
                  then Some (if String.eqb (pipeline_state p) "paused"
                             then "Resume" else "Start")
                  else None;
                save_bar := if isEditing e then Some (saving e) else None;
                textarea := scriptContent e;
                segment_counter := (completed_count p, total_segments p);
                segment_rows :=
                  match segments with
                  | [] => None
                  | _ => Some (render_segment profiles <$> segments)
                  end |}
       end.

(** Sample data. *)
Definition sample_profiles : list Profile :=
  [ {| profile_id := "v1"; profile_name := "Sarah" |};
    {| profile_id := "v2"; profile_name := "John" |} ].

Definition sample_editor : editor :=
  {| selectedProjectId := Some "p2"; project := Some UiSpec.paused_project;
     scriptContent := "host1: edited"; isEditing := true; saving := false;
     outbox := [] |}.

End EditorView.

(* ===================================================================== *)
(** * A program logic for the setup script                                 *)
(* ===================================================================== *)

Module SetupLogic.
Import Setup.

(** The lines echoed inside the script's [if [ $? -ne 0 ]] blocks. *)
Definition shell_failure_labels : list string :=
  [ "❌ Python 3 not found. Please install Python 3.11+";
    "❌ Failed to create virtual environment";
    "❌ Failed to activate virtual environment";
    "❌ Failed to install dependencies";
    "Please check requirements.txt and try again";
    "❌ CUDA check failed";
    "❌ Import verification failed";
    "❌ Database check failed" ].

Definition completion_line : string := "  Setup Complete!".
Definition creating_line : string := "Creating virtual environment at voicebox_env...".

(** Lines that only the shell writes, never one of the inline programs. *)
Definition shell_only : list string :=
  (shell_failure_labels ++ [completion_line; creating_line])%list.

(** No line of [lines] is one of [F]. *)
Definition avoids (F lines : list string) : bool :=
  forallb (fun l => negb (existsb (String.eqb l) F)) lines.

(** [triple P m Q E]: started in a shell satisfying [P], the commands [m]
    either go on in a shell satisfying [Q] or end the script with a status
    and an output satisfying [E]. *)
Definition triple (P : shell → Prop) (m : sh unit) (Q : shell → Prop)
    (E : nat → list string → Prop) : Prop :=
  ∀ s, P s → match m s with
             | Continue _ s' => Q s'
             | Exit code written => E code written
             end.

(** What holds between two commands of the script: [set -e] is in force,
    the last status is 0, nothing of [F] was written, and [SKIP_VENV]
    satisfies [K]. *)
Definition Inv (F : list string) (K : string → Prop) (s : shell) : Prop :=
  errexit s = true ∧ last_status s = 0 ∧ avoids F (out s) = true ∧ K (SKIP_VENV s).

(** How the script ends early: with a status other than 0. *)
Definition Stop (F : list string) (code : nat) (written : list string) : Prop :=
  code ≠ 0 ∧ avoids F written = true.

Definition with_venv_status (n : nat) (e : env) : env :=
  {| python3_version := python3_version e; SKIP_VENV_inherited := SKIP_VENV_inherited e;
     venv_dir_exists := venv_dir_exists e; read_status := read_status e;
     REPLY := REPLY e; rm_status := rm_status e; source_status := source_status e;
     venv_status := n; pip_upgrade := pip_upgrade e; pip_install := pip_install e;
     cuda := cuda e; import_error := import_error e; database := database e;
     directories := directories e |}.

(** The healthy machine with a [pip install] that ends with status 2, and
    with [SKIP_VENV] exported and a broken [python3 -m venv]. *)
Definition pip_exits_2 : env :=
  {| python3_version := 0; SKIP_VENV_inherited := ""; venv_dir_exists := false;
     read_status := 0; REPLY := "n"; rm_status := 0; source_status := 0;
     venv_status := 0; pip_upgrade := 0; pip_install := 2; cuda := CudaAbsent;
     import_error := fun _ => None;
     database := DbTables ["podcast_projects"; "podcast_segments"] None;
     directories := DirsCrash |}.

Definition skip_exported : env :=
  {| python3_version := 0; SKIP_VENV_inherited := "yes"; venv_dir_exists := false;
     read_status := 0; REPLY := "n"; rm_status := 0; source_status := 0;
     venv_status := 1; pip_upgrade := 0; pip_install := 0; cuda := CudaAbsent;
     import_error := fun _ => None;
     database := DbTables ["podcast_projects"; "podcast_segments"] None;
     directories := Dirs (SetupSpec.present "data/profiles")
                         (SetupSpec.present "data/generations")
                         (SetupSpec.present "data/cache") (SetupSpec.present "data/sfx")
                         (SetupSpec.present "data/music") |}.

End SetupLogic.

(* ===================================================================== *)
(** * The hooks' requests against the generated client                     *)
(* ===================================================================== *)

Module ClientRoutes.
Import Http ApiClient.

Fixpoint no_slash (s : string) : bool :=
  match s with
  | EmptyString => true
  | String c rest => negb (Ascii.eqb c "/"%char) && no_slash rest
  end.

(** The pieces of a concrete URL against those of a template: a literal
    piece must be the same, a parameter takes any piece. *)
Fixpoint fits_pieces (template url : list piece) : bool :=
  match template, url with
  | [], [] => true
  | Param :: template', _ :: url' => fits_pieces template' url'
  | Lit a :: template', Lit b :: url' => String.eqb a b && fits_pieces template' url'
  | _, _ => false
  end.

Definition fits (template url : string) : bool :=
  fits_pieces (shape template) (shape url).

(** The static methods of the client a request could have been made with. *)
Definition served_by (r : route) : list callable :=
  filter (fun c => bool_decide (method (c_request c) = r_method r)
                   && fits (url (c_request c)) (r_path r) = true) DefaultService.

(** The requests of the two hooks, for a project and a segment id:
    [fetchProjects], [createProject], [deleteProject], [fetchProject],
    [updateProject], [updateSegment], [startPipeline], [pausePipeline],
    [exportAudio], and the [EventSource] of the progress stream. *)
Definition hook_requests (projectId segmentId : string) : list route :=
  [ Route GET "/podcast/projects";
    Route POST "/podcast/projects";
    Route DELETE (PodcastsUi.project_url projectId);
    Route GET (PodcastProjectHook.project_url projectId);
    Route PUT (PodcastProjectHook.project_url projectId);
    Route PUT (HookOperations.segment_url projectId segmentId);
    Route POST (HookOperations.start_url projectId);
    Route POST (HookOperations.pause_url projectId);
    Route POST (PodcastProjectHook.export_url projectId);
    Route GET (PodcastProjectHook.progress_url projectId) ].

(** [pieces] joined by [/]. *)
Fixpoint join (pieces : list string) : string :=
  match pieces with
  | [] => ""
  | [p] => p
  | p :: rest => p ++ String "/"%char (join rest)
  end.

End ClientRoutes.

(* ===================================================================== *)
(** * Properties                                                           *)
(* ===================================================================== *)

(** ** The generated client against the HTTP surface *)

Module ApiClientFacts.
Import Http ApiClient.

Lemma surface_counts :
  Forall (fun r => callables_for r = if profile_route r then 0 else 1) http_surface.
Proof. repeat constructor. Qed.

Lemma client_counts : Forall (fun c => routes_for c = 1) DefaultService.
Proof. repeat constructor. Qed.

(** C1, as stated, fails: the surface has four voice-profile routes and
    [DefaultService] has no callable for any of them; [GET /profiles] is
    one. *)
Lemma client_lacks_profile_routes : ¬ mirrors_one_to_one.
Proof.
  intros [Hroutes _].
  assert (Hin : Route GET "/profiles" ∈ http_surface)
    by (unfold http_surface; rewrite !elem_of_cons; tauto).
  specialize (Hroutes _ Hin). vm_compute in Hroutes. discriminate.
Qed.

(** C1, amended: every route of the surface other than the four
    voice-profile routes has exactly one callable of [DefaultService]
    with its method and path, the voice-profile routes have none, and
    every callable of [DefaultService] is bound to exactly one route of
    the surface. *)
Theorem client_mirrors_non_profile_routes :
  (∀ r, r ∈ http_surface → profile_route r = false → callables_for r = 1) ∧
  (∀ r, r ∈ http_surface → profile_route r = true → callables_for r = 0) ∧
  (∀ c, c ∈ DefaultService → routes_for c = 1).
Proof.
  pose proof surface_counts as Hs. pose proof client_counts as Hc.
  rewrite Forall_forall in Hs. rewrite Forall_forall in Hc.
  split; [|split].
  - intros r Hin Hp. rewrite (Hs r Hin), Hp. reflexivity.
  - intros r Hin Hp. rewrite (Hs r Hin), Hp. reflexivity.
  - intros c Hin. exact (Hc c Hin).
Qed.

Lemma client_mirrors_non_profile_routes_witness :
  callables_for (Route PUT "/podcast/projects/{id}/segments/{sid}") = 1 ∧
  callables_for (Route POST "/profiles/{id}/samples") = 0 ∧
  routes_for exportPodcastAudioPodcastProjectsProjectIdExportPost = 1.
Proof.
  destruct client_mirrors_non_profile_routes as (H1 & H2 & H3).
  split; [|split].
  - apply H1; [unfold http_surface; rewrite !elem_of_cons; tauto | reflexivity].
  - apply H2; [unfold http_surface; rewrite !elem_of_cons; tauto | reflexivity].
  - apply H3. unfold DefaultService. rewrite !elem_of_cons. tauto.
Defined.

End ApiClientFacts.

(** ** Export and download *)

Module ExportFacts.
Import PodcastProjectHook.

Lemma find_url_head u blob l : find_url u ((u, blob) :: l) = Some blob.
Proof. unfold find_url. simpl. rewrite String.eqb_refl. reflexivity. Qed.

(** C10: whatever project id and whatever blob the export endpoint
    returns (of whatever media type), [exportAudio] makes the browser
    write that blob under the name [podcast-<projectId>.wav], and
    returns the blob. *)
Theorem exportAudio_saves_as_wav (createObjectURL : Blob → string)
    (pid : string) (blob : Blob) (b : browser) :
  let '(calls, returned) := exportAudio createObjectURL pid (inl blob) in
  Post ("/podcast/projects/" ++ pid ++ "/export") ∈ calls ∧
  files (browse_all calls b)
    = (files b ++ [(("podcast-" ++ pid ++ ".wav")%string, blob)])%list ∧
  returned = inl blob.
Proof.
  simpl. split; [left | split; [|reflexivity]].
  unfold browse_all. simpl. rewrite find_url_head. reflexivity.
Qed.

(** An MP3 blob is still saved with the [.wav] name. *)
Example export_mp3_named_wav :
  files (browse_all
           (exportAudio (fun _ => "blob:1") "42"
              (inl {| blob_type := "audio/mpeg"; blob_bytes := [73; 68; 51]%Z |})).1
           {| urls := []; files := [] |})
  = [("podcast-42.wav", {| blob_type := "audio/mpeg"; blob_bytes := [73; 68; 51]%Z |})].
Proof. reflexivity. Qed.

(** When the request is rejected nothing is written. *)
Lemma exportAudio_rejected createObjectURL pid err b :
  files (browse_all (exportAudio createObjectURL pid (inr err)).1 b) = files b.
Proof. reflexivity. Qed.

End ExportFacts.

(** ** The project list and the editor *)

Module UiFacts.
Import Http PodcastsUi UiSpec.

(** C7: [handleDelete] sends the DELETE request for the project and
    removes it from the list exactly when the operator confirms (and the
    request succeeds); when the confirmation is declined nothing is
    sent, nothing is thrown and the state of the list (projects,
    loading, error, deleting marker) is what it was. *)
Theorem delete_only_after_confirmation
    (confirmed : bool) (delete_response : option Js.value)
    (pid : string) (w : world) :
  let '(w', thrown) := handleDelete (deleteProject delete_response) confirmed pid w in
  sent w' = (if confirmed
             then (sent w ++ [Route DELETE ("/podcast/projects/" ++ pid)%string])%list
             else sent w) ∧
  projects w' = (if confirmed && bool_decide (delete_response = None)
                 then filter (fun p => id p ≠ pid) (projects w)
                 else projects w) ∧
  thrown = (if confirmed then delete_response else None) ∧
  loading w' = loading w ∧ error w' = error w ∧
  deletingId w' = (if confirmed then None else deletingId w).
Proof.
  destruct confirmed; [destruct delete_response|]; simpl; auto 10.
Qed.

(** Declining leaves the list alone whichever [deleteProject] the hook
    provides (the filtering one or the reloading one). *)
Lemma declined_delete_is_noop (hook_deleteProject : string → callback) pid w :
  handleDelete hook_deleteProject false pid w = (stopPropagation w, None).
Proof. reflexivity. Qed.

Lemma deleted_project_gone pid w p :
  p ∈ projects (handleDelete (deleteProject None) true pid w).1 → id p ≠ pid.
Proof. simpl. rewrite list_elem_of_filter. tauto. Qed.

(** C8: saving in the editor sends no request, so the scripts stored by
    the service are what they were; the edited text stays in the local
    state of the editor, where [onChange] put it without sending
    anything either. *)
Theorem save_sends_no_request (e : editor) (store : gmap string string) (text : string) :
  outbox (handleSaveScript e) = outbox e ∧
  deliver_all (outbox (handleSaveScript e)) store = deliver_all (outbox e) store ∧
  scriptContent (handleSaveScript e) = scriptContent e ∧
  project (handleSaveScript e) = project e ∧
  outbox (onChange text e) = outbox e ∧
  scriptContent (onChange text e) = text ∧
  isEditing (onChange text e) = true.
Proof.
  assert (Ho : outbox (handleSaveScript e) = outbox e)
    by (unfold handleSaveScript; case_match; reflexivity).
  rewrite Ho. repeat split; unfold handleSaveScript; case_match; reflexivity.
Qed.

(** Once the editor has left the editing mode the loading effect puts the
    script of the project back into the text area. *)
Lemma saved_edit_is_reloaded e p pid :
  selectedProjectId e = Some pid → pid ≠ "" → project e = Some p →
  scriptContent (load_script_effect (handleSaveScript e)) = script_content p.
Proof.
  intros Hs Hne Hp. unfold handleSaveScript, selected. rewrite Hs, Hp.
  destruct (String.eqb_spec pid ""); [contradiction|].
  unfold load_script_effect. simpl. rewrite Hp. reflexivity.
Qed.

(** With a project selected, saving only leaves the editing mode. *)
Lemma save_leaves_editing e p pid :
  selectedProjectId e = Some pid → pid ≠ "" → project e = Some p →
  handleSaveScript e = setSaving false (setIsEditing false (setSaving true e)).
Proof.
  intros Hs Hne Hp. unfold handleSaveScript, selected. rewrite Hs, Hp.
  destruct (String.eqb_spec pid ""); [contradiction|]. reflexivity.
Qed.

(** C6, as stated, fails: a project that is generating but has no
    segments is rendered without a counter. *)
Lemma no_counter_without_segments : ¬ counter_whenever_not_idle.
Proof.
  intros H.
  specialize (H (fun s => s) None generating_without_segments).
  simpl in H. discriminate H. discriminate.
Qed.

(** C6, amended: every project of the list whose pipeline state is not
    [idle] and whose total segment count is positive is rendered with
    its completed/total counter, next to its name, its description when
    it has a non-empty one, the status badge of its state and the
    relative time of its last update. *)
Theorem counter_when_not_idle_and_nonempty
    (fmt : string → string) (w : world) (p : PodcastProject) :
  error w = None → loading w = false → p ∈ projects w →
  pipeline_state p ≠ "idle" → (0 < total_segments p)%Z →
  let r := render_row fmt (deletingId w) p in
  r ∈ rendered_rows fmt w ∧
  row_counter r = Some (completed_count p, total_segments p) ∧
  row_name r = name p ∧
  (∀ d, description p = Some d → d ≠ "" → row_description r = Some d) ∧
  row_badge_text r = pipeline_state p ∧
  row_badge_class r = getStatusBadge (pipeline_state p) ∧
  row_timestamp r = fmt (updated_at p).
Proof.
  intros He Hl Hin Hst Htot r. split; [|split; [|split; [|split]]].
  - unfold rendered_rows, PodcastList. rewrite He, Hl.
    destruct (projects w) as [|q ps] eqn:Hps; [inversion Hin|].
    apply list_elem_of_fmap. exists p. split; [reflexivity | exact Hin].
  - unfold r, render_row. simpl.
    destruct (String.eqb_spec (pipeline_state p) "idle"); [contradiction|].
    simpl. destruct (Z.ltb_spec 0 (total_segments p)); [reflexivity | lia].
  - reflexivity.
  - intros d Hd Hne. unfold r, render_row. simpl. rewrite Hd.
    destruct (String.eqb_spec d ""); [contradiction | reflexivity].
  - repeat split.
Qed.

Lemma counter_when_not_idle_and_nonempty_witness :
  row_counter (render_row (fun s => s) None paused_project) = Some (5, 9)%Z.
Proof.
  refine (proj1 (proj2 (counter_when_not_idle_and_nonempty (fun s => s) list_world
                          paused_project _ _ _ _ _))).
  - reflexivity.
  - reflexivity.
  - unfold list_world. simpl. rewrite !elem_of_cons. tauto.
  - discriminate.
  - reflexivity.
Defined.

(** The five pipeline states get five different badges. *)
Lemma badges_distinct :
  NoDup (getStatusBadge <$> ["idle"; "generating"; "paused"; "completed"; "error"]).
Proof. apply (bool_decide_unpack _). vm_compute. exact I. Qed.

End UiFacts.

(** ** The progress stream handler *)

Module StreamFacts.
Import Js Http PodcastProjectHook StreamSamples.

Lemma merge_progress_other (p : object) (d : value) (f : string) :
  f ∉ progress_fields → merge_progress p d !! f = p !! f.
Proof.
  unfold progress_fields, merge_progress. rewrite !not_elem_of_cons.
  intros (? & ? & ? & ? & ? & _).
  rewrite !lookup_insert_ne by congruence. reflexivity.
Qed.

Lemma merge_progress_field (p : object) (d : value) (f : string) :
  f ∈ progress_fields → merge_progress p d !! f = Some (get_prop_opt d f).
Proof.
  unfold progress_fields, merge_progress. rewrite !elem_of_cons.
  intros [-> | [-> | [-> | [-> | [-> | H]]]]]; [..| inversion H];
    repeat first [ rewrite lookup_insert_eq; reflexivity
                 | rewrite lookup_insert_ne by discriminate ].
Qed.

Section WithParser.
Variable JSON_parse : string → option value.

Lemma kind_of_inv event k :
  kind_of JSON_parse event = Some k →
  ∃ msg, JSON_parse (data event) = Some msg ∧ get_prop msg "type" = Some (Str k).
Proof.
  unfold kind_of. destruct (JSON_parse (data event)) as [msg|] eqn:Hp; [|discriminate].
  destruct (get_prop msg "type") as [[]|] eqn:Ht; try discriminate.
  intros [= ->]. exists msg. split; [reflexivity | exact Ht].
Qed.

Lemma payload_of_parsed event msg :
  JSON_parse (data event) = Some msg →
  payload_of JSON_parse event = get_prop_opt msg "data".
Proof. unfold payload_of. intros ->. reflexivity. Qed.

(** The handler on a message tagged [k], branch by branch. *)
Lemma onmessage_tagged pid proj event k :
  kind_of JSON_parse event = Some k →
  onmessage JSON_parse pid proj event =
    let d := payload_of JSON_parse event in
    if String.eqb k "progress" then
      match proj with
      | Some p => if truthy d then [SetProject (merge_progress p d)] else []
      | None => []
      end
    else if String.eqb k "segment_complete" || String.eqb k "segment_failed" then
      fetchProject pid
    else if String.eqb k "complete" then SetIsGenerating false :: fetchProject pid
    else if String.eqb k "error" then
      SetIsGenerating false
      :: SetError (Some (or_else (get_prop_opt d "error") (Str "Pipeline error")))
      :: fetchProject pid
    else [].
Proof.
  intros Hk. destruct (kind_of_inv _ _ Hk) as (msg & Hp & Ht).
  unfold onmessage. rewrite (payload_of_parsed _ _ Hp), Hp, Ht. reflexivity.
Qed.

(** C4, as stated, fails: a [progress] message that arrives before the
    first GET has brought a project is dropped, payload and all. *)
Lemma progress_dropped_before_load : ¬ StreamSpec.progress_always_applied.
Proof.
  intros H.
  destruct (H sample_parse "7" None {| data := "P" |} mounted_world "pipeline_state"
              eq_refl) as (p' & Hp' & _).
  - unfold progress_fields. left.
  - discriminate Hp'.
Qed.

(** C4, amended: a message tagged [progress] sends nothing; when the
    handler holds a loaded project and the message has a payload, the
    five progress properties of the project are those of the payload,
    and otherwise the message changes nothing.  A message tagged
    [segment_complete], [segment_failed], [complete] or [error] issues
    the GET of the full project and takes nothing of its payload into
    the project: the project stays what it was until that GET settles,
    and is then the project the server sent (or, when the GET fails,
    still the old one, with the failure in the error cell).  [complete]
    and [error] also clear [isGenerating], and the re-fetch leaves it
    cleared. *)
Theorem stream_event_mapping (pid : string) (captured : option object) (w : world)
    (event : MessageEvent) (k : string) :
  kind_of JSON_parse event = Some k →
  let w' := receive JSON_parse pid captured event w in
  let d := payload_of JSON_parse event in
  (k = "progress" →
     sent w' = sent w ∧
     (∀ p, captured = Some p → truthy d = true →
        ∃ p', project (hook w') = Some p' ∧
              ∀ f, f ∈ progress_fields → p' !! f = Some (get_prop_opt d f)) ∧
     (captured = None ∨ truthy d = false → w' = w)) ∧
  (k ∈ ["segment_complete"; "segment_failed"; "complete"; "error"] →
     sent w' = (sent w ++ [Route GET ("/podcast/projects/" ++ pid)%string])%list ∧
     refetches pid (onmessage JSON_parse pid captured event) ∧
     project (hook w') = project (hook w) ∧
     ∀ response : object + value,
       let w'' := run (fetchProject_settled response) w' in
       sent w'' = sent w' ∧ loading (hook w'') = false ∧
       match response with
       | inl full => project (hook w'') = Some full
       | inr err => project (hook w'') = project (hook w) ∧ error (hook w'') = Some err
       end) ∧
  (k = "complete" ∨ k = "error" →
     isGenerating (hook w') = false ∧
     ∀ response : object + value,
       isGenerating (hook (run (fetchProject_settled response) w')) = false).
Proof.
  intros Hk w' d. subst w'. unfold receive.
  rewrite (onmessage_tagged _ _ _ _ Hk). fold d.
  split; [|split].
  - intros ->. simpl. split; [|split].
    + destruct captured; [destruct (truthy d)|]; reflexivity.
    + intros p -> ->. simpl. eexists. split; [reflexivity|].
      intros f Hf. apply merge_progress_field, Hf.
    + intros [-> | ->]; [|destruct captured]; destruct w; reflexivity.
  - rewrite !elem_of_cons.
    intros [-> | [-> | [-> | [-> | H]]]]; [..| inversion H]; simpl;
      (split; [reflexivity|]);
      (split; [unfold refetches, fetchProject; rewrite !elem_of_cons; tauto|]);
      (split; [reflexivity|]);
      intros [full|err]; simpl; auto.
  - intros [-> | ->]; (split; [reflexivity|]); intros [full|err]; reflexivity.
Qed.

(** A [progress] message with a payload spreads the project the handler
    holds: the five progress properties come from the payload, every
    other property, [segments] among them, from that project; the other
    cells of the hook are left as they were and nothing is requested. *)
Lemma progress_spreads_captured_project (pid : string) (w : world)
    (event : MessageEvent) (p : object) :
  kind_of JSON_parse event = Some "progress" →
  truthy (payload_of JSON_parse event) = true →
  let w' := receive JSON_parse pid (Some p) event w in
  ∃ p', project (hook w') = Some p' ∧
    (∀ f, f ∉ progress_fields → p' !! f = p !! f) ∧
    p' !! "segments" = p !! "segments" ∧
    (∀ f, f ∈ progress_fields →
       p' !! f = Some (get_prop_opt (payload_of JSON_parse event) f)) ∧
    loading (hook w') = loading (hook w) ∧
    error (hook w') = error (hook w) ∧
    isGenerating (hook w') = isGenerating (hook w) ∧
    sent w' = sent w ∧ console w' = console w.
Proof.
  intros Hk Ht w'. subst w'. unfold receive.
  rewrite (onmessage_tagged _ _ _ _ Hk). simpl. rewrite Ht. simpl.
  eexists. split; [reflexivity|].
  split; [intros f Hf; apply merge_progress_other, Hf|].
  split; [apply merge_progress_other; unfold progress_fields;
          rewrite !not_elem_of_cons; repeat split; try discriminate;
          apply not_elem_of_nil|].
  split; [intros f Hf; apply merge_progress_field, Hf|].
  repeat split.
Qed.

(** Without a loaded project, or without a payload, a [progress]
    message changes nothing. *)
Lemma progress_without_project pid captured w event :
  kind_of JSON_parse event = Some "progress" →
  captured = None ∨ truthy (payload_of JSON_parse event) = false →
  receive JSON_parse pid captured event w = w.
Proof.
  intros Hk H. unfold receive. rewrite (onmessage_tagged _ _ _ _ Hk). simpl.
  destruct H as [-> | ->]; [|destruct captured]; reflexivity.
Qed.

(** The message of an [error] event does not stay in the [error] cell:
    the [fetchProject] that follows resets the cell at once. *)
Lemma stream_error_is_reset pid captured w event :
  kind_of JSON_parse event = Some "error" →
  error (hook (receive JSON_parse pid captured event w)) = None.
Proof.
  intros Hk. unfold receive. rewrite (onmessage_tagged _ _ _ _ Hk). reflexivity.
Qed.

(** An unreadable message is only logged. *)
Lemma unparsable_message pid captured w event :
  JSON_parse (data event) = None →
  hook (receive JSON_parse pid captured event w) = hook w ∧
  sent (receive JSON_parse pid captured event w) = sent w.
Proof. intros H. unfold receive, onmessage. rewrite H. split; reflexivity. Qed.
End WithParser.

(** Once the GET settles the project is the one the server sent. *)
Lemma refetch_replaces_project full w :
  project (hook (run (fetchProject_settled (inl full)) w)) = Some full.
Proof. reflexivity. Qed.

Lemma stream_event_mapping_witness :
  isGenerating (hook (receive sample_parse "7" (Some sample_project) {| data := "C" |}
                        sample_world)) = false ∧
  sent (receive sample_parse "7" (Some sample_project) {| data := "C" |} sample_world)
    = [Route GET "/podcast/projects/7"] ∧
  project (hook (run (fetchProject_settled (inl refetched_project))
                   (receive sample_parse "7" (Some sample_project) {| data := "C" |}
                      sample_world))) = Some refetched_project.
Proof.
  pose proof (stream_event_mapping sample_parse "7" (Some sample_project) sample_world
                {| data := "C" |} "complete" eq_refl) as (_ & Hfetch & Hgen).
  destruct Hfetch as (Hsent & _ & _ & Hsettled); [rewrite !elem_of_cons; tauto|].
  split; [apply Hgen; left; reflexivity|]. split; [exact Hsent|].
  apply (Hsettled (inl refetched_project)).
Defined.

(** C9 fails on the code: the handler spreads the project its closure
    holds, not the project in the state.  After a [fetchProject] has put
    the re-fetched project in the state, a [progress] message delivered
    to the handler installed before it puts the old project back, with
    the counters of the payload: the segments the GET brought are gone. *)
Theorem stale_progress_overwrites_segments :
  let w' := receive sample_parse "7" (Some sample_project) {| data := "P" |}
              refetched_world in
  project (hook refetched_world) = Some refetched_project ∧
  ∃ p', project (hook w') = Some p' ∧
        p' !! "segments" = sample_project !! "segments" ∧
        p' !! "segments" ≠ refetched_project !! "segments" ∧
        p' !! "completed_count" = Some (Num 3).
Proof.
  split; [reflexivity|].
  destruct (progress_spreads_captured_project sample_parse "7" refetched_world
              {| data := "P" |} sample_project eq_refl eq_refl)
    as (p' & Hp' & _ & Hseg & Hfields & _).
  exists p'. split; [exact Hp'|]. split; [exact Hseg|]. split.
  - rewrite Hseg. vm_compute. intros H. discriminate H.
  - rewrite Hfields; [reflexivity|]. unfold progress_fields. rewrite !elem_of_cons. tauto.
Qed.

(** The same run contradicts the frame the claim states. *)
Lemma progress_frame_fails : ¬ StreamSpec.progress_keeps_other_fields.
Proof.
  intros H.
  assert (Hf : "segments" ∉ progress_fields).
  { unfold progress_fields. rewrite !not_elem_of_cons.
    repeat split; try discriminate. apply not_elem_of_nil. }
  pose proof (H sample_parse "7" (Some sample_project) {| data := "P" |} refetched_world
                "segments" eq_refl eq_refl Hf) as Heq.
  vm_compute in Heq. discriminate Heq.
Qed.

End StreamFacts.

(** ** The lifetime of the stream subscription *)

Module SubscriptionFacts.
Import PodcastProjectHook SubscriptionSpec.

Lemma close_still_open h l i s :
  close h l !! i = Some s → es_open s = true → i ≠ h ∧ l !! i = Some s.
Proof.
  unfold close. intros Hl Ho. destruct (decide (h = i)) as [->|Hne].
  - rewrite list_lookup_alter_eq in Hl.
    destruct (l !! i); simpl in Hl; [|discriminate].
    injection Hl as <-. discriminate Ho.
  - rewrite list_lookup_alter_ne in Hl by exact Hne. auto.
Qed.

Lemma closed_stay_closed h l : all_closed l → all_closed (close h l).
Proof.
  intros Hall i s Hl. destruct (es_open s) eqn:Ho; [|reflexivity].
  destruct (close_still_open _ _ _ _ Hl Ho) as [_ Hl']. rewrite <- Ho. eauto.
Qed.

Lemma unfold_open_handle c h :
  h ∈ open_handles c ↔ ∃ s, sources c !! h = Some s ∧ es_open s = true.
Proof.
  unfold open_handles. rewrite list_elem_of_filter, elem_of_seq. split.
  - intros [Hs _]. apply fmap_Some in Hs as (s & Hl & Ho). eauto.
  - intros (s & Hl & Ho). split; [rewrite Hl; simpl; congruence|].
    apply lookup_lt_Some in Hl. lia.
Qed.

Lemma open_handles_NoDup c : NoDup (open_handles c).
Proof. apply NoDup_filter, NoDup_seq. Qed.

Lemma short_when_all_equal (l : list nat) :
  NoDup l → (∀ x y, x ∈ l → y ∈ l → x = y) → (length l ≤ 1)%nat.
Proof.
  intros Hnd Heq. destruct l as [|a [|b l]]; simpl; try lia.
  exfalso. apply NoDup_cons in Hnd as [Hnotin _]. apply Hnotin.
  rewrite (Heq a b); [left | left | right; left].
Qed.

Lemma no_open_when_closed c : all_closed (sources c) → open_count c = 0.
Proof.
  intros Hall. unfold open_count. destruct (open_handles c) as [|h l] eqn:E; [reflexivity|].
  assert (Hin : h ∈ open_handles c) by (rewrite E; left).
  apply unfold_open_handle in Hin as (s & Hl & Ho).
  rewrite (Hall _ _ Hl) in Ho. discriminate.
Qed.

(** After the clean-up every stream is closed and the reference is empty. *)
Lemma cleanup_closes c :
  consistent c →
  all_closed (sources (run_cleanup c)) ∧ eventSourceRef (run_cleanup c) = None ∧
  cleanup (run_cleanup c) = None ∧ mounted (run_cleanup c) = mounted c ∧
  length (sources (run_cleanup c)) = length (sources c).
Proof.
  intros [Hopen Href Hun]. unfold run_cleanup.
  destruct (cleanup c) as [h|] eqn:Hc; simpl.
  - split; [|unfold close; rewrite length_alter; auto].
    intros i s Hl. destruct (es_open s) eqn:Ho; [|reflexivity].
    destruct (close_still_open _ _ _ _ Hl Ho) as [Hne Hl'].
    destruct (Hopen _ _ Hl' Ho) as (_ & [= ->] & _). contradiction.
  - rewrite Href, Hc. split; [|auto].
    intros i s Hl. destruct (es_open s) eqn:Ho; [|reflexivity].
    destruct (Hopen _ _ Hl Ho) as (_ & [=] & _).
Qed.

(** The effect, run with every earlier stream closed. *)
Lemma subscribe_consistent pid c :
  all_closed (sources c) → eventSourceRef c = None → mounted c = true →
  consistent (subscribe pid c).
Proof.
  intros Hall Href Hm. unfold subscribe.
  destruct (String.eqb_spec pid "") as [->|Hne].
  - split; simpl; [|exact Href | congruence].
    intros h s Hl Ho. rewrite (Hall _ _ Hl) in Ho. discriminate.
  - rewrite Href. split; simpl; [|reflexivity | congruence].
    intros h s Hl Ho. apply lookup_snoc_Some in Hl as [[_ Hl] | [-> <-]].
    + rewrite (Hall _ _ Hl) in Ho. discriminate.
    + auto.
Qed.

Lemma subscribe_opens_one pid c :
  all_closed (sources c) → eventSourceRef c = None → mounted c = true → pid ≠ "" →
  open_count (subscribe pid c) = 1 ∧
  sources (subscribe pid c) !! length (sources c)
    = Some {| es_url := progress_url pid; es_open := true |} ∧
  eventSourceRef (subscribe pid c) = Some (length (sources c)).
Proof.
  intros Hall Href Hm Hne.
  pose proof (subscribe_consistent pid c Hall Href Hm) as Hcons.
  assert (Hnew : sources (subscribe pid c) !! length (sources c)
                 = Some {| es_url := progress_url pid; es_open := true |} ∧
                 eventSourceRef (subscribe pid c) = Some (length (sources c))).
  { unfold subscribe. destruct (String.eqb_spec pid ""); [contradiction|].
    rewrite Href. simpl. split; [|reflexivity].
    rewrite lookup_app_r by lia. rewrite Nat.sub_diag. reflexivity. }
  split; [|exact Hnew].
  assert (Hin : length (sources c) ∈ open_handles (subscribe pid c))
    by (apply unfold_open_handle; eexists; split; [apply Hnew | reflexivity]).
  assert (Hle : (open_count (subscribe pid c) ≤ 1)%nat).
  { apply short_when_all_equal; [apply open_handles_NoDup|].
    intros x y Hx Hy.
    apply unfold_open_handle in Hx as (sx & Hlx & Hox).
    apply unfold_open_handle in Hy as (sy & Hly & Hoy).
    destruct (open_is_current _ Hcons _ _ Hlx Hox) as (_ & Hcx & _).
    destruct (open_is_current _ Hcons _ _ Hly Hoy) as (_ & Hcy & _).
    congruence. }
  unfold open_count in *. destruct (open_handles (subscribe pid c)); [inversion Hin|].
  simpl in *. lia.
Qed.

Lemma step_consistent c e : consistent c → consistent (step c e).
Proof.
  intros Hc. pose proof Hc as [Hopen Href Hun]. destruct e as [pid | pid ch | h |]; simpl.
  - destruct (mounted c) eqn:Hm; [exact Hc|].
    apply subscribe_consistent; simpl; [|rewrite Href; auto | reflexivity].
    intros h s Hl. destruct (es_open s) eqn:Ho; [|reflexivity].
    destruct (Hopen _ _ Hl Ho) as (Hm' & _). congruence.
  - destruct (mounted c) eqn:Hm; [|exact Hc].
    destruct (negb (String.eqb pid (projectId c)) || ch); [|exact Hc].
    destruct (cleanup_closes c Hc) as (Hall & Hr & _ & Hm' & _).
    apply subscribe_consistent; [exact Hall | exact Hr | congruence].
  - split; simpl; [|exact Href | exact Hun].
    intros i s Hl Ho. destruct (close_still_open _ _ _ _ Hl Ho) as [_ Hl']. eauto.
  - destruct (mounted c) eqn:Hm; [|exact Hc].
    destruct (cleanup_closes c Hc) as (Hall & Hr & Hcl & _ & _).
    split; simpl; [|congruence | auto].
    intros i s Hl Ho. rewrite (Hall _ _ Hl) in Ho. discriminate.
Qed.

Lemma unmounted_consistent : consistent unmounted.
Proof. split; simpl; [intros h s Hl; rewrite lookup_nil in Hl; discriminate | auto..]. Qed.

Lemma run_consistent es c : consistent c → consistent (fold_left step es c).
Proof.
  revert c. induction es as [|e es IH]; intros c Hc; simpl; [exact Hc|].
  apply IH, step_consistent, Hc.
Qed.

Lemma lifetime_consistent es : consistent (lifetime es).
Proof. apply run_consistent, unmounted_consistent. Qed.

Lemma at_most_one_open c : consistent c → (open_count c ≤ 1)%nat.
Proof.
  intros Hc. apply short_when_all_equal; [apply open_handles_NoDup|].
  intros x y Hx Hy.
  apply unfold_open_handle in Hx as (sx & Hlx & Hox).
  apply unfold_open_handle in Hy as (sy & Hly & Hoy).
  destruct (open_is_current _ Hc _ _ Hlx Hox) as (_ & Hcx & _).
  destruct (open_is_current _ Hc _ _ Hly Hoy) as (_ & Hcy & _).
  congruence.
Qed.

(** C3, as stated, fails: after a stream error the hook, still mounted
    on the same id, holds no open subscription ([onerror] closes the
    source and nothing reopens it); mounted on the empty id it never
    opens one. *)
Lemma no_subscription_after_stream_error : ¬ one_open_while_mounted.
Proof.
  intros H. specialize (H [Mount "p1"; StreamError 0] eq_refl).
  vm_compute in H. discriminate.
Qed.

Example no_subscription_for_empty_id : open_count (lifetime [Mount ""]) = 0.
Proof. reflexivity. Qed.

(** C3, amended: at every moment the hook holds at most one open
    progress-stream subscription, and an open one belongs to the mounted
    hook, was opened for the current project id (which is not empty) and
    is the one [eventSourceRef] refers to, so a subscription never
    outlives the id it was opened for.  Every run of the effect for a
    non-empty id (on mount, and on a render in which the id or the
    project changed) first closes the previous subscription and leaves
    exactly one open, for the new id; unmounting closes the subscription
    and clears the reference; an error on the current stream closes it
    and leaves none open. *)
Theorem subscription_follows_project_id (es : list lifecycle) :
  let c := lifetime es in
  (open_count c ≤ 1)%nat ∧
  (∀ h s, sources c !! h = Some s → es_open s = true →
     mounted c = true ∧ es_url s = progress_url (projectId c) ∧
     projectId c ≠ "" ∧ eventSourceRef c = Some h) ∧
  (∀ pid, mounted c = false → pid ≠ "" →
     open_count (step c (Mount pid)) = 1 ∧ projectId (step c (Mount pid)) = pid) ∧
  (∀ pid project_changed,
     mounted c = true → pid ≠ "" → pid ≠ projectId c ∨ project_changed = true →
     let c' := step c (Render pid project_changed) in
     open_count c' = 1 ∧ projectId c' = pid ∧
     ∀ h, (h < length (sources c))%nat → es_open <$> sources c' !! h = Some false) ∧
  (mounted c = true →
     open_count (step c Unmount) = 0 ∧ eventSourceRef (step c Unmount) = None) ∧
  (mounted c = false → open_count c = 0 ∧ eventSourceRef c = None) ∧
  (∀ h, eventSourceRef c = Some h → open_count (step c (StreamError h)) = 0).
Proof.
  intros c. pose proof (lifetime_consistent es) as Hc. fold c in Hc.
  pose proof Hc as [Hopen Href Hun].
  assert (Hclosed : mounted c = false → all_closed (sources c)).
  { intros Hm h s Hl. destruct (es_open s) eqn:Ho; [|reflexivity].
    destruct (Hopen _ _ Hl Ho) as (Hm' & _). congruence. }
  split; [apply at_most_one_open, Hc|].
  split; [intros h s Hl Ho; destruct (Hopen _ _ Hl Ho) as (? & Hcl & ? & ?);
          rewrite Href; auto|].
  split; [|split; [|split; [|split]]].
  - intros pid Hm Hne. simpl. rewrite Hm.
    split; [|unfold subscribe; destruct (String.eqb pid ""); reflexivity].
    apply subscribe_opens_one; simpl; [auto | rewrite Href; auto | reflexivity | exact Hne].
  - intros pid ch Hm Hne Hdeps c'. subst c'. simpl. rewrite Hm.
    assert (Hrun : negb (String.eqb pid (projectId c)) || ch = true).
    { destruct Hdeps as [Hd | ->]; [|apply orb_true_r].
      destruct (String.eqb_spec pid (projectId c)); [contradiction | reflexivity]. }
    rewrite Hrun.
    destruct (cleanup_closes c Hc) as (Hall & Hr & _ & Hm' & Hlen).
    destruct (subscribe_opens_one pid (run_cleanup c) Hall Hr ltac:(congruence) Hne)
      as (Hone & _ & _).
    split; [exact Hone|].
    split; [unfold subscribe; destruct (String.eqb pid ""); reflexivity|].
    intros h Hh. unfold subscribe.
    destruct (String.eqb_spec pid ""); [contradiction|]. rewrite Hr. simpl.
    rewrite lookup_app_l by lia.
    destruct (lookup_lt_is_Some_2 (sources (run_cleanup c)) h ltac:(lia)) as [s Hs].
    rewrite Hs. simpl. rewrite (Hall _ _ Hs). reflexivity.
  - intros Hm. simpl. rewrite Hm.
    destruct (cleanup_closes c Hc) as (Hall & Hr & _).
    split; [apply no_open_when_closed; exact Hall | exact Hr].
  - intros Hm. split; [apply no_open_when_closed, Hclosed, Hm|].
    rewrite Href. apply Hun, Hm.
  - intros h Hh. apply no_open_when_closed. simpl. intros i s Hl.
    destruct (es_open s) eqn:Ho; [|reflexivity].
    destruct (close_still_open _ _ _ _ Hl Ho) as [Hne Hl'].
    destruct (Hopen _ _ Hl' Ho) as (_ & Hcl & _). congruence.
Qed.

Lemma subscription_follows_project_id_witness :
  open_count (step (lifetime [Mount "p1"]) (Render "p2" false)) = 1 ∧
  projectId (step (lifetime [Mount "p1"]) (Render "p2" false)) = "p2" ∧
  open_count (step (lifetime [Mount "p1"; Render "p1" true]) Unmount) = 0 ∧
  open_count (step (lifetime []) (Mount "p1")) = 1.
Proof.
  destruct (subscription_follows_project_id [Mount "p1"]) as (_ & _ & _ & Hrender & _).
  destruct (Hrender "p2" false eq_refl ltac:(discriminate) ltac:(left; discriminate))
    as (H1 & H2 & _).
  destruct (subscription_follows_project_id [Mount "p1"; Render "p1" true])
    as (_ & _ & _ & _ & Hunmount & _).
  destruct (subscription_follows_project_id []) as (_ & _ & Hmount & _).
  split; [exact H1 | split; [exact H2 | split]].
  - apply Hunmount. reflexivity.
  - apply Hmount; [reflexivity | discriminate].
Defined.

(** The stream is reopened on every change of the project state, not
    only on a change of id: three sources have been constructed here
    for the one id. *)
Example resubscribes_on_project_change :
  length (sources (lifetime [Mount "p1"; Render "p1" true; Render "p1" true])) = 3.
Proof. reflexivity. Qed.

End SubscriptionFacts.

(** ** Markers through parsing, run and retrieval *)

Module BackendFacts.
Import Backend BackendSpec.

Lemma rtrim_cons (c : ascii) (s : string) :
  is_space c = false → rtrim (String c s) = String c (rtrim s).
Proof. intros Hc. cbn [rtrim]. destruct (rtrim s); [rewrite Hc|]; reflexivity. Qed.

Lemma rtrim_cons_kept (c : ascii) (s : string) :
  rtrim s ≠ "" → rtrim (String c s) = String c (rtrim s).
Proof. intros Hs. cbn [rtrim]. destruct (rtrim s); [contradiction | reflexivity]. Qed.

Lemma rtrim_blank_ltrim (s : string) : rtrim s = "" → ltrim s = "".
Proof.
  induction s as [|c s IH]; [reflexivity|]. cbn [rtrim ltrim].
  destruct (rtrim s) eqn:Hr; [|discriminate].
  destruct (is_space c); [intros _; apply IH; reflexivity | discriminate].
Qed.

Lemma rtrim_idem (s : string) : rtrim (rtrim s) = rtrim s.
Proof.
  induction s as [|c s IH]; [reflexivity|]. cbn [rtrim].
  destruct (rtrim s) as [|d r] eqn:Hr.
  - destruct (is_space c) eqn:Hc; [reflexivity|]. cbn [rtrim]. rewrite Hc. reflexivity.
  - rewrite rtrim_cons_kept; rewrite IH; [reflexivity | discriminate].
Qed.

Lemma ltrim_rtrim (s : string) : ltrim (rtrim s) = rtrim (ltrim s).
Proof.
  induction s as [|c s IH]; [reflexivity|].
  destruct (is_space c) eqn:Hc.
  - cbn [ltrim]. rewrite Hc. cbn [rtrim].
    destruct (rtrim s) as [|d r] eqn:Hr.
    + rewrite Hc. rewrite (rtrim_blank_ltrim s Hr). reflexivity.
    + cbn [ltrim]. rewrite Hc. exact IH.
  - rewrite (rtrim_cons c s Hc). cbn [ltrim]. rewrite Hc. apply (eq_sym (rtrim_cons c s Hc)).
Qed.

(** Trimming what follows the colon of a dialogue line. *)
Lemma trim_after_colon (what : string) : trim (rtrim (String " " what)) = trim what.
Proof.
  unfold trim. cbn [rtrim].
  destruct (rtrim what) as [|d r] eqn:Hr.
  - cbn. rewrite (rtrim_blank_ltrim what Hr). reflexivity.
  - change (ltrim (String " " (String d r))) with (ltrim (String d r)).
    rewrite <- Hr, ltrim_rtrim, rtrim_idem. reflexivity.
Qed.


Lemma rtrim_id_prefix (who rest : string) :
  all_id_chars who = true → rest ≠ "" → rtrim rest ≠ "" →
  rtrim (who ++ rest) = who ++ rtrim rest.
Proof.
  intros Hwho Hne Hr. induction who as [|c who IH]; [reflexivity|].
  cbn [all_id_chars] in Hwho. apply andb_true_iff in Hwho as [_ Hwho].
  change (String c who ++ rest) with (String c (who ++ rest)).
  rewrite rtrim_cons_kept; rewrite (IH Hwho); [reflexivity|].
  destruct who; [exact Hr | discriminate].
Qed.

Lemma id_char_facts (c : ascii) :
  is_id_char c = true →
  is_space c = false ∧ Ascii.eqb c ":" = false ∧ Ascii.eqb "[" c = false ∧
  Ascii.eqb "#" c = false.
Proof.
  intros Hc. repeat split.
  - unfold is_space.
    destruct (Ascii.eqb_spec c " ") as [->|_]; [discriminate Hc|].
    destruct (Ascii.eqb_spec c "009") as [->|_]; [discriminate Hc|].
    destruct (Ascii.eqb_spec c "013") as [->|_]; [discriminate Hc|]. reflexivity.
  - destruct (Ascii.eqb_spec c ":") as [->|_]; [discriminate Hc | reflexivity].
  - destruct (Ascii.eqb_spec "[" c) as [<-|_]; [discriminate Hc | reflexivity].
  - destruct (Ascii.eqb_spec "#" c) as [<-|_]; [discriminate Hc | reflexivity].
Qed.

Lemma split_speaker_written (who rest : string) :
  valid_speaker_id who = true →
  split_speaker (who ++ String ":" rest) = Some (who, rest).
Proof.
  unfold valid_speaker_id. intros H. apply andb_true_iff in H as [Hne Hall].
  induction who as [|c who IH]; [discriminate Hne|].
  cbn [all_id_chars] in Hall. apply andb_true_iff in Hall as [Hc Hall].
  destruct (id_char_facts c Hc) as (_ & Hcolon & _ & _).
  change (String c who ++ String ":" rest) with (String c (who ++ String ":" rest)).
  cbn [split_speaker]. rewrite Hcolon, Hc.
  destruct who as [|d who].
  - cbn. reflexivity.
  - change (String d who ++ String ":" rest) with (String d (who ++ String ":" rest)).
    change (String d who ++ String ":" rest) with (String d (who ++ String ":" rest)) in IH.
    assert (Hd : is_id_char d = true)
      by (cbn [all_id_chars] in Hall; apply andb_true_iff in Hall as [Hd _]; exact Hd).
    destruct (id_char_facts d Hd) as (_ & Hdcolon & _ & _).
    rewrite Hdcolon. rewrite (IH eq_refl Hall). reflexivity.
Qed.

Lemma last_char_bracket (s : string) : Http.last_char (s ++ "]") = Some "]"%char.
Proof.
  induction s as [|c s IH]; [reflexivity|].
  change (String c s ++ "]") with (String c (s ++ "]")). cbn [Http.last_char].
  rewrite IH. destruct (s ++ "]") eqn:Hs; [destruct s; discriminate Hs | reflexivity].
Qed.

Lemma substring_before_bracket (s : string) :
  String.substring 0 (String.length (s ++ "]") - 1) (s ++ "]") = s.
Proof.
  induction s as [|c s IH]; [reflexivity|].
  change (String c s ++ "]") with (String c (s ++ "]")).
  cbn [String.length]. rewrite Nat.sub_succ, Nat.sub_0_r.
  destruct (String.length (s ++ "]")) as [|n] eqn:Hlen; [destruct s; discriminate Hlen|].
  cbn [String.substring]. f_equal.
  rewrite Nat.sub_succ, Nat.sub_0_r in IH. exact IH.
Qed.

Lemma rtrim_bracket (s : string) : rtrim (s ++ "]") = s ++ "]".
Proof.
  induction s as [|c s IH]; [reflexivity|].
  change (String c s ++ "]") with (String c (s ++ "]")).
  rewrite rtrim_cons_kept; rewrite IH; [reflexivity|]. destruct s; discriminate.
Qed.

Lemma bracketed_written (tag name : string) :
  bracketed tag ("[" ++ tag ++ ": " ++ name ++ "]") = Some (trim name).
Proof.
  unfold bracketed.
  assert (Hstrip : ∀ p rest, strip_prefix p (p ++ rest) = Some rest).
  { induction p as [|c p IHp]; intros rest; [destruct rest; reflexivity|].
    change (String c p ++ rest) with (String c (p ++ rest)). cbn [strip_prefix].
    rewrite Ascii.eqb_refl. apply IHp. }
  replace ("[" ++ tag ++ ": " ++ name ++ "]")
    with (("[" ++ tag ++ ":") ++ (String " " name ++ "]")).
  2:{ change ("[" ++ tag ++ ":") with (String "[" (tag ++ ":")).
      change ("[" ++ tag ++ ": " ++ name ++ "]") with (String "[" (tag ++ ": " ++ name ++ "]")).
      change (String "[" (tag ++ ":") ++ (String " " name ++ "]"))
        with (String "[" ((tag ++ ":") ++ (String " " name ++ "]"))).
      f_equal. induction tag as [|c tag IHt]; [reflexivity|].
      change (String c tag ++ ":") with (String c (tag ++ ":")).
      change (String c tag ++ ": " ++ name ++ "]") with (String c (tag ++ ": " ++ name ++ "]")).
      change (String c (tag ++ ":") ++ (String " " name ++ "]"))
        with (String c ((tag ++ ":") ++ (String " " name ++ "]"))).
      f_equal. exact IHt. }
  rewrite Hstrip, last_char_bracket, Ascii.eqb_refl, substring_before_bracket.
  reflexivity.
Qed.


Lemma ltrim_cons (c : ascii) (s : string) :
  is_space c = false → ltrim (String c s) = String c s.
Proof. intros Hc. cbn [ltrim]. rewrite Hc. reflexivity. Qed.

Lemma rtrim_closed (a s : string) : rtrim (a ++ s ++ "]") = a ++ s ++ "]".
Proof.
  induction a as [|c a IH]; [apply rtrim_bracket|].
  change (String c a ++ s ++ "]") with (String c (a ++ s ++ "]")).
  rewrite rtrim_cons_kept; rewrite IH; [reflexivity|].
  destruct a; [destruct s|]; discriminate.
Qed.

(** A marker line has no blanks around it to trim. *)
Lemma trim_cue (tag name : string) :
  trim ("[" ++ tag ++ ": " ++ name ++ "]") = "[" ++ tag ++ ": " ++ name ++ "]".
Proof.
  unfold trim.
  change ("[" ++ tag ++ ": " ++ name ++ "]") with (String "[" (tag ++ ": " ++ name ++ "]")).
  rewrite ltrim_cons by reflexivity.
  rewrite rtrim_cons_kept.
  - f_equal. induction tag as [|c tag IH].
    + change ("" ++ ": " ++ name ++ "]") with (": " ++ name ++ "]"). apply rtrim_closed.
    + change (String c tag ++ ": " ++ name ++ "]")
        with (String c (tag ++ ": " ++ name ++ "]")).
      rewrite rtrim_cons_kept; rewrite IH; [reflexivity|]. destruct tag; discriminate.
  - induction tag as [|c tag IH].
    + change ("" ++ ": " ++ name ++ "]") with (": " ++ name ++ "]").
      rewrite rtrim_closed. discriminate.
    + change (String c tag ++ ": " ++ name ++ "]")
        with (String c (tag ++ ": " ++ name ++ "]")).
      rewrite rtrim_cons_kept by exact IH. discriminate.
Qed.

Lemma bracketed_other (tag : string) (c : ascii) (s : string) :
  Ascii.eqb "[" c = false → bracketed tag (String c s) = None.
Proof.
  intros Hc. unfold bracketed.
  change ("[" ++ tag ++ ":") with (String "[" (tag ++ ":")).
  cbn [strip_prefix]. rewrite Hc. reflexivity.
Qed.

(** The parser on a line written by the format: the segment it makes is
    the one the line stands for. *)
Lemma classify_written (l : body_line) (n : nat) :
  valid_line l → segment_of n (classify (write_line l)) = segment_for n l.
Proof.
  destruct l as [who what | name | name | title |]; intros Hvalid; cbn [write_line].
  - unfold valid_line in Hvalid. pose proof Hvalid as Hid.
    unfold valid_speaker_id in Hid. apply andb_true_iff in Hid as [Hne Hall].
    destruct who as [|c who]; [discriminate Hne|].
    cbn [all_id_chars] in Hall. apply andb_true_iff in Hall as [Hc Hall].
    destruct (id_char_facts c Hc) as (Hspace & Hcolon & Hbracket & Hhash).
    assert (Htrim : trim (String c who ++ ": " ++ what)
                    = String c who ++ String ":" (rtrim (String " " what))).
    { unfold trim.
      change (String c who ++ ": " ++ what) with (String c (who ++ ": " ++ what)).
      rewrite ltrim_cons by exact Hspace.
      change (String c (who ++ ": " ++ what))
        with (String c who ++ String ":" (String " " what)).
      rewrite rtrim_id_prefix.
      - rewrite rtrim_cons by reflexivity. reflexivity.
      - cbn [all_id_chars]. rewrite Hc, Hall. reflexivity.
      - discriminate.
      - rewrite rtrim_cons by reflexivity. discriminate. }
    unfold classify. rewrite Htrim.
    rewrite (split_speaker_written (String c who) _ Hvalid).
    change (String c who ++ String ":" (rtrim (String " " what)))
      with (String c (who ++ String ":" (rtrim (String " " what)))).
    rewrite !(bracketed_other _ _ _ Hbracket).
    cbn [String.eqb String.prefix].
    destruct (ascii_dec "#" c) as [<-|_]; [discriminate Hhash|].
    rewrite trim_after_colon. reflexivity.
  - unfold classify.
    change ("[sound_effect: " ++ name ++ "]") with ("[" ++ "sound_effect" ++ ": " ++ name ++ "]").
    rewrite (trim_cue "sound_effect" name).
    rewrite (bracketed_written "sound_effect" name). reflexivity.
  - unfold classify.
    change ("[music_cue: " ++ name ++ "]") with ("[" ++ "music_cue" ++ ": " ++ name ++ "]").
    rewrite (trim_cue "music_cue" name).
    rewrite (bracketed_written "music_cue" name). reflexivity.
  - unfold classify, trim.
    change ("## " ++ title) with (String "#" (String "#" (String " " title))).
    rewrite ltrim_cons by reflexivity. rewrite !rtrim_cons by reflexivity.
    assert (Hp : ∀ r, String.prefix "##" (String "#" (String "#" r)) = true)
      by (intros r; destruct r; reflexivity).
    rewrite Hp. reflexivity.
  - reflexivity.
Qed.


Lemma body_of_written (frontmatter : list string) (body : list body_line) :
  Forall (fun l => trim l ≠ "---") frontmatter →
  body_of (write_script frontmatter body) = write_line <$> body.
Proof.
  intros Hfm. unfold write_script, body_of.
  change (String.eqb (trim "---") "---") with true. cbn match.
  induction frontmatter as [|l fm IH]; cbn [app after_delimiter].
  - change (String.eqb (trim "---") "---") with true. reflexivity.
  - apply Forall_cons in Hfm as [Hl Hfm].
    destruct (String.eqb_spec (trim l) "---"); [contradiction | apply IH, Hfm].
Qed.

Lemma parse_body_written (body : list body_line) (next : nat) :
  Forall valid_line body →
  parse_body next (write_line <$> body) = expected_segments next body.
Proof.
  intros Hvalid. revert next.
  induction Hvalid as [|l body Hl _ IH]; intros next; [reflexivity|].
  cbn [fmap list_fmap parse_body expected_segments].
  change (list_fmap body_line string write_line body) with (write_line <$> body).
  rewrite (classify_written l next Hl).
  destruct (segment_for next l); rewrite IH; reflexivity.
Qed.

Lemma segment_for_kind (l : body_line) (n : nat) :
  match segment_for n l with
  | Some seg => is_marker_segment seg = is_cue l ∧ is_dialogue l = negb (is_cue l)
  | None => is_dialogue l = false ∧ is_cue l = false
  end.
Proof. destruct l; split; reflexivity. Qed.

Lemma expected_segments_count (body : list body_line) (next : nat) :
  length (expected_segments next body) = (text_count body + marker_count body)%nat ∧
  length (filter (fun s => is_marker_segment s = true) (expected_segments next body))
    = marker_count body.
Proof.
  unfold text_count, marker_count. revert next.
  induction body as [|l body IH]; intros next; [split; reflexivity|].
  rewrite !filter_cons. cbn [expected_segments].
  pose proof (segment_for_kind l next) as Hkind.
  destruct (segment_for next l) as [seg|].
  - destruct Hkind as [Hm Hd]. destruct (IH (S next)) as [IH1 IH2].
    rewrite filter_cons, Hm, Hd. cbn [length].
    destruct (is_cue l); cbn [negb];
      destruct (decide (true = true)) as [_|Hn]; try (exfalso; apply Hn; reflexivity);
      destruct (decide (false = true)) as [Hn|_]; try discriminate Hn;
      cbn [length]; rewrite IH1, ?IH2; split; lia.
  - destruct Hkind as [-> ->].
    destruct (decide (false = true)) as [Hn|_]; [discriminate Hn | apply IH].
Qed.

Lemma expected_segments_order (body : list body_line) (next i : nat)
    (seg : PodcastSegment) :
  expected_segments next body !! i = Some seg → segment_order seg = (next + i)%nat.
Proof.
  revert next i. induction body as [|l body IH]; intros next i; cbn [expected_segments].
  - rewrite lookup_nil. discriminate.
  - destruct (segment_for next l) as [s|] eqn:Hs; [|apply IH].
    destruct i as [|i]; cbn.
    + intros [= <-]. destruct l; cbn in Hs; try discriminate Hs;
        injection Hs as <-; cbn; lia.
    + intros H. apply IH in H. lia.
Qed.

Lemma expected_segments_pending (body : list body_line) (next : nat) :
  Forall (fun s => status s = pending) (expected_segments next body).
Proof.
  revert next. induction body as [|l body IH]; intros next; cbn [expected_segments].
  - constructor.
  - destruct l; cbn [segment_for]; try apply IH; constructor; try reflexivity; apply IH.
Qed.


Lemma expected_segments_markers (body : list body_line) (next : nat) :
  omap marker_of (expected_segments next body) = cues body.
Proof.
  unfold cues. revert next.
  induction body as [|l body IH]; intros next; [reflexivity|].
  destruct l; cbn [expected_segments segment_for omap list_omap cue_of];
    unfold marker_of at 1; cbn [seg_marker_type marker_value default];
    try (f_equal; apply IH); apply IH.
Qed.

Section RunFacts.
Variable synthesize : PodcastSegment → nat → option string.

Lemma process_voice seg rest p audio :
  status seg = pending → seg_marker_type seg = text →
  attempts synthesize seg 1 max_attempts = Some audio →
  process synthesize (seg :: rest) p = process synthesize rest (after_voice seg audio p).
Proof. intros Hs Hk Ha. cbn [process]. rewrite Hs, Hk, Ha. reflexivity. Qed.

Lemma process_voice_failed seg rest p :
  status seg = pending → seg_marker_type seg = text →
  attempts synthesize seg 1 max_attempts = None →
  state (process synthesize (seg :: rest) p) = pipeline_error.
Proof. intros Hs Hk Ha. cbn [process]. rewrite Hs, Hk, Ha. reflexivity. Qed.

Lemma process_marker seg rest p :
  status seg = pending → seg_marker_type seg ≠ text →
  process synthesize (seg :: rest) p = process synthesize rest (after_marker seg p).
Proof.
  intros Hs Hk. cbn [process]. rewrite Hs. unfold after_marker.
  destruct (seg_marker_type seg); [contradiction|reflexivity..].
Qed.

Lemma after_voice_well_formed seg audio p :
  well_formed p → well_formed (after_voice seg audio p).
Proof.
  intros Hwf. split; simpl.
  - intros i g Hl. apply lookup_snoc_Some in Hl as [[_ Hl] | [-> <-]];
      [apply Hwf, Hl | reflexivity].
  - intros it g Hin Hg. rewrite length_app. simpl.
    apply elem_of_app in Hin as [Hin | Hin].
    + pose proof (items_have_audio _ Hwf _ _ Hin Hg). lia.
    + apply list_elem_of_singleton in Hin. subst it. simpl in Hg.
      injection Hg as <-. lia.
Qed.

Lemma after_marker_well_formed seg p :
  well_formed p → well_formed (after_marker seg p).
Proof.
  intros Hwf. split; simpl; [apply Hwf|].
  intros it g Hin Hg. apply elem_of_app in Hin as [Hin | Hin].
  - apply (items_have_audio _ Hwf _ _ Hin Hg).
  - apply list_elem_of_singleton in Hin. subst it. discriminate Hg.
Qed.

Lemma process_completed (todo : list PodcastSegment) (p : project) :
  Forall (fun s => status s = pending) todo → well_formed p →
  state (process synthesize todo p) = pipeline_completed →
  length (story (process synthesize todo p)) = (length (story p) + length todo)%nat ∧
  length (marker_items (story (process synthesize todo p)))
    = (length (marker_items (story p))
       + length (filter (fun s => is_marker_segment s = true) todo))%nat ∧
  completed_count (process synthesize todo p) = (completed_count p + length todo)%nat ∧
  failed_count (process synthesize todo p) = failed_count p ∧
  well_formed (process synthesize todo p).
Proof.
  revert p. induction todo as [|seg rest IH]; intros p Hpend Hwf Hdone.
  - simpl. rewrite !Nat.add_0_r. repeat split; apply Hwf.
  - apply Forall_cons in Hpend as [Hseg Hrest]. rewrite filter_cons.
    destruct (decide (seg_marker_type seg = text)) as [Hkind | Hkind].
    + assert (Hm : is_marker_segment seg = false)
        by (unfold is_marker_segment; rewrite bool_decide_eq_true_2; done).
      rewrite Hm.
      destruct (attempts synthesize seg 1 max_attempts) as [audio|] eqn:Hatt.
      * rewrite (process_voice _ _ _ _ Hseg Hkind Hatt) in Hdone |- *.
        apply IH in Hdone as (H1 & H2 & H3 & H4 & H5);
          [|exact Hrest | apply after_voice_well_formed, Hwf].
        simpl in H1, H2, H3, H4. unfold marker_items in H2 |- *.
        rewrite filter_app, length_app in H2. rewrite length_app in H1.
        simpl in H1, H2 |- *.
        split; [lia | split; [lia | split; [lia | split; [exact H4 | exact H5]]]].
      * rewrite (process_voice_failed _ _ _ Hseg Hkind Hatt) in Hdone. discriminate.
    + assert (Hm : is_marker_segment seg = true)
        by (unfold is_marker_segment; rewrite bool_decide_eq_false_2; done).
      rewrite Hm.
      rewrite (process_marker _ _ _ Hseg Hkind) in Hdone |- *.
      apply IH in Hdone as (H1 & H2 & H3 & H4 & H5);
        [|exact Hrest | apply after_marker_well_formed, Hwf].
      simpl in H1, H2, H3, H4. unfold marker_items in H2 |- *.
      rewrite filter_app, length_app in H2. rewrite length_app in H1.
      simpl in H1, H2 |- *.
      split; [lia | split; [lia | split; [lia | split; [exact H4 | exact H5]]]].
Qed.

(** A backend that succeeds within the allowed attempts completes the run. *)
Lemma process_completes (todo : list PodcastSegment) (p : project) :
  (∀ seg, is_Some (attempts synthesize seg 1 max_attempts)) →
  state (process synthesize todo p) = pipeline_completed.
Proof.
  intros Hok. revert p. induction todo as [|seg rest IH]; intros p; [reflexivity|].
  cbn [process]. destruct (bool_decide (status seg = completed)); [apply IH|].
  destruct (seg_marker_type seg); [|apply IH..].
  destruct (Hok seg) as [audio ->]. apply IH.
Qed.
Lemma process_story_markers (todo : list PodcastSegment) (p : project) :
  Forall (fun s => status s = pending) todo →
  state (process synthesize todo p) = pipeline_completed →
  omap item_marker (story (process synthesize todo p))
  = (omap item_marker (story p) ++ omap marker_of todo)%list.
Proof.
  revert p. induction todo as [|seg rest IH]; intros p Hpend Hdone.
  - cbn. rewrite app_nil_r. reflexivity.
  - apply Forall_cons in Hpend as [Hseg Hrest].
    destruct (decide (seg_marker_type seg = text)) as [Hkind | Hkind].
    + destruct (attempts synthesize seg 1 max_attempts) as [audio|] eqn:Hatt.
      * rewrite (process_voice _ _ _ _ Hseg Hkind Hatt) in Hdone |- *.
        rewrite (IH _ Hrest Hdone). cbn [story after_voice].
        rewrite omap_app. cbn [omap list_omap item_marker]. unfold marker_of at 2.
        rewrite Hkind, app_nil_r. reflexivity.
      * rewrite (process_voice_failed _ _ _ Hseg Hkind Hatt) in Hdone.
        discriminate Hdone.
    + rewrite (process_marker _ _ _ Hseg Hkind) in Hdone |- *.
      rewrite (IH _ Hrest Hdone). cbn [story after_marker].
      rewrite omap_app, <- app_assoc. cbn [omap list_omap item_marker app].
      unfold marker_of at 2. destruct (seg_marker_type seg); [contradiction|..]; reflexivity.
Qed.
End RunFacts.

Lemma find_generation_found (gens : list Generation) (g : nat) :
  (∀ i x, gens !! i = Some x → gen_id x = i) → (g < length gens)%nat →
  is_Some (find_generation gens g).
Proof.
  intros Hids Hlt. unfold find_generation.
  destruct (find (fun x => Nat.eqb (gen_id x) g) gens) eqn:Hf; [eauto|].
  destruct (lookup_lt_is_Some_2 gens g Hlt) as [x Hx].
  pose proof (find_none _ _ Hf x) as Hnone. simpl in Hnone.
  rewrite (Hids _ _ Hx), Nat.eqb_refl in Hnone.
  discriminate Hnone. apply list_elem_of_In. eapply list_elem_of_lookup_2, Hx.
Qed.

(** An inner join keeps the voice items only. *)
Lemma inner_join_drops_markers (items : list StoryItem) (gens : list Generation) :
  (∀ i x, gens !! i = Some x → gen_id x = i) →
  (∀ it g, it ∈ items → item_generation it = Some g → (g < length gens)%nat) →
  (length (inner_join items gens) + length (marker_items items))%nat = length items.
Proof.
  intros Hids. unfold inner_join, marker_items.
  induction items as [|it items IH]; intros Hlt; [reflexivity|].
  rewrite filter_cons. cbn [omap list_omap].
  assert (Hrest : ∀ it' g, it' ∈ items → item_generation it' = Some g →
                          (g < length gens)%nat)
    by (intros it' g Hin; apply Hlt; right; exact Hin).
  specialize (IH Hrest).
  destruct (item_generation it) as [g|] eqn:Hg; simpl.
  - destruct (find_generation_found gens g Hids) as [x ->];
      [apply (Hlt it); [left | exact Hg]|].
    simpl. f_equal. exact IH.
  - rewrite Nat.add_succ_r. f_equal. exact IH.
Qed.

Lemma outer_join_keeps_all (items : list StoryItem) (gens : list Generation) :
  fst <$> outer_join items gens = items.
Proof.
  unfold outer_join.
  induction items as [|it items IH]; [reflexivity|]. simpl. f_equal. exact IH.
Qed.

(** C2: a script written with N dialogue lines and M marker lines (and any
    headers and blank lines between them) parses into exactly N+M
    segments, the ones its lines stand for, numbered 0, 1, ... in
    document order; a run in which every synthesis succeeds within the
    attempts allowed completes; and when the run of that project has
    completed, the timeline retrieved for export by the outer join holds
    all N+M story items, the M marker items among them, each with the
    kind and the name the script gave it, where an inner join would hold
    the N voice items only. *)
Theorem markers_survive_to_export (synthesize : PodcastSegment → nat → option string)
    (frontmatter : list string) (body : list body_line) :
  Forall (fun l => trim l ≠ "---") frontmatter →
  Forall valid_line body →
  let lines := write_script frontmatter body in
  let p := start synthesize (create lines) in
  parse_script lines = expected_segments 0 body ∧
  length (parse_script lines) = (text_count body + marker_count body)%nat ∧
  (∀ i seg, parse_script lines !! i = Some seg → segment_order seg = i) ∧
  ((∀ seg, is_Some (attempts synthesize seg 1 max_attempts)) →
     state p = pipeline_completed) ∧
  (state p = pipeline_completed →
     length (exported_timeline p) = (text_count body + marker_count body)%nat ∧
     fst <$> exported_timeline p = story p ∧
     omap item_marker (story p) = cues body ∧
     length (marker_items (story p)) = marker_count body ∧
     length (inner_join (story p) (generations p)) = text_count body).
Proof.
  intros Hfm Hbody lines p.
  assert (Hparse : parse_script lines = expected_segments 0 body).
  { unfold parse_script, lines. rewrite (body_of_written _ _ Hfm).
    apply parse_body_written, Hbody. }
  destruct (expected_segments_count body 0) as (Hlen & Hmark).
  split; [exact Hparse|]. rewrite Hparse.
  split; [exact Hlen|].
  split; [intros i seg H; apply expected_segments_order in H; exact H|].
  split; [intros Hok; apply process_completes, Hok|].
  intros Hdone. unfold p, start, create in Hdone |- *.
  cbn [segments generations story completed_count failed_count] in Hdone |- *.
  rewrite Hparse in Hdone |- *.
  pose proof (process_story_markers synthesize _ _ (expected_segments_pending body 0) Hdone)
    as Hcues.
  apply process_completed in Hdone as (H1 & H2 & _ & _ & Hwf);
    [|apply expected_segments_pending
     |split; simpl; intros *; [rewrite lookup_nil | rewrite elem_of_nil]; done].
  simpl in H1, H2. rewrite Hlen in H1. rewrite Hmark in H2.
  unfold exported_timeline, outer_join at 1. rewrite length_fmap.
  split; [exact H1|]. split; [apply outer_join_keeps_all|].
  split; [rewrite Hcues; apply expected_segments_markers|].
  split; [exact H2|].
  pose proof (inner_join_drops_markers _ _ (ids_are_positions _ Hwf)
                (items_have_audio _ Hwf)) as Hinner.
  lia.
Qed.

Lemma markers_survive_to_export_witness :
  let p := start third_time_lucky (create (write_script sample_frontmatter sample_body)) in
  length (exported_timeline p) = 5 ∧
  omap item_marker (story p) = [(sound_effect, "applause"); (music_cue, "outro")] ∧
  length (inner_join (story p) (generations p)) = 3.
Proof.
  destruct (markers_survive_to_export third_time_lucky sample_frontmatter sample_body)
    as (_ & _ & _ & _ & Hrun).
  - repeat constructor; discriminate.
  - repeat constructor.
  - destruct (Hrun eq_refl) as (H1 & _ & H2 & _ & H3).
    split; [exact H1 | split; [exact H2 | exact H3]].
Defined.

End BackendFacts.

(** ** The setup script *)

Module SetupFacts.
Import Setup SetupSpec.

Ltac branch x := destruct x; try reflexivity.

Ltac open_env e :=
  destruct e as [py skip vex rd reply rm src venv pu pi cu ie db dirs];
  cbn [python3_version SKIP_VENV_inherited venv_dir_exists read_status REPLY rm_status
       source_status venv_status pip_upgrade pip_install cuda import_error database
       directories] in *.

(** The exit status is zero exactly when every command succeeded. *)
Lemma exit_status_commands (e : env) : Nat.eqb (exit_status e) 0 = commands_ok e.
Proof.
  unfold exit_status, setup_linux, commands_ok, programs_ok, venv_phase_ok, reuses_venv,
    initial, script.
  open_env e.
  generalize (cuda_program cu) (imports_program ie) (database_program db)
             (directories_program dirs).
  intros [cl cs] [il is_] [dl ds] [rl rs].
  generalize (String.eqb reply "y") (String.eqb reply "Y"). intros ry rY.
  branch py. branch vex.
  all: branch rd. all: branch ry. all: branch rY. all: branch rm. all: branch src.
  all: branch skip. all: branch venv. all: branch pu. all: branch pi.
  all: branch cs. all: branch is_. all: branch ds. all: branch rs.
Qed.

(** A failed [pip install] ends the run before anything later is printed. *)
Lemma nothing_after_failed_install (e : env) :
  pip_install e ≠ 0 → printed_after_install e = false.
Proof.
  unfold printed_after_install, output, setup_linux, initial, script.
  open_env e. intros Hpi. destruct pi as [|pi]; [contradiction|]. clear Hpi.
  generalize (String.eqb reply "y") (String.eqb reply "Y"). intros ry rY.
  branch py. branch vex.
  all: branch rd. all: branch ry. all: branch rY. all: branch rm. all: branch src.
  all: branch skip. all: branch venv. all: branch pu.
Qed.

Lemma cuda_program_status c : (cuda_program c).2 = 0 ↔ c ≠ CudaCrash.
Proof. destruct c; simpl; split; congruence. Qed.

Lemma directories_program_status d : (directories_program d).2 = 0 ↔ d ≠ DirsCrash.
Proof. destruct d; simpl; split; congruence. Qed.

Lemma imports_program_status (ie : string → option string) :
  (imports_program ie).2
  = if forallb (fun m => bool_decide (ie m = None)) imported_modules then 0 else 1.
Proof.
  unfold imports_program, imported_modules, import_blocks, try_import.
  cbn [fmap list_fmap fst snd forallb].
  destruct (ie "fastapi"), (ie "sqlalchemy"), (ie "yaml"), (ie "torch"), (ie "librosa"),
    (ie "soundfile"), (ie "backend"); reflexivity.
Qed.

Lemma imports_program_ok (ie : string → option string) :
  (imports_program ie).2 = 0 ↔ ∀ m, m ∈ imported_modules → ie m = None.
Proof.
  rewrite imports_program_status.
  destruct (forallb _ imported_modules) eqn:Hall.
  - split; [intros _ | reflexivity].
    rewrite forallb_forall in Hall. intros m Hm.
    apply list_elem_of_In, Hall, bool_decide_eq_true in Hm. exact Hm.
  - split; [discriminate|]. intros H. exfalso.
    assert (forallb (fun m => bool_decide (ie m = None)) imported_modules = true); [|congruence].
    apply forallb_forall. intros m Hm. apply bool_decide_eq_true, H, list_elem_of_In, Hm.
Qed.

Lemma missing_tables_nil (tables : list string) :
  missing_tables tables = [] ↔ ∀ t, t ∈ required_tables → t ∈ tables.
Proof.
  unfold missing_tables, required_tables. rewrite !filter_cons, filter_nil.
  split.
  - intros H t. rewrite !elem_of_cons. intros [-> | [-> | Hn]]; [..| inversion Hn].
    + destruct (decide ("podcast_projects" ∉ tables)) as [|Hin]; [discriminate|].
      destruct (decide ("podcast_projects" ∈ tables)); tauto.
    + destruct (decide ("podcast_segments" ∉ tables)) as [|Hin];
        [destruct (decide ("podcast_projects" ∉ tables)); discriminate|].
      destruct (decide ("podcast_segments" ∈ tables)); tauto.
  - intros H.
    rewrite decide_False by (intros Hn; apply Hn, H; rewrite !elem_of_cons; tauto).
    rewrite decide_False by (intros Hn; apply Hn, H; rewrite !elem_of_cons; tauto).
    reflexivity.
Qed.

(** The database program, when a required table is missing: one labelled
    line and status 1. *)
Lemma database_program_missing tables close_error :
  missing_tables tables ≠ [] →
  database_program (DbTables tables close_error)
  = (["❌ Missing database tables: " ++ py_list (missing_tables tables)], 1).
Proof.
  intros H. unfold database_program. destruct (missing_tables tables); [contradiction|].
  reflexivity.
Qed.

Lemma database_program_ok d :
  (database_program d).2 = 0 ↔
  ∃ tables, d = DbTables tables None ∧ ∀ t, t ∈ required_tables → t ∈ tables.
Proof.
  split.
  - destruct d as [| msg | tables close_error]; unfold database_program;
      [intros H; discriminate H | intros H; discriminate H |].
    destruct (missing_tables tables) eqn:Hm; [|intros H; discriminate H].
    destruct close_error; [intros H; discriminate H|].
    intros _. exists tables. split; [reflexivity | apply missing_tables_nil, Hm].
  - intros (tables & -> & Hreq). unfold database_program.
    rewrite (proj2 (missing_tables_nil tables) Hreq). reflexivity.
Qed.

Lemma commands_ok_fatal (e : env) : commands_ok e = true ↔ fatal_steps_ok e.
Proof.
  unfold commands_ok, programs_ok, fatal_steps_ok.
  rewrite !andb_true_iff, !Nat.eqb_eq.
  rewrite cuda_program_status, imports_program_ok, database_program_ok,
    directories_program_status.
  tauto.
Qed.

(** When the run reaches the database check and a required table is
    missing, the labelled line is the last thing printed and the status
    is 1. *)
Lemma missing_tables_reported (e : env) tables close_error :
  reaches_database e = true →
  database e = DbTables tables close_error →
  missing_tables tables ≠ [] →
  exit_status e = 1 ∧
  ∃ before,
    output e
    = (before ++ [("❌ Missing database tables: " ++ py_list (missing_tables tables))%string])%list.
Proof.
  intros Hreach Hdb Hmiss.
  unfold exit_status, output, setup_linux, initial, script.
  unfold reaches_database, venv_phase_ok, reuses_venv in Hreach.
  rewrite !andb_true_iff, !Nat.eqb_eq in Hreach.
  destruct Hreach as (((((Hpy & Hread & Hvenv) & Hpu) & Hpi) & Hcs) & His).
  open_env e. subst db py pu pi. rewrite (database_program_missing _ _ Hmiss).
  destruct (cuda_program cu) as [cl cs], (imports_program ie) as [il is_].
  cbn [snd] in Hcs, His. subst cs is_.
  generalize (directories_program dirs). intros [rl rs].
  generalize dependent (String.eqb reply "y"). generalize dependent (String.eqb reply "Y").
  intros rY ry Hread Hvenv.
  destruct vex, ry, rY; cbn in Hread, Hvenv;
    repeat match type of Hread with
           | context [Nat.eqb ?x 0] =>
               is_var x; destruct x; cbn in Hread; try discriminate Hread
           end;
    repeat match type of Hvenv with
           | context [String.eqb ?x ""] => is_var x; destruct x; cbn in Hvenv
           | context [Nat.eqb ?x 0] =>
               is_var x; destruct x; cbn in Hvenv; try discriminate Hvenv
           end.
  all: (split; [reflexivity | eexists; lazy -[app]; reflexivity]).
Qed.

Lemma exit_status_fatal (e : env) : exit_status e = 0 ↔ fatal_steps_ok e.
Proof.
  rewrite <- commands_ok_fatal, <- exit_status_commands. symmetry. apply Nat.eqb_eq.
Qed.

(** What the script does keep of C5: it ends with status 0 exactly when
    every step other than the creation of data directories succeeds
    (version check, virtual environment, pip upgrade, dependency install,
    CUDA probe, import verification, database check, start of the
    directory check); in particular a failed dependency install gives a
    non-zero status and nothing of the later steps is printed; and a
    database that lacks one of [podcast_projects], [podcast_segments]
    gives a non-zero status, which is 1 after the line
    [Missing database tables] when the run gets as far as the database
    check. *)
Theorem setup_stops_at_fatal_failure (e : env) :
  (exit_status e = 0 ↔ fatal_steps_ok e) ∧
  (pip_install e ≠ 0 →
     exit_status e ≠ 0 ∧ ∀ l, l ∈ lines_after_install → l ∉ output e) ∧
  (∀ tables close_error,
     database e = DbTables tables close_error →
     (∃ t, t ∈ required_tables ∧ t ∉ tables) →
     exit_status e ≠ 0 ∧
     (reaches_database e = true →
        exit_status e = 1 ∧
        ∃ before,
          output e
          = (before ++ [("❌ Missing database tables: "
                          ++ py_list (missing_tables tables))%string])%list)).
Proof.
  split; [apply exit_status_fatal|]. split.
  - intros Hpi. split.
    + rewrite exit_status_fatal. intros (_ & _ & _ & H & _). contradiction.
    + intros l Hl Hout. pose proof (nothing_after_failed_install e Hpi) as Hnone.
      unfold printed_after_install in Hnone.
      assert (existsb (fun l => existsb (String.eqb l) lines_after_install) (output e) = true);
        [|congruence].
      apply existsb_exists. exists l. split; [apply list_elem_of_In, Hout|].
      apply existsb_exists. exists l. split; [apply list_elem_of_In, Hl|].
      apply String.eqb_refl.
  - intros tables close_error Hdb (t & Hreq & Hmissing).
    assert (Hne : missing_tables tables ≠ []).
    { intros Hnil. apply Hmissing. apply (proj1 (missing_tables_nil tables) Hnil), Hreq. }
    split.
    + rewrite exit_status_fatal. intros (_ & _ & _ & _ & _ & _ & (tables' & Hdb' & Hall) & _).
      rewrite Hdb in Hdb'. injection Hdb' as <- _. apply Hmissing, Hall, Hreq.
    + intros Hreach. apply (missing_tables_reported e tables close_error Hreach Hdb Hne).
Qed.

Example setup_stops_at_fatal_failure_sample :
  exit_status broken_requirements ≠ 0 ∧
  ("✓ All dependencies installed" ∉ output broken_requirements) ∧
  exit_status old_schema = 1.
Proof.
  destruct (setup_stops_at_fatal_failure broken_requirements) as (_ & Hpip & _).
  destruct (Hpip ltac:(discriminate)) as (Hexit & Hquiet).
  destruct (setup_stops_at_fatal_failure old_schema) as (_ & _ & Hdb).
  destruct (Hdb ["profiles"; "podcast_projects"] None eq_refl) as (_ & Hreported).
  { exists "podcast_segments". split; [right; left|].
    rewrite !not_elem_of_cons. repeat split; try discriminate. apply not_elem_of_nil. }
  split; [exact Hexit|]. split.
  - apply Hquiet. left.
  - apply Hreported. reflexivity.
Qed.

(** C5 fails on the code: when [pip install -r requirements.txt] fails,
    the script does stop there with a status other than 0, but without
    an error label: the last line written is the announcement of the
    install, and the [echo] of [Failed to install dependencies] that
    follows the command is never reached, [set -e] having ended the
    script at the command itself. *)
Theorem failed_install_exits_unlabelled :
  pip_install broken_requirements ≠ 0 ∧
  exit_status broken_requirements = 1 ∧
  last (output broken_requirements) = Some "Installing Python dependencies..." ∧
  (∀ l, l ∈ output broken_requirements → is_error_label l = false) ∧
  ¬ exits_with_labelled_error broken_requirements.
Proof.
  assert (Hnone : ∀ l, l ∈ output broken_requirements → is_error_label l = false).
  { intros l Hl. apply list_elem_of_In in Hl.
    assert (Hall : forallb (fun l => negb (is_error_label l)) (output broken_requirements)
                   = true) by (vm_compute; reflexivity).
    rewrite forallb_forall in Hall. apply negb_true_iff, Hall, Hl. }
  split; [discriminate|]. split; [reflexivity|]. split; [vm_compute; reflexivity|].
  split; [exact Hnone|].
  intros (_ & l & Hl & Hlabel). rewrite (Hnone l Hl) in Hlabel. discriminate Hlabel.
Qed.

End SetupFacts.

(* ===================================================================== *)
(** * Further properties of the hooks, the views and the setup script      *)
(* ===================================================================== *)

Module HookOperationsFacts.
Import Js Http PodcastProjectHook HookOperations.

Lemma replace_segment_spec (segmentId : string) (replacement : value)
    (items : list value) :
  Forall (fun s => is_Some (get_prop s "id")) items →
  ∃ items', replace_segment segmentId replacement items = Some items' ∧
    length items' = length items ∧
    ∀ i s, items !! i = Some s →
      items' !! i = Some (if is_str (get_prop_opt s "id") segmentId then replacement else s).
Proof.
  induction items as [|s rest IH]; intros Hall.
  - exists []. repeat split. intros i s Hl. rewrite lookup_nil in Hl. discriminate.
  - apply Forall_cons in Hall as [[v Hv] Hrest].
    destruct (IH Hrest) as (rest' & Hr & Hlen & Hat).
    simpl. rewrite Hv, Hr. eexists. split; [reflexivity|]. split; [simpl; congruence|].
    intros [|i] s' Hl; simpl in Hl |- *.
    + injection Hl as <-. unfold get_prop_opt. rewrite Hv. reflexivity.
    + apply Hat, Hl.
Qed.

Lemma replace_segment_null (segmentId : string) (replacement : value)
    (items : list value) :
  Exists (fun s => get_prop s "id" = None) items →
  replace_segment segmentId replacement items = None.
Proof.
  induction 1 as [s rest Hs | s rest _ IH]; simpl.
  - rewrite Hs. reflexivity.
  - destruct (get_prop s "id"); [|reflexivity]. rewrite IH. reflexivity.
Qed.

(** X1: with a project loaded whose segments are objects, a resolved
    [updateSegment] puts the returned segment in the place of every
    segment with the given id, keeps every other segment where it was
    (so the number of segments is the same), and leaves every other
    property of the project alone. *)
Theorem updateSegment_replaces_matching (pid segmentId : string) (p : object)
    (items : list value) (data segment : value) (w : world) :
  p !! "segments" = Some (Arr items) →
  Forall (fun s => is_Some (get_prop s "id")) items →
  let '(es, c) := updateSegment pid (Some p) segmentId data (inl segment) in
  c = Returned segment ∧
  ∃ p' items',
    project (hook (apply_effects es w)) = Some p' ∧
    p' !! "segments" = Some (Arr items') ∧
    length items' = length items ∧
    (∀ i s, items !! i = Some s →
       items' !! i
       = Some (if is_str (get_prop_opt s "id") segmentId then segment else s)) ∧
    (∀ k, k ≠ "segments" → p' !! k = p !! k).
Proof.
  intros Hseg Hall. unfold updateSegment, field. rewrite Hseg. simpl.
  destruct (replace_segment_spec segmentId segment items Hall) as (items' & -> & Hlen & Hat).
  split; [reflexivity|]. eexists _, items'. split; [reflexivity|].
  split; [apply lookup_insert_eq|]. split; [exact Hlen|]. split; [exact Hat|].
  intros k Hk. apply lookup_insert_ne. congruence.
Qed.

Lemma updateSegment_replaces_matching_witness :
  ∃ p', project (hook (apply_effects
                         (updateSegment "7" (Some sample_loaded) "s1" (Obj ∅)
                            (inl sample_updated)).1 StreamSamples.sample_world)) = Some p' ∧
        p' !! "segments"
        = Some (Arr [Obj (<["id" := Str "s0"]> (<["model_size" := Str "1.7B"]> ∅));
                     sample_updated;
                     Obj (<["id" := Str "s2"]> (<["model_size" := Str "1.7B"]> ∅))]) ∧
        p' !! "name" = Some (Str "Episode").
Proof.
  pose proof (updateSegment_replaces_matching "7" "s1" sample_loaded sample_segments (Obj ∅)
                sample_updated StreamSamples.sample_world eq_refl) as H.
  simpl in H. destruct H as (_ & p' & items' & Hp & Hs & _ & _ & Hk).
  { repeat constructor; eexists; reflexivity. }
  exists p'. split; [exact Hp|]. split; [|rewrite Hk by discriminate; reflexivity].
  injection Hp as <-. reflexivity.
Defined.

(** X2: whatever the loaded project and whatever the outcome,
    [updateSegment] sends exactly one request, the PUT of the segment,
    and touches no state cell but the project; the project changes only
    if the PUT resolved; and when the PUT resolved but the loaded project
    has no array of segments, or a [null] among them, the callback throws
    with the project unchanged. *)
Theorem updateSegment_sends_one_put (pid segmentId : string) (project0 : option object)
    (data : value) (response : value + value) (w : world) :
  let '(es, c) := updateSegment pid project0 segmentId data response in
  let w' := apply_effects es w in
  sent w' = (sent w ++ [Route PUT (segment_url pid segmentId)])%list ∧
  Put (segment_url pid segmentId) (JsonBody data) ∈ es ∧
  loading (hook w') = loading (hook w) ∧ error (hook w') = error (hook w) ∧
  isGenerating (hook w') = isGenerating (hook w) ∧
  (match response with
   | inr err => c = Thrown err ∧ project (hook w') = project (hook w)
   | inl segment => c = Returned segment ∨
                    (c = Thrown TypeError ∧ project (hook w') = project (hook w))
   end).
Proof.
  unfold updateSegment.
  destruct response as [segment|err]; [destruct project0 as [p|];
    [destruct (field p "segments") as [| | | | |items|];
       [..|destruct (replace_segment segmentId segment items)|]|]|];
    simpl; (split; [reflexivity|]); (split; [left|]); repeat (split; [reflexivity|]);
    first [ split; reflexivity | left; reflexivity | right; split; reflexivity ].
Qed.

(** X3: [updateProject] does nothing at all while no project is loaded;
    with one loaded it sends one PUT to the project's URL whose form holds
    [script_content] exactly when the caller gave one, replaces the
    project by the response when the PUT resolves and leaves the state
    alone when it is rejected. *)
Theorem updateProject_effects (pid : string) (project0 : option object)
    (script_content : option string) (response : object + value) (w : world) :
  let '(es, c) := updateProject pid project0 script_content response in
  let w' := apply_effects es w in
  match project0 with
  | None => es = [] ∧ w' = w ∧ c = Returned Undefined
  | Some _ =>
      sent w' = (sent w ++ [Route PUT ("/podcast/projects/" ++ pid)%string])%list ∧
      (∃ entries, Put (project_url pid) (FormData entries) ∈ es ∧
         ∀ s, ("script_content", s) ∈ entries ↔ script_content = Some s) ∧
      match response with
      | inl data => project (hook w') = Some data ∧ c = Returned (Obj data)
      | inr err => hook w' = hook w ∧ c = Thrown err
      end
  end.
Proof.
  unfold updateProject. destruct project0 as [p|]; [|destruct w; auto].
  destruct response as [d|err]; simpl.
  - split; [reflexivity|]. split; [|auto].
    eexists. split; [left|]. intros s. destruct script_content as [s'|].
    + rewrite list_elem_of_singleton. split; [intros [= ->] | intros [= ->]]; reflexivity.
    + rewrite elem_of_nil. split; [tauto | discriminate].
  - split; [reflexivity|]. split; [|destruct w as [[] ? ?]; auto].
    eexists. split; [left|]. intros s. destruct script_content as [s'|].
    + rewrite list_elem_of_singleton. split; [intros [= ->] | intros [= ->]]; reflexivity.
    + rewrite elem_of_nil. split; [tauto | discriminate].
Qed.

(** X4: [startPipeline]: a rejected POST is stored in the error cell and
    thrown again, with no reload, and the project, the loading flag and
    the generating indicator as they were; a resolved POST sets the
    indicator and reloads the project with one GET, and the callback
    returns normally, with loading off, even when that reload fails. *)
Theorem startPipeline_outcomes (pid : string) (post_response : value + value)
    (get_response : object + value) (w : world) :
  let '(acts, c) := startPipeline pid post_response get_response in
  let w' := run acts w in
  match post_response with
  | inr err =>
      c = Thrown err ∧ sent w' = (sent w ++ [Route POST (start_url pid)])%list ∧
      error (hook w') = Some err ∧ project (hook w') = project (hook w) ∧
      loading (hook w') = loading (hook w) ∧ isGenerating (hook w') = isGenerating (hook w)
  | inl data =>
      c = Returned data ∧
      sent w' = (sent w ++ [Route POST (start_url pid); Route GET (project_url pid)])%list ∧
      isGenerating (hook w') = true ∧ loading (hook w') = false ∧
      match get_response with
      | inl full => project (hook w') = Some full ∧ error (hook w') = None
      | inr err => project (hook w') = project (hook w) ∧ error (hook w') = Some err
      end
  end.
Proof.
  destruct post_response as [d|err], get_response as [full|err']; simpl;
    rewrite <- ?app_assoc; simpl; auto 10.
Qed.

(** X5: [pausePipeline] clears the generating indicator only once the POST
    has resolved: a rejected POST leaves the indicator, the project and
    the loading flag as they were, stores the error and throws it. *)
Theorem pausePipeline_outcomes (pid : string) (post_response : value + value)
    (get_response : object + value) (w : world) :
  let '(acts, c) := pausePipeline pid post_response get_response in
  let w' := run acts w in
  match post_response with
  | inr err =>
      c = Thrown err ∧ sent w' = (sent w ++ [Route POST (pause_url pid)])%list ∧
      error (hook w') = Some err ∧ project (hook w') = project (hook w) ∧
      loading (hook w') = loading (hook w) ∧ isGenerating (hook w') = isGenerating (hook w)
  | inl _ =>
      c = Returned Undefined ∧
      sent w' = (sent w ++ [Route POST (pause_url pid); Route GET (project_url pid)])%list ∧
      isGenerating (hook w') = false ∧ loading (hook w') = false ∧
      match get_response with
      | inl full => project (hook w') = Some full ∧ error (hook w') = None
      | inr err => project (hook w') = project (hook w) ∧ error (hook w') = Some err
      end
  end.
Proof.
  destruct post_response as [d|err], get_response as [full|err']; simpl;
    rewrite <- ?app_assoc; simpl; auto 10.
Qed.

(** X6: a reload that fails keeps the project loaded before and reports the
    error; a reload that succeeds replaces the project and leaves no
    error, whatever error was shown before; either way one GET is sent
    and loading ends off.  For an empty id the loading effect does
    nothing. *)
Theorem reload_keeps_project_on_failure (pid : string) (response : object + value)
    (w : world) :
  let w' := run (fetchProject_complete pid response) w in
  sent w' = (sent w ++ [Route GET ("/podcast/projects/" ++ pid)%string])%list ∧
  loading (hook w') = false ∧ isGenerating (hook w') = isGenerating (hook w) ∧
  match response with
  | inl full => project (hook w') = Some full ∧ error (hook w') = None
  | inr err => project (hook w') = project (hook w) ∧ error (hook w') = Some err
  end ∧
  run (load_effect "" response) w = w.
Proof. destruct response, w; simpl; auto 10. Qed.

Section Messages.
Variable JSON_parse : string → option value.

(** X7: a message that is not JSON, or is the JSON [null], is only logged;
    a message whose [type] is none of the five kinds does nothing at
    all: in all three cases the state of the hook is what it was and no
    request is sent. *)
Theorem stray_messages_change_nothing (pid : string) (captured : option object)
    (event : MessageEvent) (w : world) :
  (JSON_parse (data event) = None ∨ JSON_parse (data event) = Some Null →
     let w' := receive JSON_parse pid captured event w in
     hook w' = hook w ∧ sent w' = sent w ∧
     console w' = (console w ++ ["Error parsing SSE event:"])%list) ∧
  (∀ msg ty, JSON_parse (data event) = Some msg → get_prop msg "type" = Some ty →
     (∀ k, k ∈ ["progress"; "segment_complete"; "segment_failed"; "complete"; "error"] →
           is_str ty k = false) →
     receive JSON_parse pid captured event w = w).
Proof.
  split.
  - intros [H | H]; unfold receive, onmessage; rewrite H; simpl; auto.
  - intros msg ty Hp Ht Hk. unfold receive, onmessage. rewrite Hp, Ht.
    rewrite !Hk by (rewrite !elem_of_cons; tauto). reflexivity.
Qed.

(** X8: after a [progress] event applied to a loaded project, the effect on
    the project makes the generating indicator say whether the payload's
    [pipeline_state] is [generating], whatever the indicator said before. *)
Theorem progress_drives_indicator (pid : string) (captured : option object)
    (event : MessageEvent) (w : world) (p : object) :
  kind_of JSON_parse event = Some "progress" →
  captured = Some p →
  truthy (payload_of JSON_parse event) = true →
  isGenerating (hook (settle (receive JSON_parse pid captured event w)))
  = is_str (get_prop_opt (payload_of JSON_parse event) "pipeline_state") "generating".
Proof.
  intros Hk Hp Ht.
  destruct (StreamFacts.kind_of_inv _ _ _ Hk) as (msg & Hm & Hty).
  unfold receive, onmessage, payload_of in *. rewrite Hm in *. rewrite Hty, Hp. simpl.
  rewrite Ht. simpl. unfold follow_pipeline_state. simpl.
  unfold field, merge_progress.
  rewrite !lookup_insert_ne by discriminate. rewrite lookup_insert_eq. reflexivity.
Qed.
End Messages.

Lemma stray_messages_change_nothing_witness :
  hook (receive StreamSamples.sample_parse "7" (Some StreamSamples.sample_project)
          {| data := "null" |} StreamSamples.sample_world)
  = hook StreamSamples.sample_world.
Proof.
  apply (stray_messages_change_nothing StreamSamples.sample_parse "7"
           (Some StreamSamples.sample_project) {| data := "null" |}
           StreamSamples.sample_world).
  right. reflexivity.
Defined.

Lemma progress_drives_indicator_witness :
  isGenerating (hook (settle (receive StreamSamples.sample_parse "7"
                                (Some StreamSamples.sample_project) {| data := "P" |}
                                sample_quiet))) = true.
Proof.
  rewrite (progress_drives_indicator StreamSamples.sample_parse "7"
             (Some StreamSamples.sample_project) {| data := "P" |}
             sample_quiet StreamSamples.sample_project eq_refl eq_refl eq_refl).
  reflexivity.
Defined.


(** X9: when the loaded project's segments hold a [null], [updateSegment]
    has already sent its PUT when it throws a TypeError, and the state of
    the hook is what it was. *)
Theorem updateSegment_null_entry (pid segmentId : string) (p : object)
    (items : list value) (data segment : value) (w : world) :
  p !! "segments" = Some (Arr items) →
  Null ∈ items →
  let '(es, c) := updateSegment pid (Some p) segmentId data (inl segment) in
  c = Thrown TypeError ∧
  hook (apply_effects es w) = hook w ∧
  sent (apply_effects es w) = (sent w ++ [Route PUT (segment_url pid segmentId)])%list.
Proof.
  intros Hseg Hnull. unfold updateSegment, field. rewrite Hseg. simpl.
  rewrite replace_segment_null; [simpl; auto|].
  apply Exists_exists. exists Null. split; [exact Hnull | reflexivity].
Qed.

Lemma updateSegment_null_entry_witness :
  (updateSegment "7" (Some (<["segments" := Arr [Null]]> ∅)) "s1" (Obj ∅)
     (inl sample_updated)).2 = Thrown TypeError.
Proof.
  pose proof (updateSegment_null_entry "7" "s1" (<["segments" := Arr [Null]]> ∅) [Null]
                (Obj ∅) sample_updated sample_quiet eq_refl) as H.
  simpl in H. apply H. left.
Defined.

(** X10: the two versions of [startPipeline] and of [pausePipeline] send the
    same requests and load the same project for every outcome; the
    version without the stream never writes the generating indicator, and
    on a rejected POST it leaves the error cell alone. *)
Theorem pipeline_versions_agree (pid : string) (post_response : value + value)
    (get_response : object + value) (w : world) :
  let stream := run (startPipeline pid post_response get_response).1 w in
  let plain := run (startPipeline_plain pid post_response get_response).1 w in
  let stream' := run (pausePipeline pid post_response get_response).1 w in
  let plain' := run (pausePipeline_plain pid post_response get_response).1 w in
  sent plain = sent stream ∧ project (hook plain) = project (hook stream) ∧
  sent plain' = sent stream' ∧ project (hook plain') = project (hook stream') ∧
  (startPipeline_plain pid post_response get_response).2
    = (startPipeline pid post_response get_response).2 ∧
  isGenerating (hook plain) = isGenerating (hook w) ∧
  isGenerating (hook plain') = isGenerating (hook w) ∧
  (∀ err, post_response = inr err →
     error (hook plain) = error (hook w) ∧ error (hook stream) = Some err).
Proof.
  destruct post_response as [d|err], get_response as [full|err']; simpl;
    repeat split; try reflexivity; try discriminate; try congruence.
Qed.

Lemma pipeline_versions_agree_witness :
  error (hook (run (startPipeline_plain "7" (inr (Str "busy")) (inr Null)).1 sample_quiet))
  = None.
Proof.
  pose proof (pipeline_versions_agree "7" (inr (Str "busy")) (inr Null) sample_quiet) as H.
  simpl in H. destruct H as (_ & _ & _ & _ & _ & _ & _ & H).
  apply (H (Str "busy") eq_refl).
Defined.

End HookOperationsFacts.

Module ListOperationsFacts.
Import Http PodcastsUi ListOperations.

Lemma filter_all (A : Type) (P : A → Prop) `{∀ x, Decision (P x)} (l : list A) :
  (∀ x, x ∈ l → P x) → filter P l = l.
Proof.
  induction l as [|a l IH]; intros Hall; [reflexivity|].
  rewrite filter_cons, decide_True by (apply Hall; left).
  rewrite IH; [reflexivity|]. intros x Hx. apply Hall. right. exact Hx.
Qed.

Lemma filter_swap (A : Type) (P Q : A → Prop) `{∀ x, Decision (P x)}
    `{∀ x, Decision (Q x)} (l : list A) :
  filter P (filter Q l) = filter Q (filter P l).
Proof.
  induction l as [|a l IH]; [reflexivity|].
  rewrite !filter_cons.
  destruct (decide (Q a)), (decide (P a)); rewrite ?filter_cons, ?decide_True, ?decide_False
    by assumption; rewrite IH; reflexivity.
Qed.

Lemma filter_twice (A : Type) (P : A → Prop) `{∀ x, Decision (P x)} (l : list A) :
  filter P (filter P l) = filter P l.
Proof. apply filter_all. intros x Hx. apply list_elem_of_filter in Hx. tauto. Qed.

(** X11: creating a project and then deleting it gives back the list there
    was, provided no project of the list had the id of the new one; the
    two requests sent are the POST and the DELETE, in that order. *)
Theorem create_then_delete_restores (created : PodcastProject) (script : string)
    (w : world) :
  (∀ p, p ∈ projects w → id p ≠ id created) →
  let w1 := (createProject (inl created) script w).1 in
  let w2 := (deleteProject None (id created) w1).1 in
  projects w1 = (projects w ++ [created])%list ∧
  projects w2 = projects w ∧
  sent w2 = (sent w ++ [Route POST "/podcast/projects";
                        Route DELETE ("/podcast/projects/" ++ id created)%string])%list.
Proof.
  intros Hfresh. simpl. split; [reflexivity|]. split.
  - rewrite filter_app, filter_all by exact Hfresh.
    rewrite filter_cons, decide_False by tauto. rewrite filter_nil. apply app_nil_r.
  - rewrite <- app_assoc. reflexivity.
Qed.

Lemma create_then_delete_restores_witness :
  projects (deleteProject None "p3"
              (createProject (inl {| id := "p3"; name := "New"; description := None;
                                     script_content := ""; pipeline_state := "idle";
                                     total_segments := 0; completed_count := 0;
                                     updated_at := "" |}) "" UiSpec.list_world).1).1
  = projects UiSpec.list_world.
Proof.
  refine (proj1 (proj2 (create_then_delete_restores
                          {| id := "p3"; name := "New"; description := None;
                             script_content := ""; pipeline_state := "idle";
                             total_segments := 0; completed_count := 0;
                             updated_at := "" |} "" UiSpec.list_world _))).
  intros p. unfold UiSpec.list_world. simpl. rewrite !elem_of_cons.
  intros [-> | [-> | H]]; [discriminate | discriminate | inversion H].
Defined.

(** X12: deleting is idempotent on the list and deletions commute: deleting
    the same id again changes no project (a second DELETE is still
    sent), and two ids deleted in either order leave the same list. *)
Theorem deletions_commute (a b : string) (w : world) :
  let once := (deleteProject None a w).1 in
  let twice := (deleteProject None a once).1 in
  let ab := (deleteProject None b once).1 in
  let ba := (deleteProject None a (deleteProject None b w).1).1 in
  projects twice = projects once ∧
  sent twice = (sent once ++ [Route DELETE ("/podcast/projects/" ++ a)%string])%list ∧
  projects ab = projects ba.
Proof.
  simpl. split; [apply filter_twice|]. split; [reflexivity|]. apply filter_swap.
Qed.

Lemma rendered_rows_elem (fmt : string → string) (w : world) (r : row) :
  r ∈ rendered_rows fmt w ↔
  error w = None ∧ loading w = false ∧
  ∃ p, r = render_row fmt (deletingId w) p ∧ p ∈ projects w.
Proof.
  unfold rendered_rows, PodcastList.
  destruct (error w); [split; [intros H; inversion H | intros ([=] & _)]|].
  destruct (loading w); [split; [intros H; inversion H | intros (_ & [=] & _)]|].
  destruct (projects w) as [|q ps] eqn:Hps.
  - split; [intros H; inversion H | intros (_ & _ & p & _ & H); inversion H].
  - rewrite list_elem_of_fmap. split; [intros H; auto | intros (_ & _ & H); exact H].
Qed.

Lemma row_keys (fmt : string → string) (deleting : option string)
    (ps : list PodcastProject) :
  row_key <$> (render_row fmt deleting <$> ps) = id <$> ps.
Proof. induction ps as [|p ps IH]; [reflexivity|]. simpl. f_equal. exact IH. Qed.

(** X13: a reload that fails keeps the projects there were but makes the
    list pane show only its failure message; a reload that succeeds
    clears an earlier error and the pane shows one row for each project
    the server sent, in the server's order. *)
Theorem reload_and_render (fmt : string → string)
    (response : list PodcastProject + Js.value) (w : world) :
  let w' := fetchProjects response w in
  loading w' = false ∧
  sent w' = (sent w ++ [Route GET "/podcast/projects"])%list ∧
  match response with
  | inr err => projects w' = projects w ∧ PodcastList fmt w' = FailedToLoad
  | inl ps =>
      projects w' = ps ∧ error w' = None ∧
      PodcastList fmt w' ≠ FailedToLoad ∧
      rendered_rows fmt w' = render_row fmt (deletingId w) <$> ps ∧
      row_key <$> rendered_rows fmt w' = id <$> ps
  end.
Proof.
  destruct response as [ps|err]; simpl; repeat split; try reflexivity.
  - unfold PodcastList. simpl. discriminate.
  - unfold rendered_rows, PodcastList. simpl. destruct ps; reflexivity.
  - unfold rendered_rows, PodcastList. simpl. destruct ps as [|p ps]; [reflexivity|].
    apply (row_keys fmt (deletingId w) (p :: ps)).
Qed.

(** X14: while a deletion is pending exactly the rows of the project being
    deleted are dimmed and have their delete button disabled; and once
    [handleDelete] has run after a confirmation, whatever [deleteProject]
    did and whether or not it threw, no row is dimmed or disabled. *)
Theorem rows_released_after_delete (fmt : string → string)
    (hook_deleteProject : string → callback) (pid : string) (w : world) :
  (∀ r, r ∈ rendered_rows fmt (setDeletingId (Some pid) w) →
        (row_delete_disabled r = true ↔ row_key r = pid) ∧
        row_dimmed r = row_delete_disabled r) ∧
  (let w' := (handleDelete hook_deleteProject true pid w).1 in
   deletingId w' = None ∧
   ∀ r, r ∈ rendered_rows fmt w' → row_dimmed r = false ∧ row_delete_disabled r = false).
Proof.
  split.
  - intros r Hr. apply rendered_rows_elem in Hr as (_ & _ & p & -> & _). simpl.
    split; [|reflexivity]. destruct (String.eqb_spec pid (id p)); split; congruence.
  - unfold handleDelete. simpl.
    destruct (hook_deleteProject pid _) as [w2 thrown]. simpl. split; [reflexivity|].
    intros r Hr. apply rendered_rows_elem in Hr as (_ & _ & p & -> & _).
    split; reflexivity.
Qed.

Lemma rows_released_after_delete_witness :
  row_delete_disabled (render_row (fun s => s) (Some "p2") UiSpec.paused_project) = true ∧
  deletingId (handleDelete (deleteProject None) true "p2" UiSpec.list_world).1 = None.
Proof.
  destruct (rows_released_after_delete (fun s => s) (deleteProject None) "p2"
              UiSpec.list_world) as (Hpending & Hdone & _).
  split; [|exact Hdone].
  destruct (Hpending (render_row (fun s => s) (Some "p2") UiSpec.paused_project))
    as ((_ & Hdisabled) & _); [|apply Hdisabled; reflexivity].
  apply rendered_rows_elem. split; [reflexivity|]. split; [reflexivity|].
  exists UiSpec.paused_project. split; [reflexivity|].
  unfold UiSpec.list_world. simpl. rewrite !elem_of_cons. tauto.
Defined.

(** X15: after a confirmed deletion that the server accepted no row of the
    list pane belongs to the deleted id, and every other project keeps
    its row. *)
Theorem deleted_project_not_rendered (fmt : string → string) (pid : string) (w : world) :
  let w' := (handleDelete (deleteProject None) true pid w).1 in
  (∀ r, r ∈ rendered_rows fmt w' → row_key r ≠ pid) ∧
  (error w = None → loading w = false →
   ∀ p, p ∈ projects w → id p ≠ pid → render_row fmt None p ∈ rendered_rows fmt w').
Proof.
  split.
  - intros r Hr. apply rendered_rows_elem in Hr as (_ & _ & p & -> & Hp).
    simpl in Hp |- *. apply list_elem_of_filter in Hp. tauto.
  - intros He Hl p Hp Hne. apply rendered_rows_elem. simpl.
    split; [exact He|]. split; [exact Hl|]. exists p. split; [reflexivity|].
    apply list_elem_of_filter. auto.
Qed.

Lemma deleted_project_not_rendered_witness :
  render_row (fun s => s) None UiSpec.paused_project
  ∈ rendered_rows (fun s => s) (handleDelete (deleteProject None) true "p1"
                                  UiSpec.list_world).1.
Proof.
  apply (proj2 (deleted_project_not_rendered (fun s => s) "p1" UiSpec.list_world)
           eq_refl eq_refl).
  - unfold UiSpec.list_world. simpl. rewrite !elem_of_cons. tauto.
  - discriminate.
Defined.

(** X16: a pipeline state other than the five the list knows (the comparison
    is exact, so also one differing in case) gets the badge and the colour
    of [idle]. *)
Theorem unknown_status_styled_as_idle (status : string) :
  status ∉ ["idle"; "generating"; "paused"; "completed"; "error"] →
  getStatusBadge status = getStatusBadge "idle" ∧
  getStatusColor status = getStatusColor "idle".
Proof.
  rewrite !not_elem_of_cons. intros (H1 & H2 & H3 & H4 & H5 & _).
  unfold getStatusBadge, getStatusColor.
  destruct (String.eqb_spec status "idle"); [contradiction|].
  destruct (String.eqb_spec status "generating"); [contradiction|].
  destruct (String.eqb_spec status "paused"); [contradiction|].
  destruct (String.eqb_spec status "completed"); [contradiction|].
  destruct (String.eqb_spec status "error"); [contradiction|].
  split; reflexivity.
Qed.

Lemma unknown_status_styled_as_idle_witness :
  getStatusBadge "Generating" = "bg-muted text-muted-foreground".
Proof.
  refine (proj1 (unknown_status_styled_as_idle "Generating" _)).
  rewrite !not_elem_of_cons. repeat split; try discriminate. apply not_elem_of_nil.
Defined.

(** X17: the [createProject] that reloads never appends: after a successful
    POST the list is what the reload returned, or the list there was when
    the reload fails, in which case the error is recorded and the created
    project is still returned; after a rejected POST only the POST was
    sent and the list is untouched.  The [createProject] that appends puts
    the created project last. *)
Theorem create_reloads_or_appends (post_response : PodcastProject + Js.value)
    (get_response : list PodcastProject + Js.value) (script : string) (w : world) :
  let '(w', result) := createProject_refetch post_response get_response script w in
  let '(w'', result') := createProject post_response script w in
  result = post_response ∧ result' = post_response ∧
  match post_response with
  | inr _ =>
      projects w' = projects w ∧ projects w'' = projects w ∧
      sent w' = (sent w ++ [Route POST "/podcast/projects"])%list ∧ sent w'' = sent w'
  | inl created =>
      projects w'' = (projects w ++ [created])%list ∧
      sent w' = (sent w ++ [Route POST "/podcast/projects";
                            Route GET "/podcast/projects"])%list ∧
      match get_response with
      | inl ps => projects w' = ps ∧ error w' = None
      | inr err => projects w' = projects w ∧ error w' = Some err
      end
  end.
Proof.
  destruct post_response as [created|err]; [destruct get_response|]; simpl;
    rewrite <- ?app_assoc; auto 10.
Qed.

End ListOperationsFacts.

Module CreateDialogFacts.
Import Http PodcastsUi ListOperations CreateDialog.

(** X18: [handleCreate] hands the text of the text area to [createProject]
    and always ends with the creating flag off; when the creation
    succeeds the dialog is closed and the text area holds the template
    again; when it fails the failure is logged, the dialog stays as open
    as it was and the text the operator typed is kept. *)
Theorem handleCreate_outcomes (hook_createProject : creating) (d : dialog) :
  let d' := handleCreate hook_createProject d in
  creating_now d' = false ∧
  podcasts d' = (hook_createProject (scriptContent d) (podcasts d)).1 ∧
  match (hook_createProject (scriptContent d) (podcasts d)).2 with
  | inl _ => open d' = false ∧ scriptContent d' = SAMPLE_SCRIPT ∧ console d' = console d
  | inr _ =>
      open d' = open d ∧ scriptContent d' = scriptContent d ∧
      console d' = (console d ++ ["Failed to create project:"])%list
  end.
Proof.
  unfold handleCreate.
  destruct (hook_createProject (scriptContent d) (podcasts d)) as [w' [p|err]];
    simpl; auto.
Qed.

(** The template is the 484 characters of the source's literal. *)
Example template_shape :
  String.length SAMPLE_SCRIPT = 484 ∧ String.prefix ("---" ++ newline) SAMPLE_SCRIPT = true.
Proof. vm_compute. split; reflexivity. Qed.

End CreateDialogFacts.

Module EditorViewFacts.
Import Http PodcastsUi EditorView.

(** X19: for a project shown in the editor exactly one of the Export, Pause
    and Start/Resume buttons is there: Export exactly in state
    [completed], Pause exactly in state [generating], Start/Resume in
    every other state, labelled Resume exactly in state [paused]. *)
Theorem one_action_button (e : editor) (loading : bool) (error : Js.value)
    (segments : list Segment) (profiles : list Profile) (pn : pane) (p : PodcastProject) :
  PodcastEditor e loading error segments profiles = Pane pn →
  project e = Some p →
  (export_button pn = true ↔ pipeline_state p = "completed") ∧
  (pause_button pn = true ↔ pipeline_state p = "generating") ∧
  (is_Some (start_button pn) ↔
     pipeline_state p ≠ "completed" ∧ pipeline_state p ≠ "generating") ∧
  (start_button pn = Some "Resume" ↔ pipeline_state p = "paused") ∧
  (Nat.b2n (export_button pn) + Nat.b2n (pause_button pn)
   + Nat.b2n (bool_decide (is_Some (start_button pn))) = 1)%nat.
Proof.
  unfold PodcastEditor. intros Hv Hp. rewrite Hp in Hv.
  destruct (negb (selected e)); [discriminate|]. destruct loading; [discriminate|].
  destruct (Js.truthy error); [discriminate|]. injection Hv as <-. simpl.
  destruct (String.eqb_spec (pipeline_state p) "completed") as [Hc|Hc];
    destruct (String.eqb_spec (pipeline_state p) "generating") as [Hg|Hg];
    destruct (String.eqb_spec (pipeline_state p) "paused") as [Hpa|Hpa];
    simpl; try (rewrite Hc in Hg; discriminate Hg);
    try (rewrite Hc in Hpa; discriminate Hpa);
    try (rewrite Hg in Hpa; discriminate Hpa);
    (split; [|split; [|split; [|split]]]); try reflexivity;
    split; intros H; try assumption; try reflexivity; try discriminate H;
    try contradiction; try (destruct H as [H1 H2]; contradiction);
    try (destruct H as [x H]; discriminate H);
    try (split; assumption); try (eexists; reflexivity).
Qed.

Lemma one_action_button_witness :
  ∃ pn, PodcastEditor sample_editor false Js.Null [] sample_profiles = Pane pn ∧
        start_button pn = Some "Resume" ∧ export_button pn = false ∧
        pause_button pn = false.
Proof.
  eexists. split; [reflexivity|].
  pose proof (one_action_button sample_editor false Js.Null [] sample_profiles _
                UiSpec.paused_project eq_refl eq_refl) as (He & Hp & _ & Hr & _).
  split; [apply Hr; reflexivity|]. split; reflexivity.
Defined.

(** X20: the editor pane is shown exactly when a project is selected, the
    hook is not loading, reports no error and has a project; without a
    selection the editor shows its prompt whatever the hook holds, and the
    Start, Pause and Export handlers call nothing. *)
Theorem editor_needs_selection (A : Type) (start pause export : string → list A)
    (e : editor) (loading : bool) (error : Js.value)
    (segments : list Segment) (profiles : list Profile) :
  ((∃ pn, PodcastEditor e loading error segments profiles = Pane pn) ↔
     selected e = true ∧ loading = false ∧ Js.truthy error = false ∧
     is_Some (project e)) ∧
  (selected e = false →
     PodcastEditor e loading error segments profiles = SelectPrompt ∧
     handleStartPipeline A start e = [] ∧ handlePausePipeline A pause e = [] ∧
     handleExport A export e = []) ∧
  (selected e = true →
     handleStartPipeline A start e = start (hook_projectId e) ∧
     hook_projectId e ≠ "").
Proof.
  unfold PodcastEditor, handleStartPipeline, handlePausePipeline, handleExport.
  split; [|split].
  - destruct (selected e), loading, (Js.truthy error), (project e); simpl; split;
      solve [ intros [pn [=]] | intros (? & ? & ? & [? ?]); discriminate
            | intros (? & ? & ? & ?); discriminate
            | intros _; repeat split; eexists; reflexivity
            | intros _; eexists; reflexivity ].
  - intros ->. simpl. auto.
  - intros Hs. rewrite Hs. split; [reflexivity|].
    unfold selected, hook_projectId in *. destruct (selectedProjectId e); [|discriminate].
    destruct (String.eqb_spec s ""); [discriminate | assumption].
Qed.

Lemma editor_needs_selection_witness :
  PodcastEditor (setSelectedProjectId None sample_editor) false Js.Null [] sample_profiles
  = SelectPrompt ∧
  handleExport string (fun pid => [pid]) (setSelectedProjectId None sample_editor) = [] ∧
  handleExport string (fun pid => [pid]) sample_editor = ["p2"].
Proof.
  pose proof (editor_needs_selection string (fun pid => [pid]) (fun pid => [pid])
                (fun pid => [pid]) (setSelectedProjectId None sample_editor) false Js.Null []
                sample_profiles) as (_ & Hnone & _).
  destruct (Hnone eq_refl) as (Hview & _ & _ & Hexport).
  split; [exact Hview|]. split; [exact Hexport | reflexivity].
Defined.

Lemma find_profile (profiles : list Profile) (pid : string) (p : Profile) :
  find (fun q => String.eqb (profile_id q) pid) profiles = Some p →
  p ∈ profiles ∧ profile_id p = pid.
Proof.
  intros H. apply find_some in H as [Hin Heq].
  split; [apply list_elem_of_In, Hin | apply String.eqb_eq, Heq].
Qed.

Lemma find_unique_profile (profiles : list Profile) (p : Profile) :
  NoDup (profile_id <$> profiles) → p ∈ profiles →
  find (fun q => String.eqb (profile_id q) (profile_id p)) profiles = Some p.
Proof.
  induction profiles as [|q rest IH]; intros Hnd Hin; [inversion Hin|].
  simpl in Hnd |- *. apply NoDup_cons in Hnd as [Hq Hrest].
  apply elem_of_cons in Hin as [-> | Hin]; [rewrite String.eqb_refl; reflexivity|].
  destruct (String.eqb_spec (profile_id q) (profile_id p)) as [Heq|_]; [|apply IH; assumption].
  exfalso. apply Hq. rewrite Heq. apply list_elem_of_fmap. exists p. auto.
Qed.

(** X21: [getProfileName] answers [Unmapped] when the segment has no profile
    id (or an empty one); any answer other than [Unknown] and [Unmapped]
    is the name of a profile of the list with the asked id; and when the
    ids of the list are distinct, a listed profile with a non-empty id and
    a non-empty name is answered by its name. *)
Theorem getProfileName_sound (profiles : list Profile) :
  getProfileName profiles None = "Unmapped" ∧
  getProfileName profiles (Some "") = "Unmapped" ∧
  (∀ pid, getProfileName profiles (Some pid) ≠ "Unknown" →
          getProfileName profiles (Some pid) ≠ "Unmapped" →
          ∃ p, p ∈ profiles ∧ profile_id p = pid ∧
               profile_name p = getProfileName profiles (Some pid)) ∧
  (∀ p, NoDup (profile_id <$> profiles) → p ∈ profiles →
        profile_id p ≠ "" → profile_name p ≠ "" →
        getProfileName profiles (Some (profile_id p)) = profile_name p) ∧
  (∀ pid, pid ≠ "" → (∀ p, p ∈ profiles → profile_id p ≠ pid) →
          getProfileName profiles (Some pid) = "Unknown").
Proof.
  split; [reflexivity|]. split; [reflexivity|]. split; [|split].
  - intros pid. unfold getProfileName.
    destruct (String.eqb pid ""); [congruence|].
    destruct (find _ profiles) as [p|] eqn:Hf; [|congruence].
    destruct (String.eqb (profile_name p) ""); [congruence|].
    intros _ _. exists p. apply find_profile in Hf. tauto.
  - intros p Hnd Hin Hid Hname. unfold getProfileName.
    destruct (String.eqb_spec (profile_id p) ""); [contradiction|].
    rewrite (find_unique_profile profiles p Hnd Hin).
    destruct (String.eqb_spec (profile_name p) ""); [contradiction | reflexivity].
  - intros pid Hne Hnone. unfold getProfileName.
    destruct (String.eqb_spec pid ""); [contradiction|].
    destruct (find _ profiles) as [p|] eqn:Hf; [|reflexivity].
    apply find_profile in Hf as [Hin Hid]. exfalso. apply (Hnone p Hin Hid).
Qed.

Lemma getProfileName_sound_witness :
  getProfileName sample_profiles (Some "v2") = "John" ∧
  getProfileName sample_profiles (Some "v9") = "Unknown".
Proof.
  destruct (getProfileName_sound sample_profiles) as (_ & _ & _ & Hname & Hnone).
  split.
  - apply (Hname {| profile_id := "v2"; profile_name := "John" |}).
    + repeat constructor; rewrite ?elem_of_cons, ?elem_of_nil; intros H;
        repeat destruct H as [H|H]; try discriminate H; exact H.
    + unfold sample_profiles. rewrite !elem_of_cons. tauto.
    + discriminate.
    + discriminate.
  - apply Hnone; [discriminate|]. intros p. unfold sample_profiles.
    rewrite !elem_of_cons, elem_of_nil. intros [-> | [-> | []]]; discriminate.
Defined.

(** X22: the selecting effect never replaces a selection: with a project
    selected it changes nothing, even when that project is not in the
    list; it is idempotent; it selects the first project of a list whose
    first id is not empty; and it touches nothing but the selection. *)
Theorem auto_select_keeps_selection (projects : list PodcastProject) (e : editor) :
  (selected e = true → auto_select projects e = e) ∧
  auto_select projects (auto_select projects e) = auto_select projects e ∧
  (∀ p rest, projects = p :: rest → id p ≠ "" → selected e = false →
     selectedProjectId (auto_select projects e) = Some (id p) ∧
     selected (auto_select projects e) = true) ∧
  scriptContent (auto_select projects e) = scriptContent e ∧
  isEditing (auto_select projects e) = isEditing e ∧
  project (auto_select projects e) = project e ∧
  outbox (auto_select projects e) = outbox e.
Proof.
  split; [|split; [|split]].
  - intros Hs. unfold auto_select. destruct projects; [reflexivity|]. rewrite Hs. reflexivity.
  - unfold auto_select. destruct projects as [|p rest]; [reflexivity|].
    destruct (selected e) eqn:Hs; [rewrite Hs; reflexivity|].
    unfold selected at 1. simpl. destruct (String.eqb (id p) ""); reflexivity.
  - intros p rest -> Hid Hs. unfold auto_select. rewrite Hs. simpl.
    split; [reflexivity|]. unfold selected. simpl.
    destruct (String.eqb_spec (id p) ""); [contradiction | reflexivity].
  - unfold auto_select. destruct projects; [auto|]. destruct (selected e); auto.
Qed.

Lemma auto_select_keeps_selection_witness :
  selectedProjectId
    (auto_select [UiSpec.generating_without_segments; UiSpec.paused_project]
       (setSelectedProjectId None sample_editor)) = Some "p1" ∧
  auto_select [UiSpec.generating_without_segments; UiSpec.paused_project] sample_editor
  = sample_editor.
Proof.
  pose proof (auto_select_keeps_selection
                [UiSpec.generating_without_segments; UiSpec.paused_project]
                (setSelectedProjectId None sample_editor)) as (_ & _ & Hfirst & _).
  pose proof (auto_select_keeps_selection
                [UiSpec.generating_without_segments; UiSpec.paused_project]
                sample_editor) as (Hkeep & _).
  split; [|apply Hkeep; reflexivity].
  apply (Hfirst UiSpec.generating_without_segments [UiSpec.paused_project] eq_refl);
    [discriminate | reflexivity].
Defined.

(** X23: with a project selected and loaded, and no save in progress (the
    Save button is disabled while one is), Save leaves the editor exactly
    as Cancel does; the loading effect then puts the stored script back
    in the text area, so the edit is lost either way. *)
Theorem save_is_cancel (e : editor) (p : PodcastProject) :
  selected e = true → project e = Some p → saving e = false →
  handleSaveScript e = cancel e ∧
  scriptContent (load_script_effect (cancel e)) = script_content p ∧
  outbox (cancel e) = outbox e.
Proof.
  intros Hs Hp Hsave. unfold handleSaveScript, cancel. rewrite Hs, Hp. simpl.
  split; [|unfold load_script_effect; simpl; rewrite Hp; auto].
  destruct e as [sel proj script editing sv out]. simpl in *. subst sv. reflexivity.
Qed.

Lemma save_is_cancel_witness :
  handleSaveScript sample_editor = cancel sample_editor ∧
  scriptContent (load_script_effect (cancel sample_editor)) = "".
Proof.
  destruct (save_is_cancel sample_editor UiSpec.paused_project eq_refl eq_refl eq_refl)
    as (Hs & Hl & _).
  split; [exact Hs | exact Hl].
Defined.

End EditorViewFacts.

Module SetupLogicFacts.
Import Setup SetupLogic.

Lemma avoids_app (F a b : list string) :
  avoids F (a ++ b) = avoids F a && avoids F b.
Proof. apply forallb_app. Qed.

Lemma avoids_elem (F lines : list string) :
  avoids F lines = true ↔ ∀ l, l ∈ F → l ∉ lines.
Proof.
  unfold avoids. rewrite forallb_forall. split.
  - intros H l HF Hl. apply list_elem_of_In, H in Hl.
    apply negb_true_iff in Hl.
    assert (existsb (String.eqb l) F = true); [|congruence].
    apply existsb_exists. exists l. split; [apply list_elem_of_In, HF | apply String.eqb_refl].
  - intros H l Hl. apply negb_true_iff. destruct (existsb _ F) eqn:Hex; [|reflexivity].
    apply existsb_exists in Hex as (x & Hx & Heq). apply String.eqb_eq in Heq. subst x.
    exfalso. apply (H l); apply list_elem_of_In; assumption.
Qed.

Lemma avoids_mono (F G lines : list string) :
  (∀ l, l ∈ F → l ∈ G) → avoids G lines = true → avoids F lines = true.
Proof. rewrite !avoids_elem. intros Hsub H l Hl. apply H, Hsub, Hl. Qed.

(** ** What the inline programs print *)

Lemma cuda_program_lines (c : cuda_outcome) :
  avoids shell_only (cuda_program c).1 = true.
Proof. destruct c; reflexivity. Qed.

Lemma imports_program_lines (ie : string → option string) :
  avoids shell_only (imports_program ie).1 = true.
Proof.
  unfold imports_program, import_blocks, try_import.
  cbn [fmap list_fmap fst snd].
  destruct (ie "fastapi"), (ie "sqlalchemy"), (ie "yaml"), (ie "torch"), (ie "librosa"),
    (ie "soundfile"), (ie "backend"); vm_compute; reflexivity.
Qed.

Lemma database_program_lines (d : db_outcome) :
  avoids shell_only (database_program d).1 = true.
Proof.
  destruct d as [| msg | tables close_error]; [reflexivity | reflexivity |].
  unfold database_program. destruct (missing_tables tables); [|reflexivity].
  destruct close_error; reflexivity.
Qed.

Lemma check_directory_lines (name : string) (d : directory) :
  name ∈ ["Profiles"; "Generations"; "Cache"; "SFX"; "Music"] →
  avoids shell_only (check_directory name d) = true.
Proof.
  rewrite !elem_of_cons, elem_of_nil.
  intros [-> | [-> | [-> | [-> | [-> | []]]]]];
    unfold check_directory; destruct (dir_exists d), (mkdir_error d); reflexivity.
Qed.

Lemma directories_program_lines (d : dirs_outcome) :
  avoids shell_only (directories_program d).1 = true.
Proof.
  destruct d as [| p g c s m]; [reflexivity|].
  change (directories_program (Dirs p g c s m)).1
    with (check_directory "Profiles" p ++ check_directory "Generations" g
          ++ check_directory "Cache" c ++ check_directory "SFX" s
          ++ check_directory "Music" m)%list.
  rewrite !avoids_app, !check_directory_lines; [reflexivity|..];
    rewrite !elem_of_cons; tauto.
Qed.

(** ** Rules *)

Section Rules.
Variable F : list string.
Variable K : string → Prop.
Hypothesis F_shell_only : ∀ l, l ∈ F → l ∈ shell_only.

Lemma triple_bind (P Q R : shell → Prop) (E : nat → list string → Prop)
    (m : sh unit) (k : unit → sh unit) :
  triple P m Q E → triple Q (k ()) R E → triple P (m ≫= k) R E.
Proof.
  intros Hm Hk s Hs. specialize (Hm s Hs). unfold mbind, sh_bind.
  destruct (m s) as [[] s'|code written]; [apply Hk, Hm | exact Hm].
Qed.

Lemma triple_command (lines : list string) (code : nat) :
  avoids F lines = true →
  triple (Inv F K) (command lines code) (Inv F K) (Stop F).
Proof.
  intros Hl s (He & _ & Ho & Hk). unfold command. rewrite He. cbn [andb out].
  destruct code as [|n]; cbn [Nat.eqb negb].
  - unfold Inv. cbn [errexit last_status out SKIP_VENV].
    rewrite avoids_app, Ho, Hl. auto.
  - split; [discriminate|]. cbn [out]. rewrite avoids_app, Ho, Hl. reflexivity.
Qed.

Lemma triple_program (program : list string * nat) :
  avoids shell_only program.1 = true →
  triple (Inv F K) (python3 program) (Inv F K) (Stop F).
Proof.
  intros H. apply triple_command. apply (avoids_mono F shell_only); assumption.
Qed.

(** Under [set -e] the body of [if [ $? -ne 0 ]] is never run. *)
Lemma triple_if_failed (body : sh unit) :
  triple (Inv F K) (if_failed body) (Inv F K) (Stop F).
Proof.
  intros s (He & Hl & Ho & Hk). unfold if_failed. rewrite Hl. cbn [Nat.eqb negb].
  unfold Inv. cbn [errexit last_status out SKIP_VENV]. auto.
Qed.

Lemma triple_when (b : bool) (body : sh unit) (P : shell → Prop)
    (E : nat → list string → Prop) :
  (b = true → triple P body P E) → triple P (when b body) P E.
Proof. destruct b; intros H; [apply H; reflexivity | intros s Hs; exact Hs]. Qed.

Lemma triple_if (b : bool) (m1 m2 : sh unit) (P Q : shell → Prop)
    (E : nat → list string → Prop) :
  triple P m1 Q E → triple P m2 Q E → triple P (if b then m1 else m2) Q E.
Proof. destruct b; auto. Qed.

Lemma triple_assign (v : string) :
  K v → triple (Inv F K) (assign_SKIP_VENV v) (Inv F K) (Stop F).
Proof.
  intros Hv s (He & Hl & Ho & Hk). unfold Inv, assign_SKIP_VENV.
  cbn [errexit last_status out SKIP_VENV]. auto.
Qed.

Lemma triple_set_e :
  triple (fun s => out s = [] ∧ K (SKIP_VENV s)) set_e (Inv F K) (Stop F).
Proof.
  intros s (Ho & Hk). unfold Inv, set_e. cbn [errexit last_status out SKIP_VENV].
  rewrite Ho. auto.
Qed.

(** The part of the script guarded by [[ ! "$SKIP_VENV" ]]. *)
Lemma triple_unless_SKIP_VENV (body : sh unit) :
  (K "" → triple (Inv F K) body (Inv F K) (Stop F)) →
  triple (Inv F K) (fun s => when (String.eqb (SKIP_VENV s) "") body s) (Inv F K) (Stop F).
Proof.
  intros Hbody s Hs. destruct (String.eqb_spec (SKIP_VENV s) "") as [Heq|Hne]; cbn.
  - apply Hbody; [|exact Hs]. destruct Hs as (_ & _ & _ & Hk). rewrite <- Heq. exact Hk.
  - exact Hs.
Qed.
End Rules.


Lemma subset_by_computation (F G : list string) :
  forallb (fun l => existsb (String.eqb l) G) F = true → ∀ l, l ∈ F → l ∈ G.
Proof.
  rewrite forallb_forall. intros H l Hl. apply list_elem_of_In, H in Hl.
  apply existsb_exists in Hl as (x & Hx & Heq). apply String.eqb_eq in Heq. subst x.
  apply list_elem_of_In, Hx.
Qed.

(** Going through the script command by command. *)
Ltac walk :=
  cbv beta;
  first [ eapply triple_bind; [ solve [leaf] | walk ] | solve [leaf] | idtac ]
with leaf :=
  lazymatch goal with
  | HF : ∀ l, l ∈ ?F → l ∈ shell_only |- triple (Inv ?F ?K) ?m _ _ =>
      first
        [ apply (triple_if_failed F K)
        | apply (triple_program F K HF);
          first [ apply cuda_program_lines | apply imports_program_lines
                | apply database_program_lines | apply directories_program_lines ]
        | apply (triple_command F K); reflexivity
        | apply (triple_assign F K); first [ exact I | discriminate ]
        | apply triple_when; intros _; walk
        | apply triple_if; walk
        | apply (triple_unless_SKIP_VENV F K);
          let HK := fresh "HK" in
          intros HK; first [ exfalso; apply HK; reflexivity | walk ] ]
  end.

Lemma script_avoids_failure_labels (e : env) :
  triple (fun s => out s = [] ∧ True) (script e)
    (Inv shell_failure_labels (fun _ => True)) (Stop shell_failure_labels).
Proof.
  assert (HF : ∀ l, l ∈ shell_failure_labels → l ∈ shell_only)
    by (apply subset_by_computation; reflexivity).
  unfold script.
  eapply triple_bind; [apply (triple_set_e shell_failure_labels (fun _ => True))|].
  walk.
Qed.

(** X24: the lines echoed inside the [if [ $? -ne 0 ]] blocks are never
    written, on no machine: under [set -e] a failing command ends the
    script before the test of its status is reached. *)
Theorem failure_blocks_are_dead (e : env) (l : string) :
  l ∈ shell_failure_labels → l ∉ output e.
Proof.
  intros Hl. pose proof (script_avoids_failure_labels e (initial e) (conj eq_refl I)) as H.
  unfold output, setup_linux. destruct (script e (initial e)) as [[] s|code written].
  - destruct H as (_ & _ & H & _). apply (proj1 (avoids_elem _ _) H l Hl).
  - destruct H as (_ & H). apply (proj1 (avoids_elem _ _) H l Hl).
Qed.


Lemma failure_blocks_are_dead_witness :
  "❌ Failed to install dependencies" ∉ output SetupSpec.broken_requirements.
Proof.
  apply (failure_blocks_are_dead SetupSpec.broken_requirements).
  unfold shell_failure_labels. rewrite !elem_of_cons. tauto.
Defined.

Lemma script_completion (e : env) :
  triple (fun s => out s = [] ∧ True) (script e)
    (fun s => last_status s = 0 ∧ completion_line ∈ out s) (Stop [completion_line]).
Proof.
  assert (HF : ∀ l, l ∈ [completion_line] → l ∈ shell_only)
    by (apply subset_by_computation; reflexivity).
  unfold script.
  eapply triple_bind; [apply (triple_set_e [completion_line] (fun _ => True))|].
  walk.
  intros s (He & _ & _ & _). unfold banner, echo_all, command, mbind, sh_bind.
  cbn [out errexit last_status]. rewrite He. cbn [andb negb Nat.eqb out last_status].
  split; [reflexivity|]. cbn [out].
  rewrite !elem_of_app. left. right. unfold completion_line. rewrite !elem_of_cons. tauto.
Qed.

(** X25: the line [Setup Complete!] is written exactly on the runs that end
    with status 0: a run that stops early never writes it, and a run that
    gets to the end has status 0. *)
Theorem completion_banner_iff_success (e : env) :
  completion_line ∈ output e ↔ exit_status e = 0.
Proof.
  pose proof (script_completion e (initial e) (conj eq_refl I)) as H.
  unfold output, exit_status, setup_linux.
  destruct (script e (initial e)) as [[] s|code written]; cbn [fst snd].
  - tauto.
  - destruct H as (Hcode & Hw). split; [|contradiction].
    intros Hl. exfalso. apply (proj1 (avoids_elem _ _) Hw completion_line); [left|exact Hl].
Qed.

Lemma script_skips_creation (e : env) :
  triple (fun s => out s = [] ∧ SKIP_VENV s ≠ "") (script e)
    (Inv [creating_line] (fun v => v ≠ "")) (Stop [creating_line]).
Proof.
  assert (HF : ∀ l, l ∈ [creating_line] → l ∈ shell_only)
    by (apply subset_by_computation; reflexivity).
  unfold script.
  eapply triple_bind; [apply (triple_set_e [creating_line] (fun v => v ≠ ""))|].
  walk.
Qed.

(** X26: the script reads [SKIP_VENV] without ever clearing it: when the
    variable comes non-empty from the caller's environment, no virtual
    environment is created (the line announcing it is never written), and
    the outcome of [python3 -m venv] has no bearing on what the script
    writes or on its exit status. *)
Theorem inherited_SKIP_VENV_skips_creation (e : env) :
  SKIP_VENV_inherited e ≠ "" →
  (creating_line ∉ output e) ∧
  ∀ n, setup_linux (with_venv_status n e) = setup_linux e.
Proof.
  intros Hskip. split.
  - pose proof (script_skips_creation e (initial e) (conj eq_refl Hskip)) as H.
    unfold output, setup_linux. destruct (script e (initial e)) as [[] s|code written].
    + destruct H as (_ & _ & H & _). apply (proj1 (avoids_elem _ _) H); left.
    + destruct H as (_ & H). apply (proj1 (avoids_elem _ _) H); left.
  - intros n. unfold setup_linux, with_venv_status, initial, script.
    destruct e as [py skip vex rd reply rm src venv pu pi cu ie db dirs].
    cbn [python3_version SKIP_VENV_inherited venv_dir_exists read_status REPLY rm_status
         source_status venv_status pip_upgrade pip_install cuda import_error database
         directories] in *.
    destruct skip as [|a skip]; [contradiction|]. clear Hskip.
    generalize (cuda_program cu) (imports_program ie) (database_program db)
               (directories_program dirs).
    intros [cl cs] [il is_] [dl ds] [rl rs].
    generalize (String.eqb reply "y") (String.eqb reply "Y"). intros ry rY.
    destruct py; try reflexivity. destruct vex; try reflexivity.
    all: destruct rd; try reflexivity.
    all: destruct ry; try reflexivity.
    all: destruct rY; try reflexivity.
    all: destruct rm; try reflexivity.
    all: destruct src; try reflexivity.
Qed.

Lemma inherited_SKIP_VENV_skips_creation_witness :
  setup_linux skip_exported = setup_linux (with_venv_status 0 skip_exported) ∧
  exit_status skip_exported = 0.
Proof.
  split; [|reflexivity]. symmetry.
  apply (proj2 (inherited_SKIP_VENV_skips_creation skip_exported ltac:(discriminate)) 0).
Defined.

(** X27: the status the script ends with is the status of the command that
    failed, not the 1 of the [exit 1] written after it: this holds for the
    version check, for [pip install --upgrade pip] and for the install of
    the requirements. *)
Theorem failed_command_status_is_exit_status (e : env) :
  (python3_version e ≠ 0 → exit_status e = python3_version e) ∧
  (python3_version e = 0 → SetupSpec.venv_phase_ok e = true →
     (pip_upgrade e ≠ 0 → exit_status e = pip_upgrade e) ∧
     (pip_upgrade e = 0 → pip_install e ≠ 0 → exit_status e = pip_install e)).
Proof.
  unfold exit_status, setup_linux, initial, script, SetupSpec.venv_phase_ok,
    SetupSpec.reuses_venv.
  destruct e as [py skip vex rd reply rm src venv pu pi cu ie db dirs].
  cbn [python3_version SKIP_VENV_inherited venv_dir_exists read_status REPLY rm_status
       source_status venv_status pip_upgrade pip_install cuda import_error database
       directories] in *.
  split.
  - intros Hpy. destruct py; [contradiction | reflexivity].
  - intros -> Hvenv.
    generalize dependent (String.eqb reply "y"). generalize dependent (String.eqb reply "Y").
    intros rY ry Hvenv. rewrite !andb_true_iff in Hvenv. destruct Hvenv as [Hread Hvenv].
    destruct vex, ry, rY; cbn in Hread, Hvenv;
      repeat match type of Hread with
             | context [Nat.eqb ?x 0] =>
                 is_var x; destruct x; cbn in Hread; try discriminate Hread
             end;
      repeat match type of Hvenv with
             | context [String.eqb ?x ""] => is_var x; destruct x; cbn in Hvenv
             | context [Nat.eqb ?x 0] =>
                 is_var x; destruct x; cbn in Hvenv; try discriminate Hvenv
             end.
    all: split; [ intros Hpu; destruct pu; [contradiction | reflexivity]
                | intros -> Hpi; destruct pi; [contradiction | reflexivity] ].
Qed.

Lemma failed_command_status_is_exit_status_witness : exit_status pip_exits_2 = 2.
Proof.
  apply (proj2 (failed_command_status_is_exit_status pip_exits_2) eq_refl eq_refl);
    [reflexivity | discriminate].
Defined.

End SetupLogicFacts.

Module ClientRoutesFacts.
Import Http ApiClient ClientRoutes.

Lemma split_path_piece (s rest : string) :
  no_slash s = true →
  split_path (s ++ String "/"%char rest) = s :: split_path rest.
Proof.
  induction s as [|c s IH]; intros Hs; [reflexivity|].
  cbn [no_slash] in Hs. apply andb_true_iff in Hs as [Hc Hs].
  apply negb_true_iff in Hc.
  change (String c s ++ String "/"%char rest)
    with (String c (s ++ String "/"%char rest)).
  cbn [split_path]. rewrite Hc, (IH Hs). reflexivity.
Qed.

Lemma split_path_whole (s : string) : no_slash s = true → split_path s = [s].
Proof.
  induction s as [|c s IH]; intros Hs; [reflexivity|].
  cbn [no_slash] in Hs. apply andb_true_iff in Hs as [Hc Hs].
  apply negb_true_iff in Hc. cbn [split_path]. rewrite Hc, (IH Hs). reflexivity.
Qed.

Lemma split_path_join (pieces : list string) :
  pieces ≠ [] → Forall (fun p => no_slash p = true) pieces →
  split_path (join pieces) = pieces.
Proof.
  induction pieces as [|p rest IH]; intros Hne Hall; [contradiction|].
  apply Forall_cons in Hall as [Hp Hrest].
  destruct rest as [|q rest]; [apply split_path_whole, Hp|].
  change (join (p :: q :: rest)) with (p ++ String "/"%char (join (q :: rest))).
  rewrite (split_path_piece _ _ Hp), IH; [reflexivity | discriminate | exact Hrest].
Qed.

Lemma shape_join (pieces : list string) :
  pieces ≠ [] → Forall (fun p => no_slash p = true) pieces →
  shape (join pieces) = to_piece <$> pieces.
Proof. intros Hne Hall. unfold shape. rewrite split_path_join by assumption. reflexivity. Qed.

Ltac pieces_ok :=
  first [ discriminate
        | repeat (apply Forall_cons; split; [first [assumption | reflexivity]|]);
          apply Forall_nil; exact I ].

Ltac one_callable pieces :=
  unfold served_by, fits; cbn [r_path r_method];
  match goal with
  | |- context [shape ?u] =>
      lazymatch u with
      | url _ => fail
      | _ => change u with (join pieces); rewrite (shape_join pieces) by pieces_ok
      end
  end;
  eexists; vm_compute; reflexivity.

(** X28: every request the two hooks send is one the generated client has a
    static method for, and exactly one: the method is the same and the
    URL fits the method's template, whatever the project and segment ids
    (ids without a [/]). *)
Theorem hook_requests_are_client_routes (projectId segmentId : string) (r : route) :
  no_slash projectId = true → no_slash segmentId = true →
  r ∈ hook_requests projectId segmentId →
  ∃ c, served_by r = [c].
Proof.
  intros Hp Hs. unfold hook_requests. rewrite !elem_of_cons, elem_of_nil.
  intros [-> | [-> | [-> | [-> | [-> | [-> | [-> | [-> | [-> | [-> | []]]]]]]]]]].
  - eexists; vm_compute; reflexivity.
  - eexists; vm_compute; reflexivity.
  - one_callable [""; "podcast"; "projects"; projectId].
  - one_callable [""; "podcast"; "projects"; projectId].
  - one_callable [""; "podcast"; "projects"; projectId].
  - one_callable [""; "podcast"; "projects"; projectId; "segments"; segmentId].
  - one_callable [""; "podcast"; "projects"; projectId; "start"].
  - one_callable [""; "podcast"; "projects"; projectId; "pause"].
  - one_callable [""; "podcast"; "projects"; projectId; "export"].
  - one_callable [""; "podcast"; "projects"; projectId; "progress"].
Qed.

Lemma hook_requests_are_client_routes_witness :
  ∃ c, served_by (Route PUT "/podcast/projects/7/segments/s1") = [c].
Proof.
  apply (hook_requests_are_client_routes "7" "s1"); [reflexivity | reflexivity |].
  unfold hook_requests. rewrite !elem_of_cons. do 5 right. left. reflexivity.
Defined.

End ClientRoutesFacts.
